(** * Madj2kSlideMenu: templating and open/close life cycle

    A shallow embedding of the slide-menu controller of fe-frontend-kit
    (class [Madj2kSlideMenu]).

    - The templating is pure: [replaceHtml], [getItemMarker] and
      [buildHtml] are functions on strings, with the two regular
      expressions of the source written as scans.
    - The controller is stateful: [loadMenu], [open], [close],
      [setOpenCard], [changeOpenCard], the helpers they call, the click
      handlers and the bodies deferred with [setTimeout] are state
      transformers over a page, an explicit browser state with the
      elements the controller touches, the answers of its selector
      queries, the controller's own fields and a log of the effects in
      program order.  An exception is an outcome of its own.
    - [initNoScrollHelper] is not part of the development. *)

From Stdlib Require Import Ascii String DecimalString.
From stdpp Require Import gmap strings list fin_maps.

#[local] Set Warnings "-register-all".
Local Open Scope list_scope.

(** ** JavaScript strings

    A string is its sequence of code units.  Literals are written with
    [txt "..."]. *)

Abbreviation text := (list ascii).

Definition txt (s : string) : text := list_ascii_of_string s.

(** Outcome of a call: a value, or an exception that propagates to the
    caller. *)
Inductive exn :=
| TypeError          (* property access on null / undefined *)
| SyntaxError        (* DOMTokenList: empty token *)
| InvalidCharacterError. (* DOMTokenList: token with white space *)

Inductive result (A : Type) :=
| Ok (a : A)
| Throw (e : exn).
Arguments Ok {A} a.
Arguments Throw {A} e.

Definition rbind {A B} (r : result A) (k : A → result B) : result B :=
  match r with
  | Ok a => k a
  | Throw e => Throw e
  end.

(** ** Regular expression [/%(\w+)%/g]  *)

Definition pct : ascii := "%"%char.

(** [\w] is [[A-Za-z0-9_]]. *)
Definition is_word (c : ascii) : bool :=
  let n := nat_of_ascii c in
  ((48 <=? n) && (n <=? 57)) || ((65 <=? n) && (n <=? 90))
  || ((97 <=? n) && (n <=? 122)) || (n =? 95).

Definition is_empty {A} (l : list A) : bool :=
  match l with [] => true | _ => false end.

(** Longest run of word characters at the head of [s]. *)
Fixpoint word_run (s : text) : text :=
  match s with
  | c :: r => if is_word c then c :: word_run r else []
  | [] => []
  end.

(** [token_at r]: does [%(\w+)%] match at a position whose ["%"] is
    followed by [r]?  Gives the captured key. *)
Definition token_at (r : text) : option text :=
  let key := word_run r in
  if is_empty key then None
  else match drop (length key) r with
       | c :: _ => if Ascii.eqb c pct then Some key else None
       | [] => None
       end.

(** A marker object: own properties with their string form. *)
Abbreviation marker := (gmap string text).

(** [hasOwnProperty.call(data, key) ? data[key] : ''] *)
Definition own_or_empty (data : marker) (key : string) : text :=
  match data !! key with
  | Some v => v
  | None => []
  end.

(** The scan of [String.prototype.replace] with a global regex: try a
    match at the current position; on success emit the replacement and
    resume after the match ([skip] counts the characters of the match
    still to pass over), otherwise copy one character. *)
Fixpoint replace_scan (data : marker) (skip : nat) (s : text) : text :=
  match s with
  | [] => []
  | c :: r =>
      match skip with
      | S k => replace_scan data k r
      | 0 =>
          if Ascii.eqb c pct then
            match token_at r with
            | Some key =>
                own_or_empty data (string_of_list_ascii key)
                ++ replace_scan data (S (length key)) r
            | None => c :: replace_scan data 0 r
            end
          else c :: replace_scan data 0 r
      end
  end.

Definition replaceHtml (html : text) (data : marker) : text :=
  replace_scan data 0 html.

(** ** Regular expression [/<!--[\s\S]*?-->/g] *)

Fixpoint starts_with (p s : text) : bool :=
  match p, s with
  | [], _ => true
  | a :: p', b :: s' => Ascii.eqb a b && starts_with p' s'
  | _ :: _, [] => false
  end.

(** Index of the first occurrence of [p] in [s]. *)
Fixpoint find_sub (p s : text) : option nat :=
  if starts_with p s then Some 0
  else match s with
       | [] => None
       | _ :: r => option_map S (find_sub p r)
       end.

Definition cm_open : text := txt "<!--".
Definition cm_close : text := txt "-->".

(** Length of the lazy match of [<!--[\s\S]*?-->] at the head of [s]. *)
Definition comment_at (s : text) : option nat :=
  if starts_with cm_open s then
    match find_sub cm_close (drop 4 s) with
    | Some i => Some (4 + i + 3)
    | None => None
    end
  else None.

Fixpoint strip_scan (skip : nat) (s : text) : text :=
  match s with
  | [] => []
  | c :: r =>
      match skip with
      | S k => strip_scan k r
      | 0 =>
          match comment_at s with
          | Some n => strip_scan (n - 1) r
          | None => c :: strip_scan 0 r
          end
      end
  end.

Definition stripComments (html : text) : text := strip_scan 0 html.

(** ** Menu items ([menuItemsJson])

    One entry of the JSON tree, with the fields [getItemMarker] reads.
    [data] is present, and [data.uid] and [data.pid] are natural
    numbers below 10^21, whose string form is their decimal digits.
    [data.title], [title] and [link] are inserted as they are, so an
    absent one is [None] and prints as [undefined].  [target] and
    [linkType] are only read through [||] and [?:], where an absent
    string and the empty string behave alike; truthy / falsy flags
    ([active: 1]) are booleans; an absent [children] is the empty
    list. *)

Inductive MenuItem := mkMenuItem {
  data_uid : N;
  data_pid : N;
  data_title : option text;
  title : option text;
  link : option text;
  target : text;
  active : bool;
  current : bool;
  hasSubpages : bool;
  linkType : text;
  isLinked : bool;
  children : list MenuItem
}.

(** The class names of [defaults] that reach the generated markup. *)
Record classNames := mkClassNames {
  activeStatusClass : string;
  currentStatusClass : string;
  hasChildrenStatusClass : string;
  linkTypeClass : string;
  isLinkedClass : string
}.

Definition defaultClassNames : classNames :=
  {| activeStatusClass := "active";
     currentStatusClass := "current";
     hasChildrenStatusClass := "has-children";
     linkTypeClass := "link-type";
     isLinkedClass := "linked" |}.

(** The three template fragments read by [loadMenu]. *)
Record templates := mkTemplates {
  menuWrapTemplate : text;
  menuItemTemplate : text;
  subMenuWrapTemplate : text
}.

(** String form of a number below 10^21. *)
Definition dec (n : N) : text :=
  txt (NilEmpty.string_of_uint (N.to_uint n)).

(** String form of a value that may be [undefined]. *)
Definition shown (v : option text) : text := default (txt "undefined") v.

(** [x || d] on strings: the empty string is falsy. *)
Definition or_text (x d : text) : text :=
  match x with [] => d | _ => x end.

Definition when_text (b : bool) (x : text) : text := if b then x else [].

Definition opt_field (f : MenuItem → text) (o : option MenuItem) : text :=
  match o with Some p => f p | None => [] end.

Definition marker_fields (cn : classNames) (item : MenuItem)
    (parentItem : option MenuItem) (level : nat) : list (string * text) :=
  [ ("activeClass", when_text (active item) (txt (activeStatusClass cn)));
    ("currentClass", when_text (current item) (txt (currentStatusClass cn)));
    ("levelClass", txt "level-" ++ dec (N.of_nat (level + 1)));
    ("ariaCurrent", when_text (current item) (txt "page"));
    ("ariaExpanded", if current item then txt "true" else txt "false");
    ("hasChildrenClass", when_text (hasSubpages item) (txt (hasChildrenStatusClass cn)));
    ("hasChildren", if hasSubpages item then txt "true" else txt "false");
    ("linkTypeClass",
       if is_empty (linkType item) then []
       else txt (linkTypeClass cn) ++ txt "-" ++ linkType item);
    ("isLinkedClass", when_text (isLinked item) (txt (isLinkedClass cn)));
    ("uid", dec (data_uid item));
    ("titleRaw", shown (data_title item));
    ("title", shown (title item));
    ("link", shown (link item));
    ("target", or_text (target item) (txt "_self"));
    ("parentUid", dec (data_pid item));
    ("parentTitle", opt_field (λ p, default [] (title p)) parentItem);
    ("parentLink", opt_field (λ p, default [] (link p)) parentItem);
    ("parentTarget", or_text (opt_field target parentItem) (txt "_self"));
    ("ifIsLinkedStart", if isLinked item then [] else txt "<!--");
    ("ifIsLinkedEnd", if isLinked item then [] else txt "-->");
    ("ifIsNotLinkedStart", if isLinked item then txt "<!--" else []);
    ("ifIsNotLinkedEnd", if isLinked item then txt "-->" else []);
    ("ifHasChildrenStart", if hasSubpages item then [] else txt "<!--");
    ("ifHasChildrenEnd", if hasSubpages item then [] else txt "-->");
    ("ifHasNoChildrenStart", if hasSubpages item then txt "<!--" else []);
    ("ifHasNoChildrenEnd", if hasSubpages item then txt "-->" else []) ].

Definition getItemMarker (cn : classNames) (item : MenuItem)
    (parentItem : option MenuItem) (level : nat) : marker :=
  list_to_map (marker_fields cn item parentItem level).

(** [items.forEach(item => html += f(item))]. *)
Fixpoint forEachHtml (f : MenuItem → result text) (items : list MenuItem)
    : result text :=
  match items with
  | [] => Ok []
  | item :: rest =>
      rbind (f item) (λ h, rbind (forEachHtml f rest) (λ t, Ok (h ++ t)))
  end.

(** The part of [buildHtml] after the loop: wrap the accumulated [html]
    and drop the comments.  [items[0].data.pid] on an empty array is
    the [TypeError]. *)
Definition wrapHtml (cn : classNames) (tp : templates)
    (items : list MenuItem) (parentItem : option MenuItem) (level : nat)
    (html : text) : result text :=
  rbind
    (match parentItem with
     | Some p =>
         Ok (replaceHtml (subMenuWrapTemplate tp)
               (<["menuItems" := html]> (getItemMarker cn p None level)))
     | None =>
         match items with
         | [] => Throw TypeError
         | first :: _ =>
             Ok (replaceHtml (menuWrapTemplate tp)
                   (list_to_map [ ("uid", dec (data_pid first));
                                  ("menuItems", html);
                                  ("levelClass", txt "level-1") ]))
         end
     end)
    (λ html', Ok (stripComments html')).

(** The body of the loop of [buildHtml] for one item; the recursive
    call [buildHtml(item.children, item, level + 1)] is its loop over
    the children followed by [wrapHtml]. *)
Fixpoint buildItem (cn : classNames) (tp : templates)
    (parentItem : option MenuItem) (level : nat) (item : MenuItem)
    {struct item} : result text :=
  rbind
    (if hasSubpages item && negb (is_empty (children item)) then
       rbind
         (rbind
            ((fix each (l : list MenuItem) : result text :=
                match l with
                | [] => Ok []
                | c :: r =>
                    rbind (buildItem cn tp (Some item) (S level) c)
                      (λ h, rbind (each r) (λ t, Ok (h ++ t)))
                end) (children item))
            (wrapHtml cn tp (children item) (Some item) (S level)))
         (λ sub, Ok (<["submenu" := sub]> (getItemMarker cn item parentItem level)))
     else Ok (getItemMarker cn item parentItem level))
    (λ m, Ok (replaceHtml (menuItemTemplate tp) m)).

Definition buildHtml (cn : classNames) (tp : templates)
    (items : list MenuItem) (parentItem : option MenuItem) (level : nat)
    : result text :=
  rbind (forEachHtml (buildItem cn tp parentItem level) items)
        (wrapHtml cn tp items parentItem level).

(** Number of items in a tree, and number of items [buildHtml] visits:
    the children of an item are visited only below
    [item.hasSubpages && item.children?.length]. *)
Fixpoint tree_size (item : MenuItem) : nat :=
  S ((fix sum (l : list MenuItem) : nat :=
        match l with [] => 0 | c :: r => tree_size c + sum r end)
       (children item)).

Definition forest_size (items : list MenuItem) : nat :=
  foldr (λ i n, tree_size i + n) 0 items.

Fixpoint visited_size (item : MenuItem) : nat :=
  S (if hasSubpages item then
       (fix sum (l : list MenuItem) : nat :=
          match l with [] => 0 | c :: r => visited_size c + sum r end)
         (children item)
     else 0).

Definition visited_forest_size (items : list MenuItem) : nat :=
  foldr (λ i n, visited_size i + n) 0 items.

(** Occurrences of a character, and of a substring, in a text. *)
Definition count_char (c : ascii) (s : text) : nat :=
  length (filter (λ x, x = c) s).

Fixpoint count_sub (p s : text) : nat :=
  (if starts_with p s then 1 else 0) +
  match s with
  | [] => 0
  | _ :: r => count_sub p r
  end.

(** The keys of the [%key%] tokens of a template, in the order in which
    the scan of [replaceHtml] meets them. *)
Fixpoint keys_scan (skip : nat) (s : text) : list text :=
  match s with
  | [] => []
  | c :: r =>
      match skip with
      | S k => keys_scan k r
      | 0 =>
          if Ascii.eqb c pct then
            match token_at r with
            | Some key => key :: keys_scan (S (length key)) r
            | None => keys_scan 0 r
            end
          else keys_scan 0 r
      end
  end.

Definition token_keys (template : text) : list string :=
  string_of_list_ascii <$> keys_scan 0 template.

(** How often a template uses the placeholder [%k%]. *)
Definition key_uses (k : string) (template : text) : nat :=
  length (filter (λ x, x = k) (token_keys template)).

(** No match of the regular expression starts at one of the first [n]
    positions of [s]. *)
Fixpoint token_free_prefix (n : nat) (s : text) : bool :=
  match n, s with
  | S k, c :: r =>
      negb (Ascii.eqb c pct && bool_decide (is_Some (token_at r)))
      && token_free_prefix k r
  | _, _ => true
  end.

(** The eight placeholders that open or close a conditional region. *)
Definition conditional_keys : list string :=
  [ "ifIsLinkedStart"; "ifIsLinkedEnd"; "ifIsNotLinkedStart"; "ifIsNotLinkedEnd";
    "ifHasChildrenStart"; "ifHasChildrenEnd"; "ifHasNoChildrenStart";
    "ifHasNoChildrenEnd" ]%string.

(** [c] does not occur in the free-text fields of any item of the tree. *)
Definition fields_avoid (c : ascii) (item : MenuItem) : Prop :=
  (c ∉ shown (data_title item)) ∧ (c ∉ shown (title item)) ∧ (c ∉ shown (link item)) ∧
  (c ∉ target item) ∧ (c ∉ linkType item).

Fixpoint tree_avoids (c : ascii) (item : MenuItem) : Prop :=
  fields_avoid c item ∧
  (fix all (l : list MenuItem) : Prop :=
     match l with [] => True | x :: r => tree_avoids c x ∧ all r end)
    (children item).

Definition forest_avoids (c : ascii) (items : list MenuItem) : Prop :=
  Forall (tree_avoids c) items.

Definition classes_avoid (c : ascii) (cn : classNames) : Prop :=
  (c ∉ txt (activeStatusClass cn)) ∧ (c ∉ txt (currentStatusClass cn)) ∧
  (c ∉ txt (hasChildrenStatusClass cn)) ∧ (c ∉ txt (linkTypeClass cn)) ∧
  (c ∉ txt (isLinkedClass cn)).


(** A character that identifies a rendered item block: the item
    template has it once, the two wrappers and the inserted values do
    not have it, and each template inserts its nested part once. *)
Record block_sign (c : ascii) (cn : classNames) (tp : templates) : Prop := {
  sign_not_word : is_word c = false;
  sign_not_markup : c ∉ txt "<!->%";
  sign_once : count_char c (menuItemTemplate tp) = 1;
  sign_not_in_wrap : count_char c (menuWrapTemplate tp) = 0;
  sign_not_in_sub : count_char c (subMenuWrapTemplate tp) = 0;
  sign_classes : classes_avoid c cn;
  submenu_once : key_uses "submenu" (menuItemTemplate tp) = 1;
  items_once_wrap : key_uses "menuItems" (menuWrapTemplate tp) = 1;
  items_once_sub : key_uses "menuItems" (subMenuWrapTemplate tp) = 1
}.

Definition bang : ascii := "!"%char.

(** ** Comments that do not reach an item mark

    [buildHtml] removes comments from text into which item data has
    been inserted.  The mark of an item block survives when every
    ["<"] of that text either opens a tag (it is followed by a
    character other than ["!"] and ["<"]) or opens a comment that is
    closed before the next mark. *)

Definition lt : ascii := "<"%char.

Definition follows_lt (x : ascii) : bool :=
  negb (Ascii.eqb x bang) && negb (Ascii.eqb x lt).

(** Every ["<"] of the text is followed by a character that is neither
    ["!"] nor ["<"]. *)
Fixpoint safe_lt (s : text) : bool :=
  match s with
  | [] => true
  | x :: r =>
      (if Ascii.eqb x lt
       then match r with y :: _ => follows_lt y | [] => false end
       else true)
      && safe_lt r
  end.

(** The free-text fields of the items, and the class names, in which
    every ["<"] is followed in this way: escaped text, which has no
    ["<"], is of this kind. *)
Definition fields_safe (item : MenuItem) : Prop :=
  safe_lt (shown (data_title item)) = true ∧ safe_lt (shown (title item)) = true
  ∧ safe_lt (shown (link item)) = true ∧ safe_lt (target item) = true
  ∧ safe_lt (linkType item) = true.

Fixpoint tree_safe (item : MenuItem) : Prop :=
  fields_safe item ∧
  (fix all (l : list MenuItem) : Prop :=
     match l with [] => True | x :: r => tree_safe x ∧ all r end)
    (children item).

Definition forest_safe (items : list MenuItem) : Prop :=
  Forall tree_safe items.

Definition classes_safe (cn : classNames) : Prop :=
  safe_lt (txt (activeStatusClass cn)) = true
  ∧ safe_lt (txt (currentStatusClass cn)) = true
  ∧ safe_lt (txt (hasChildrenStatusClass cn)) = true
  ∧ safe_lt (txt (linkTypeClass cn)) = true
  ∧ safe_lt (txt (isLinkedClass cn)) = true.

(** A text made of characters other than ["<"], of ["<"] followed as
    above, and of closed comments whose body has no [c]. *)
Inductive guarded (c : ascii) : text → Prop :=
| guarded_nil : guarded c []
| guarded_char x r : x ≠ lt → guarded c r → guarded c (x :: r)
| guarded_lt y r : follows_lt y = true → guarded c (y :: r) → guarded c (lt :: y :: r)
| guarded_comment body r :
    c ∉ body → safe_lt (body ++ cm_close) = true → guarded c r →
    guarded c (cm_open ++ body ++ cm_close ++ r).

(** A template as the scan of [replaceHtml] reads it: the characters it
    copies and the tokens it replaces. *)
Inductive piece :=
| Chr (x : ascii)
| Tok (key : string).

Fixpoint pieces_scan (skip : nat) (s : text) : list piece :=
  match s with
  | [] => []
  | c :: r =>
      match skip with
      | S k => pieces_scan k r
      | 0 =>
          if Ascii.eqb c pct then
            match token_at r with
            | Some key => Tok (string_of_list_ascii key) :: pieces_scan (S (length key)) r
            | None => Chr c :: pieces_scan 0 r
            end
          else Chr c :: pieces_scan 0 r
      end
  end.

Definition pieces (template : text) : list piece := pieces_scan 0 template.

Fixpoint render (data : marker) (ps : list piece) : text :=
  match ps with
  | [] => []
  | Chr x :: r => x :: render data r
  | Tok k :: r => own_or_empty data k ++ render data r
  end.

(** The placeholder that closes the conditional region a placeholder
    opens. *)
Definition region_end (k : string) : option string :=
  if decide (k = "ifIsLinkedStart") then Some "ifIsLinkedEnd"
  else if decide (k = "ifIsNotLinkedStart") then Some "ifIsNotLinkedEnd"
  else if decide (k = "ifHasChildrenStart") then Some "ifHasChildrenEnd"
  else if decide (k = "ifHasNoChildrenStart") then Some "ifHasNoChildrenEnd"
  else None.

(** Placeholders for item data: neither the start of a region nor one
    of the two nested parts. *)
Definition is_plain_key (k : string) : bool :=
  bool_decide (region_end k = None ∧ k ≠ "submenu" ∧ k ≠ "menuItems").

Inductive scan_mode :=
| Outside
| InComment
| InRegion (e : string).

Definition lt_followed (x : ascii) (rest : list piece) : bool :=
  if Ascii.eqb x lt
  then match rest with Chr y :: _ => follows_lt y | _ => false end
  else true.

(** What may stand inside a comment or a conditional region: no mark,
    no nested part, no start of a region, and ["<"] only before a
    character of the template that is neither ["!"] nor ["<"]. *)
Definition inner_ok (c : ascii) (p : piece) (rest : list piece) : bool :=
  match p with
  | Chr x => negb (Ascii.eqb x c) && lt_followed x rest
  | Tok k => is_plain_key k
  end.

(** The check of a template: outside of comments and regions a ["<"]
    is followed by a character of the template that is neither ["!"]
    nor ["<"], or it starts a comment [<!--] that the template closes
    with [-->]; a placeholder that starts a conditional region is
    followed by the placeholder that ends it; and in between there is
    only what [inner_ok] admits. *)
Fixpoint guard_scan (c : ascii) (m : scan_mode) (ps : list piece) {struct ps} : bool :=
  match ps with
  | [] => match m with Outside => true | _ => false end
  | p :: rest =>
      match m with
      | Outside =>
          match p with
          | Tok k =>
              match region_end k with
              | Some e => guard_scan c (InRegion e) rest
              | None => guard_scan c Outside rest
              end
          | Chr x =>
              if Ascii.eqb x lt then
                match rest with
                | Chr y :: rest1 =>
                    if follows_lt y then guard_scan c Outside rest
                    else
                      match rest1 with
                      | Chr d :: Chr e :: rest3 =>
                          Ascii.eqb y bang && Ascii.eqb d "-" && Ascii.eqb e "-"
                          && guard_scan c InComment rest3
                      | _ => false
                      end
                | _ => false
                end
              else guard_scan c Outside rest
          end
      | InComment =>
          match p, rest with
          | Chr a, Chr b :: Chr d :: rest2 =>
              if Ascii.eqb a "-" && Ascii.eqb b "-" && Ascii.eqb d ">"
              then guard_scan c Outside rest2
              else inner_ok c p rest && guard_scan c InComment rest
          | _, _ => inner_ok c p rest && guard_scan c InComment rest
          end
      | InRegion e =>
          match p with
          | Tok k =>
              if decide (k = e) then guard_scan c Outside rest
              else is_plain_key k && guard_scan c (InRegion e) rest
          | Chr x => inner_ok c p rest && guard_scan c (InRegion e) rest
          end
      end
  end.

Definition guard_ok (c : ascii) (template : text) : bool :=
  guard_scan c Outside (pieces template).

Record templates_guarded (c : ascii) (tp : templates) : Prop := {
  guarded_item : guard_ok c (menuItemTemplate tp) = true;
  guarded_wrap : guard_ok c (menuWrapTemplate tp) = true;
  guarded_sub : guard_ok c (subMenuWrapTemplate tp) = true
}.

(** The values of a marker object as the check assumes them. *)
Record marker_ok (c : ascii) (d : marker) : Prop := {
  plain_values : ∀ k, is_plain_key k = true →
                      safe_lt (own_or_empty d k) = true ∧ (c ∉ own_or_empty d k);
  nested_values : ∀ k, region_end k = None → guarded c (own_or_empty d k);
  region_values : ∀ k e, region_end k = Some e →
      (own_or_empty d k = cm_open ∧ own_or_empty d e = cm_close)
      ∨ (own_or_empty d k = [] ∧ own_or_empty d e = [])
}.

(** Trees in which the flag agrees with the data: an item that has
    children has [hasSubpages] set. *)
Fixpoint tree_flagged (item : MenuItem) : Prop :=
  (children item ≠ [] → hasSubpages item = true) ∧
  (fix all (l : list MenuItem) : Prop :=
     match l with [] => True | x :: r => tree_flagged x ∧ all r end)
    (children item).

Definition forest_flagged (items : list MenuItem) : Prop :=
  Forall tree_flagged items.

(** What the check establishes for the rendered rest of a template, by
    the place the scan is in. *)
Definition scan_post (c : ascii) (d : marker) (m : scan_mode) (s : text) : Prop :=
  match m with
  | Outside => guarded c s
  | InComment =>
      ∃ body r, s = body ++ cm_close ++ r ∧ (c ∉ body)
                ∧ safe_lt (body ++ cm_close) = true ∧ guarded c r
  | InRegion e =>
      ∃ body r, s = body ++ own_or_empty d e ++ r ∧ (c ∉ body)
                ∧ safe_lt body = true ∧ guarded c r
  end.

(** ** Sample data

    Templates without conditional regions, in which ["#"] marks an item
    block, and two small menus: the second has a child below an item
    whose [hasSubpages] is [0].  Then the templates of the
    documentation, with their comments and conditional regions. *)

Definition plainTemplates : templates :=
  {| menuWrapTemplate :=
       txt "<div class='js-slide-nav-card %levelClass%' id='slide-card-%uid%'><ul>%menuItems%</ul></div>";
     menuItemTemplate :=
       txt "<li class='slide-nav-item %activeClass%'><a href='#%uid%'>%title%</a>%submenu%</li>";
     subMenuWrapTemplate :=
       txt "<div class='js-slide-nav-card %levelClass%' id='slide-card-%uid%'><ul>%menuItems%</ul></div>" |}.

Definition sampleItem (uid pid : N) (name : string) (subpages : bool)
    (kids : list MenuItem) : MenuItem :=
  {| data_uid := uid; data_pid := pid; data_title := Some (txt name);
     title := Some (txt name); link := Some (txt "/page"); target := txt "_self";
     active := false; current := false;
     hasSubpages := subpages; linkType := []; isLinked := false; children := kids |}.

Definition sampleMenu : list MenuItem :=
  [ sampleItem 2 1 "Main" true [ sampleItem 3 2 "Sub" false [] ];
    sampleItem 4 1 "Second" false [] ].

Definition hiddenChildMenu : list MenuItem :=
  [ sampleItem 2 1 "Main" false [ sampleItem 3 2 "Sub" false [] ] ].

Definition hash : ascii := "#"%char.

(** The templates of the documentation, with attribute values in single
    quotes and with the attribute [data-item='@'] added to the [li] of
    the item template: ["@"] marks an item block. *)
Definition at_sign : ascii := "@"%char.

Definition docTemplates : templates :=
  {| menuWrapTemplate := txt
"<div class='slide-nav-container js-slide-nav-container'>
    <div class='slide-nav-card js-slide-nav-card %levelClass%' id='slide-card-%uid%'>
        <div class='slide-nav-inner'>
            <ul class='slide-nav-list'>
                %menuItems%
            </ul>
        </div>
    </div>
</div>";
     menuItemTemplate := txt
"<li class='slide-nav-item %activeClass% %hasChildrenClass%' data-item='@'>

    <!-- normal link that opens the menu-item -->
    %ifHasNoChildrenStart%
    <a href='%link%'
       title='%titleRaw%'
       role='menuitem'
       class='slide-nav-link arrow-listing-link %activeClass% %hasChildrenClass%'
       target='%target%'
       aria-current='%ariaCurrent%'>
        <span>%title%</span>
    </a>
    %ifHasNoChildrenEnd%

    <!-- link that opens next card -->
    %ifHasChildrenStart%
    <a class='slide-nav-link slide-nav-next arrow-listing-link js-slide-nav-next animation-hover %activeClass% %hasChildrenClass%'
       href='#'
       role='button'
       title='Open Submenu'
       aria-label='Open Submenu'
       aria-haspopup='true'
       aria-expanded='%ariaExpanded%'
       aria-controls='slide-card-%uid%'>
        <span>%title%</span><span class='icon-arrow-right icon'></span>
    </a>
    %ifHasChildrenEnd%
    %submenu%
</li>";
     subMenuWrapTemplate := txt
"<a class='slide-nav-next js-slide-nav-next'
   href='#'
   role='button'
   title='Open Submenu'
   aria-label='Open Submenu'
   aria-haspopup='true'
   aria-expanded='%ariaExpanded%'
   aria-controls='slide-card-%uid%'>&gt;</a>

<div class='slide-nav-card js-slide-nav-card %activeClass% %levelClass%'
     id='slide-card-%uid%'>
    <div class='slide-nav-inner'>
        <ul class='slide-nav-list'>
            <li class='slide-nav-item-back' role='none'>>
                <button class='slide-nav-back js-slide-nav-back'
                        aria-label='One Level Up'
                        aria-controls='slide-card-%uid%'
                        data-parent-card='slide-card-%parentUid%'>
                    &lt;<span class='slide-nav-back-label'>Back</span>
                </button>
            </li>

            <li class='slide-nav-headline %levelClass%' role='none'>

                <!-- normal parent -->
                %ifIsNotLinkedStart%
                <span class='slide-nav-headline-text %currentClass% %isLinkedClass%'>%title%</span>
                %ifIsNotLinkedEnd%

                <!-- linked parent -->
                %ifIsLinkedStart%
                <a href='%link%'
                   title='%titleRaw%'
                   role='menuitem'
                   class='slide-nav-headline-link %currentClass% %hasChildrenClass% %isLinkedClass%'
                   target='%target%'
                   aria-current='%ariaCurrent%'>
                    <span>%title%</span>
                </a>
                %ifIsLinkedEnd%
            </li>

            %menuItems%
        </ul>
    </div>
</div>" |}.

(** A menu of three items in which the flags agree with the data; one
    item is linked. *)
Definition docMenu : list MenuItem :=
  [ {| data_uid := 2; data_pid := 1; data_title := Some (txt "1 < 2 -- > !"); title := None;
       link := Some (txt "/main?a=1&b=2"); target := []; active := true; current := true;
       hasSubpages := true; linkType := txt "page"; isLinked := true;
       children := [ sampleItem 3 2 "Sub" false [] ] |};
    sampleItem 4 1 "Second" false [] ].

(** Two items without children whose titles are the two comment
    markers. *)
Definition commentTitlesMenu : list MenuItem :=
  [ sampleItem 2 1 "<!--" false []; sampleItem 4 1 "-->" false [] ].

(** ** The page

    Elements are referred to by handle; every handle denotes an element,
    so the store is a total function and two references to one element
    see each other's writes. *)

Abbreviation node := nat.

Record element := mkElement {
  classList : list string;
  attributes : gmap string string;
  style : gmap string string
}.

(** What the selector queries of the controller find: the content of
    the menu element and the few document-level lookups.  The content is
    replaced as a whole when [innerHTML] is assigned. *)
Record structure := mkStructure {
  menuHtml : text;                        (* $menu.innerHTML *)
  wrapNode : option node;                 (* .js-slide-nav-container *)
  cardNodes : list node;                  (* .js-slide-nav-card, document order *)
  nextToggles : list node;                (* .js-slide-nav-next *)
  backToggles : list node;                (* .js-slide-nav-back *)
  focusables : list node;                 (* a,button,input,textarea,select *)
  focusablesIn : node → list node;        (* the same, below a given element *)
  ancestorsOf : node → list node;         (* parentElement, grandparent, ... *)
  byId : string → option node             (* document.getElementById *)
}.

(** Layout and scroll values the controller reads. *)
Record viewport := mkViewport {
  innerWidth : Z;
  innerHeight : Z;
  scrollHeight : Z;                       (* documentElement.scrollHeight *)
  rectLeft : node → Z;                    (* getBoundingClientRect().left *)
  rectBottom : node → Z
}.

Inductive eventTarget := OnNode (n : node) | OnDocument | OnWindow.

Inductive handler :=
| toggleEventH | closeEventH | keyboardEventH | previousCardEventH
| nextCardEventH | resizeCardsEventH | positionMenuEventH.

(** Deferred work: the bodies of the arrow functions handed to
    [setTimeout] and [requestAnimationFrame]. *)
Inductive callback :=
| OpenDone
| CloseDone
| PreviousDone (parentCard controlledCard : node)
| NextDone (controlledCard : node)
| FocusNode (n : node)
| AnimateTo (el : node) (toLeft toTop : option string).

(** Observable effects, in program order. *)
Inductive effect :=
| Dispatched (event : string)             (* document.dispatchEvent *)
| Warned (message : string)               (* console.warn *)
| ClassesAdded (n : node) (tokens : list string)
| ClassesRemoved (n : node) (tokens : list string)
| AttributeSet (n : node) (name value : string)
| AttributeRemoved (n : node) (name : string)
| StyleSet (n : node) (property value : string)
| HtmlAssigned (html : text)
| ScrolledTo (top : Z)
| Focused (n : node)
| DefaultPrevented
| TimerSet (delay : nat) (cb : callback)
| FrameRequested (cb : callback)
| ListenerAdded (t : eventTarget) (type : string) (h : handler).

Record options := mkOptions {
  menuItemsJson : list MenuItem;
  openStatusClass : string;
  openStatusBodyClass : string;
  openStatusBodyClassOverflow : string;
  openCardStatusClass : string;
  names : classNames;
  animationOpenStatusClass : string;
  animationCloseStatusClass : string;
  menuCardClass : string;
  animationDuration : nat;
  loadOnOpen : bool;
  startOnHome : bool;
  scrollHelper : bool
}.

Definition defaults : options :=
  {| menuItemsJson := [];
     openStatusClass := "open";
     openStatusBodyClass := "slide-open";
     openStatusBodyClassOverflow := "slide-open-overflow";
     openCardStatusClass := "show";
     names := defaultClassNames;
     animationOpenStatusClass := "opening";
     animationCloseStatusClass := "closing";
     menuCardClass := "js-slide-nav-card";
     animationDuration := 500;
     loadOnOpen := true;
     startOnHome := false;
     scrollHelper := true |}.

(** The fields the controller writes into [this.settings] after
    construction. *)
Record controller := mkController {
  isLoaded : bool;
  loadedTemplates : templates;
  menuWrap : option node;                 (* $menuWrap *)
  cards : list node;                      (* $cards *)
  activeCards : list node;                (* $activeCards *)
  openCard : option node                  (* $openCard; null and undefined are [None] *)
}.

Record page := mkPage {
  opts : options;
  toggle : node;                          (* this.$element *)
  menu : option node;                     (* settings.$menu *)
  positionReference : option node;
  bodyNode : node;
  scrollHelperNode : option node;         (* body.querySelector('.no-scroll-helper') *)
  scrollInnerNode : option node;
  templateParts : string → option text;   (* innerHTML of the <template> with data-type *)
  parseHtml : text → structure * (node → option element);
  view : viewport;
  ctl : controller;
  els : node → element;
  tree : structure;
  scrollTop : Z;
  listeners : list (eventTarget * string * handler);
  timers : list (nat * callback);
  frames : list callback;
  log : list effect
}.

Definition set_ctl (f : controller → controller) (p : page) : page :=
  mkPage (opts p) (toggle p) (menu p) (positionReference p) (bodyNode p)
    (scrollHelperNode p) (scrollInnerNode p) (templateParts p) (parseHtml p) (view p)
    (f (ctl p)) (els p) (tree p) (scrollTop p) (listeners p) (timers p) (frames p) (log p).

Definition set_els (f : (node → element) → node → element) (p : page) : page :=
  mkPage (opts p) (toggle p) (menu p) (positionReference p) (bodyNode p)
    (scrollHelperNode p) (scrollInnerNode p) (templateParts p) (parseHtml p) (view p)
    (ctl p) (f (els p)) (tree p) (scrollTop p) (listeners p) (timers p) (frames p) (log p).

Definition set_tree (t : structure) (p : page) : page :=
  mkPage (opts p) (toggle p) (menu p) (positionReference p) (bodyNode p)
    (scrollHelperNode p) (scrollInnerNode p) (templateParts p) (parseHtml p) (view p)
    (ctl p) (els p) t (scrollTop p) (listeners p) (timers p) (frames p) (log p).

Definition set_scrollTop (z : Z) (p : page) : page :=
  mkPage (opts p) (toggle p) (menu p) (positionReference p) (bodyNode p)
    (scrollHelperNode p) (scrollInnerNode p) (templateParts p) (parseHtml p) (view p)
    (ctl p) (els p) (tree p) z (listeners p) (timers p) (frames p) (log p).

Definition set_listeners (l : list (eventTarget * string * handler)) (p : page) : page :=
  mkPage (opts p) (toggle p) (menu p) (positionReference p) (bodyNode p)
    (scrollHelperNode p) (scrollInnerNode p) (templateParts p) (parseHtml p) (view p)
    (ctl p) (els p) (tree p) (scrollTop p) l (timers p) (frames p) (log p).

Definition set_timers (l : list (nat * callback)) (p : page) : page :=
  mkPage (opts p) (toggle p) (menu p) (positionReference p) (bodyNode p)
    (scrollHelperNode p) (scrollInnerNode p) (templateParts p) (parseHtml p) (view p)
    (ctl p) (els p) (tree p) (scrollTop p) (listeners p) l (frames p) (log p).

Definition set_frames (l : list callback) (p : page) : page :=
  mkPage (opts p) (toggle p) (menu p) (positionReference p) (bodyNode p)
    (scrollHelperNode p) (scrollInnerNode p) (templateParts p) (parseHtml p) (view p)
    (ctl p) (els p) (tree p) (scrollTop p) (listeners p) (timers p) l (log p).

Definition emit (e : effect) (p : page) : page :=
  mkPage (opts p) (toggle p) (menu p) (positionReference p) (bodyNode p)
    (scrollHelperNode p) (scrollInnerNode p) (templateParts p) (parseHtml p) (view p)
    (ctl p) (els p) (tree p) (scrollTop p) (listeners p) (timers p) (frames p)
    (log p ++ [e]).

(** ** Methods as state transformers

    A method takes the page to an outcome and the page it leaves
    behind; after a [Throw] the writes made so far stay. *)

Definition M (A : Type) : Type := page → result A * page.

Definition ret {A} (a : A) : M A := λ p, (Ok a, p).
Definition throw {A} (e : exn) : M A := λ p, (Throw e, p).
Definition bind {A B} (m : M A) (k : A → M B) : M B :=
  λ p, match m p with
       | (Ok a, p') => k a p'
       | (Throw e, p') => (Throw e, p')
       end.
Definition get : M page := λ p, (Ok p, p).
Definition modify (f : page → page) : M unit := λ p, (Ok tt, f p).

Notation "'let*' x ':=' m 'in' k" := (bind m (λ x, k))
  (at level 10, x name, m at level 100, k at level 200).
Notation "m '>>' k" := (bind m (λ _, k))
  (at level 100, k at level 200, right associativity).

Fixpoint forEach {A} (f : A → M unit) (l : list A) : M unit :=
  match l with
  | [] => ret tt
  | x :: r => f x >> forEach f r
  end.

(** Dereferencing [null] or [undefined]. *)
Definition deref {A} (o : option A) : M A :=
  match o with
  | Some a => ret a
  | None => throw TypeError
  end.

(** ** DOM primitives *)

#[global] Instance eventTarget_eq_dec : EqDecision eventTarget.
Proof. solve_decision. Defined.

#[global] Instance handler_eq_dec : EqDecision handler.
Proof. solve_decision. Defined.

Definition upd (n : node) (f : element → element) (e : node → element)
    : node → element :=
  λ m, if decide (m = n) then f (e m) else e m.

Definition with_classList (l : list string) (e : element) : element :=
  mkElement l (attributes e) (style e).
Definition with_attributes (a : gmap string string) (e : element) : element :=
  mkElement (classList e) a (style e).
Definition with_style (st : gmap string string) (e : element) : element :=
  mkElement (classList e) (attributes e) st.

Definition has_class (p : page) (n : node) (token : string) : bool :=
  bool_decide (token ∈ classList (els p n)).

(** ASCII white space: tab, line feed, form feed, carriage return, space. *)
Definition is_space (c : ascii) : bool :=
  let n := nat_of_ascii c in
  (n =? 9) || (n =? 10) || (n =? 12) || (n =? 13) || (n =? 32).

(** [DOMTokenList.add] and [.remove] validate every token before they
    change anything. *)
Definition check_token (token : string) : option exn :=
  if bool_decide (token = "") then Some SyntaxError
  else if existsb is_space (list_ascii_of_string token) then Some InvalidCharacterError
  else None.

Fixpoint check_tokens (tokens : list string) : option exn :=
  match tokens with
  | [] => None
  | t :: r => match check_token t with
              | Some e => Some e
              | None => check_tokens r
              end
  end.

Definition add_token (l : list string) (token : string) : list string :=
  if bool_decide (token ∈ l) then l else l ++ [token].

Definition remove_tokens (tokens l : list string) : list string :=
  filter (λ t, t ∉ tokens) l.

Definition classList_add (n : node) (tokens : list string) : M unit :=
  match check_tokens tokens with
  | Some e => throw e
  | None =>
      modify (λ p, emit (ClassesAdded n tokens)
        (set_els (upd n (λ e, with_classList (foldl add_token (classList e) tokens) e)) p))
  end.

Definition classList_remove (n : node) (tokens : list string) : M unit :=
  match check_tokens tokens with
  | Some e => throw e
  | None =>
      modify (λ p, emit (ClassesRemoved n tokens)
        (set_els (upd n (λ e, with_classList (remove_tokens tokens (classList e)) e)) p))
  end.

Definition getAttribute (p : page) (n : node) (name : string) : option string :=
  attributes (els p n) !! name.

Definition setAttribute (n : node) (name value : string) : M unit :=
  modify (λ p, emit (AttributeSet n name value)
    (set_els (upd n (λ e, with_attributes (<[name := value]> (attributes e)) e)) p)).

(** [removeAttribute('style')] also drops the inline declarations. *)
Definition removeAttribute (n : node) (name : string) : M unit :=
  modify (λ p, emit (AttributeRemoved n name)
    (set_els (upd n (λ e,
       with_style (if bool_decide (name = "style") then ∅ else style e)
         (with_attributes (delete name (attributes e)) e))) p)).

Definition setStyle (n : node) (property value : string) : M unit :=
  modify (λ p, emit (StyleSet n property value)
    (set_els (upd n (λ e, with_style (<[property := value]> (style e)) e)) p)).

(** [el.style.cssText = ...] replaces all inline declarations. *)
Definition setCssText (n : node) (decls : list (string * string)) : M unit :=
  modify (set_els (upd n (with_style ∅))) >>
  forEach (λ d, setStyle n d.1 d.2) decls.

Definition dispatchEvent (event : string) : M unit :=
  modify (emit (Dispatched event)).

Definition warn (message : string) : M unit :=
  modify (emit (Warned message)).

Definition preventDefault : M unit := modify (emit DefaultPrevented).

Definition setTimeout (cb : callback) (delay : nat) : M unit :=
  modify (λ p, emit (TimerSet delay cb) (set_timers (timers p ++ [(delay, cb)]) p)).

Definition requestAnimationFrame (cb : callback) : M unit :=
  modify (λ p, emit (FrameRequested cb) (set_frames (frames p ++ [cb]) p)).

(** A listener that is already registered is not registered again. *)
Definition addEventListener (t : eventTarget) (type : string) (h : handler) : M unit :=
  modify (λ p, if bool_decide ((t, type, h) ∈ listeners p) then p
               else emit (ListenerAdded t type h)
                      (set_listeners (listeners p ++ [(t, type, h)]) p)).

Definition scrollTo (top : Z) : M unit :=
  modify (λ p, emit (ScrolledTo top) (set_scrollTop top p)).

Definition assignInnerHtml (html : text) : M unit :=
  modify (λ p, let parsed := parseHtml p html in
               emit (HtmlAssigned html)
                 (set_tree parsed.1
                    (set_els (λ e n, default (e n) (parsed.2 n)) p))).

(** Numbers in strings. *)
Definition string_of_nat (n : nat) : string := NilEmpty.string_of_uint (Nat.to_uint n).
Definition string_of_Z (z : Z) : string := NilEmpty.string_of_int (Z.to_int z).

Definition digit_of (c : ascii) : option Z :=
  let n := nat_of_ascii c in
  if (48 <=? n) && (n <=? 57) then Some (Z.of_nat (n - 48)) else None.

Definition hex_digit_of (c : ascii) : option Z :=
  let n := nat_of_ascii c in
  if (48 <=? n) && (n <=? 57) then Some (Z.of_nat (n - 48))
  else if (65 <=? n) && (n <=? 70) then Some (Z.of_nat (n - 55))
  else if (97 <=? n) && (n <=? 102) then Some (Z.of_nat (n - 87))
  else None.

(** The longest run of digits of the radix; [None] when there is none. *)
Fixpoint parse_digits (radix : Z) (digit : ascii → option Z) (acc : option Z)
    (s : list ascii) : option Z :=
  match s with
  | c :: r =>
      match digit c with
      | Some d => parse_digits radix digit (Some (radix * default 0%Z acc + d)%Z) r
      | None => acc
      end
  | [] => acc
  end.

Fixpoint skip_spaces (s : list ascii) : list ascii :=
  match s with
  | c :: r => if is_space c then skip_spaces r else s
  | [] => []
  end.

(** The digits of [parseInt] without a radix argument: hexadecimal
    after a prefix [0x] or [0X], decimal otherwise. *)
Definition parse_magnitude (s : list ascii) : option Z :=
  match s with
  | z :: x :: r =>
      if Ascii.eqb z "0" && (Ascii.eqb x "x" || Ascii.eqb x "X")
      then parse_digits 16 hex_digit_of None r
      else parse_digits 10 digit_of None s
  | _ => parse_digits 10 digit_of None s
  end.

(** [parseInt(s)]: leading white space, a sign, the prefix of a
    hexadecimal number, the longest run of digits; [None] is [NaN]. *)
Definition parseInt (s : string) : option Z :=
  match skip_spaces (list_ascii_of_string s) with
  | c :: r =>
      if Ascii.eqb c "-" then Z.opp <$> parse_magnitude r
      else if Ascii.eqb c "+" then parse_magnitude r
      else parse_magnitude (c :: r)
  | [] => None
  end.

(** ** The controller *)

Definition with_templates (tp : templates) (c : controller) : controller :=
  mkController (isLoaded c) tp (menuWrap c) (cards c) (activeCards c) (openCard c).
Definition with_cached (wrap : option node) (cs : list node) (c : controller)
    : controller :=
  mkController (isLoaded c) (loadedTemplates c) wrap cs (activeCards c) (openCard c).
Definition with_activeCards (l : list node) (c : controller) : controller :=
  mkController (isLoaded c) (loadedTemplates c) (menuWrap c) (cards c) l (openCard c).
Definition with_isLoaded (b : bool) (c : controller) : controller :=
  mkController b (loadedTemplates c) (menuWrap c) (cards c) (activeCards c) (openCard c).
Definition with_openCard (o : option node) (c : controller) : controller :=
  mkController (isLoaded c) (loadedTemplates c) (menuWrap c) (cards c) (activeCards c) o.

(** The fields set by the constructor. *)
Definition newController : controller :=
  {| isLoaded := false;
     loadedTemplates := mkTemplates [] [] [];
     menuWrap := None; cards := []; activeCards := []; openCard := None |}.

Definition bindInitialEvents : M unit :=
  let* p := get in
  addEventListener (OnNode (toggle p)) "click" toggleEventH >>
  addEventListener (OnNode (toggle p)) "keydown" keyboardEventH >>
  addEventListener OnDocument "madj2k-slidemenu-close" closeEventH.

Definition bindEvents : M unit :=
  let* p := get in
  forEach (λ el, addEventListener (OnNode el) "click" previousCardEventH)
    (backToggles (tree p)) >>
  forEach (λ el, addEventListener (OnNode el) "click" nextCardEventH >>
                 addEventListener (OnNode el) "keydown" keyboardEventH)
    (nextToggles (tree p)) >>
  forEach (λ el, addEventListener (OnNode el) "keydown" keyboardEventH)
    (focusables (tree p)) >>
  addEventListener OnWindow "resize" resizeCardsEventH >>
  addEventListener OnWindow "resize" positionMenuEventH.

(** The part of [loadMenu] under [if (this.settings.menuItemsJson.length)]:
    read the templates and, when all three are there, build the markup. *)
Definition renderMenu : M unit :=
  let* p := get in
  if is_empty (menuItemsJson (opts p)) then ret tt
  else
    let tp := {| menuWrapTemplate := default [] (templateParts p "menuWrap");
                 menuItemTemplate := default [] (templateParts p "menuItem");
                 subMenuWrapTemplate := default [] (templateParts p "subMenuWrap") |} in
    modify (set_ctl (with_templates tp)) >>
    if negb (is_empty (menuWrapTemplate tp)) && negb (is_empty (menuItemTemplate tp))
       && negb (is_empty (subMenuWrapTemplate tp))
    then
      match buildHtml (names (opts p)) tp (menuItemsJson (opts p)) None 0 with
      | Ok html => assignInnerHtml html
      | Throw e => throw e
      end
    else ret tt.

Definition loadMenu : M bool :=
  let* p := get in
  if isLoaded (ctl p) then ret true
  else
    match menu p with
    | None => warn "Menu container not found. Can not load menu." >> ret false
    | Some _ =>
        renderMenu >>
        let* p := get in
        modify (set_ctl (with_cached (wrapNode (tree p)) (cardNodes (tree p)))) >>
        match cardNodes (tree p) with
        | first :: _ => classList_add first [activeStatusClass (names (opts p))]
        | [] => ret tt
        end >>
        let* p := get in
        modify (set_ctl (with_activeCards
          (filter (λ n, has_class p n (activeStatusClass (names (opts p))) = true)
             (cardNodes (tree p))))) >>
        let* p := get in
        let* wrap := deref (menuWrap (ctl p)) in
        setStyle wrap "top" "-100%" >>
        modify (set_ctl (with_isLoaded true)) >>
        bindEvents >>
        ret true
    end.

Definition disableTabIndexOnAllCards : M unit :=
  let* p := get in
  let* _ := deref (menu p) in
  forEach (λ el, setAttribute el "tabindex" "-1") (focusables (tree p)).

Definition toggleTabIndexOnOpenCard : M unit :=
  disableTabIndexOnAllCards >>
  let* p := get in
  if negb (has_class p (toggle p) (openStatusClass (opts p))) then ret tt
  else
    let* card := deref (openCard (ctl p)) in
    forEach (λ el,
        if (0 <? rectLeft (view p) el)%Z && (rectLeft (view p) el <=? innerWidth (view p))%Z
        then removeAttribute el "tabindex" else ret tt)
      (focusablesIn (tree p) card).

Definition toggleWaiAriaForOpenCard : M unit :=
  let* p := get in
  let* _ := deref (menu p) in
  forEach (λ el, setAttribute el "aria-expanded" "false") (nextToggles (tree p)) >>
  let* p := get in
  if has_class p (toggle p) (openStatusClass (opts p)) then
    let* card := deref (openCard (ctl p)) in
    let id := default "" (getAttribute p card "id") in
    match list_find (λ el, getAttribute p el "aria-controls" = Some id)
            (nextToggles (tree p)) with
    | Some (_, el) => setAttribute el "aria-expanded" "true"
    | None => ret tt
    end
  else ret tt.

Definition focusFirstItemOfOpenCard (timeout : nat) : M unit :=
  let* p := get in
  match openCard (ctl p) with
  | None => ret tt
  | Some card =>
      match list_find (λ el, getAttribute p el "tabindex" = None)
              (focusablesIn (tree p) card) with
      | Some (_, el) => setTimeout (FocusNode el) timeout
      | None => ret tt
      end
  end.

Definition setOpenCard (card : option node) : M unit :=
  modify (set_ctl (with_openCard card)) >>
  let* p := get in
  forEach (λ c, classList_remove c [openCardStatusClass (opts p)]) (cards (ctl p)) >>
  let* c := deref card in
  classList_add c [openCardStatusClass (opts p)].

Definition changeOpenCard (card : option node) : M unit :=
  setOpenCard card >>
  toggleTabIndexOnOpenCard >>
  toggleWaiAriaForOpenCard >>
  focusFirstItemOfOpenCard 0.

Definition px (z : Z) : string := string_of_Z z +:+ "px".

Definition resizeCards : M unit :=
  let* p := get in
  let ref := default (toggle p) (positionReference p) in
  let height := (innerHeight (view p) - rectBottom (view p) ref)%Z in
  forEach (λ card, setStyle card "height" (px height)) (cards (ctl p)).

Definition repositionCards : M unit :=
  let* p := get in
  forEach (λ card, setStyle card "transition" "none" >> setStyle card "left" "100%")
    (cards (ctl p)) >>
  match openCard (ctl p) with
  | Some card => setStyle card "left" "0"
  | None => ret tt
  end >>
  let* card := deref (openCard (ctl p)) in
  let* p := get in
  forEach (λ parent,
      if has_class p parent (menuCardClass (opts p)) then setStyle parent "left" "0"
      else ret tt)
    (ancestorsOf (tree p) card).

Definition positionMenu : M unit :=
  let* p := get in
  let ref := default (toggle p) (positionReference p) in
  let* m := deref (menu p) in
  setStyle m "top" (px (rectBottom (view p) ref)).

Definition set_opt_style (el : node) (property : string) (v : option string) : M unit :=
  match v with
  | Some x => setStyle el property x
  | None => ret tt
  end.

Definition animateElement (el : option node) (from_left from_top to_left to_top : option string)
    : M unit :=
  let* p := get in
  let* el := deref el in
  setStyle el "transition" "none" >>
  set_opt_style el "left" from_left >>
  set_opt_style el "top" from_top >>
  setStyle el "transition"
    ("all " +:+ string_of_nat (animationDuration (opts p)) +:+ "ms ease") >>
  requestAnimationFrame (AnimateTo el to_left to_top).

Definition toggleNoScroll : M unit :=
  let* p := get in
  if scrollHelper (opts p) then
    let noScrollClass :=
      if (innerHeight (view p) <? scrollHeight (view p))%Z
      then openStatusBodyClassOverflow (opts p) else "" in
    if negb (has_class p (bodyNode p) (openStatusBodyClass (opts p))) then
      let top := (- scrollTop p)%Z in
      let* helper := deref (scrollHelperNode p) in
      setAttribute helper "data-scroll-top" (string_of_Z top) >>
      setCssText helper [ ("position", "relative"); ("overflow", "hidden");
                          ("height", "100vh"); ("width", "100%") ] >>
      let* inner := deref (scrollInnerNode p) in
      setCssText inner [ ("position", "absolute"); ("top", px top);
                         ("height", "100%"); ("width", "100%") ] >>
      classList_add (bodyNode p) [noScrollClass] >>
      scrollTo 0
    else
      let* helper := deref (scrollHelperNode p) in
      let stored :=
        match getAttribute p helper "data-scroll-top" with
        | Some "" | None => "0"
        | Some v => v
        end in
      let top := default 0%Z (Z.opp <$> parseInt stored) in
      removeAttribute helper "style" >>
      let* inner := deref (scrollInnerNode p) in
      removeAttribute inner "style" >>
      classList_remove (bodyNode p) [openStatusBodyClassOverflow (opts p)] >>
      scrollTo top
  else ret tt.

(** [$activeCards[startOnHome ? 0 : $activeCards.length - 1]]; an index
    out of range, [-1] included, reads [undefined]. *)
Definition initialCard (p : page) : option node :=
  let l := activeCards (ctl p) in
  if startOnHome (opts p) then l !! 0
  else match length l with
       | 0 => None
       | S k => l !! k
       end.

Definition open : M bool :=
  let* loaded := loadMenu in
  if negb loaded then ret false
  else
    let* p := get in
    let* m := deref (menu p) in
    if has_class p m (openStatusClass (opts p))
       || has_class p m (animationOpenStatusClass (opts p))
    then ret false
    else
      dispatchEvent "madj2k-flyoutmenu-close" >>
      dispatchEvent "madj2k-slidemenu-opening" >>
      toggleNoScroll >>
      disableTabIndexOnAllCards >>
      positionMenu >>
      classList_add m [openStatusClass (opts p); animationOpenStatusClass (opts p)] >>
      classList_add (toggle p)
        [openStatusClass (opts p); animationOpenStatusClass (opts p)] >>
      setAttribute (toggle p) "aria-expanded" "true" >>
      let* p := get in
      setOpenCard (initialCard p) >>
      resizeCards >>
      repositionCards >>
      animateElement (menuWrap (ctl p)) None (Some "-100%") None (Some "0") >>
      setTimeout OpenDone (animationDuration (opts p)) >>
      ret true.

Definition close : M bool :=
  let* p := get in
  let* m := deref (menu p) in
  if negb (has_class p m (openStatusClass (opts p)))
     || has_class p m (animationCloseStatusClass (opts p))
  then ret false
  else
    dispatchEvent "madj2k-slidemenu-closing" >>
    classList_add m [animationCloseStatusClass (opts p)] >>
    classList_add (toggle p) [animationCloseStatusClass (opts p)] >>
    classList_remove (toggle p) [openStatusClass (opts p)] >>
    setAttribute (toggle p) "aria-expanded" "false" >>
    toggleTabIndexOnOpenCard >>
    toggleWaiAriaForOpenCard >>
    animateElement (menuWrap (ctl p)) None (Some "0") None (Some "-100%") >>
    setTimeout CloseDone (animationDuration (opts p)) >>
    ret true.

Definition toggleEvent : M unit :=
  preventDefault >>
  let* opened := open in
  if negb opened then close >> ret tt else ret tt.

Definition closeEvent : M unit :=
  preventDefault >> close >> ret tt.

(** [document.getElementById(el.getAttribute(name))]: a missing
    attribute is looked up as the id ["null"]. *)
Definition elementByAttribute (p : page) (el : node) (name : string) : option node :=
  byId (tree p) (default "null" (getAttribute p el name)).

(** [document.getElementById(el.dataset.parentCard)]: a missing data
    attribute is looked up as the id ["undefined"]. *)
Definition elementByParentCard (p : page) (el : node) : option node :=
  byId (tree p) (default "undefined" (getAttribute p el "data-parent-card")).

Definition previousCardEvent (currentTarget : node) : M unit :=
  preventDefault >>
  let* p := get in
  match elementByAttribute p currentTarget "aria-controls",
        elementByParentCard p currentTarget with
  | Some controlledCard, Some parentCard =>
      disableTabIndexOnAllCards >>
      classList_add controlledCard [animationCloseStatusClass (opts p)] >>
      animateElement (Some controlledCard) (Some "0") None (Some "100%") None >>
      setTimeout (PreviousDone parentCard controlledCard) (animationDuration (opts p))
  | _, _ => ret tt
  end.

Definition nextCardEvent (currentTarget : node) : M unit :=
  preventDefault >>
  let* p := get in
  match elementByAttribute p currentTarget "aria-controls" with
  | Some controlledCard =>
      disableTabIndexOnAllCards >>
      classList_add controlledCard [animationOpenStatusClass (opts p)] >>
      animateElement (Some controlledCard) (Some "100%") None (Some "0") None >>
      setTimeout (NextDone controlledCard) (animationDuration (opts p))
  | None => ret tt
  end.

(** The deferred bodies. *)
Definition run_callback (cb : callback) : M unit :=
  match cb with
  | OpenDone =>
      let* p := get in
      let* m := deref (menu p) in
      classList_remove m [animationOpenStatusClass (opts p)] >>
      classList_remove (toggle p) [animationOpenStatusClass (opts p)] >>
      toggleTabIndexOnOpenCard >>
      toggleWaiAriaForOpenCard >>
      focusFirstItemOfOpenCard 0 >>
      dispatchEvent "madj2k-slidemenu-opened"
  | CloseDone =>
      let* p := get in
      let* m := deref (menu p) in
      classList_remove m [openStatusClass (opts p); animationCloseStatusClass (opts p)] >>
      classList_remove (toggle p) [animationCloseStatusClass (opts p)] >>
      toggleNoScroll >>
      dispatchEvent "madj2k-slidemenu-closed"
  | PreviousDone parentCard controlledCard =>
      let* p := get in
      changeOpenCard (Some parentCard) >>
      classList_remove controlledCard [animationCloseStatusClass (opts p)] >>
      dispatchEvent "madj2k-slidemenu-previous-opened"
  | NextDone controlledCard =>
      let* p := get in
      changeOpenCard (Some controlledCard) >>
      classList_remove controlledCard [animationOpenStatusClass (opts p)] >>
      dispatchEvent "madj2k-slidemenu-next-opened"
  | FocusNode n => modify (emit (Focused n))
  | AnimateTo el toLeft toTop =>
      set_opt_style el "left" toLeft >> set_opt_style el "top" toTop
  end.

(** Observations used in the statements. *)
Definition outcome {A} (m : M A) (p : page) : result A := (m p).1.
Definition after {A} (m : M A) (p : page) : page := (m p).2.

Definition attribute_of (p : page) (n : node) (name : string) : option string :=
  attributes (els p n) !! name.

(** The effects a call appends to the log. *)
Definition effects_of {A} (m : M A) (p : page) : list effect :=
  drop (length (log p)) (log (after m p)).

(** ** A sample page

    Toggle 0, menu 1, body 2, scroll helper 3 and 4; the generated
    markup has the container 5, the cards 10 (root), 11 and 12 (both on
    the active path), a next toggle 20 for card 11, a back button 21 and
    a link 22. *)

Definition emptyElement : element := mkElement [] ∅ ∅.

Definition sampleStructure (html : text) : structure :=
  {| menuHtml := html;
     wrapNode := Some 5;
     cardNodes := [10; 11; 12];
     nextToggles := [20];
     backToggles := [21];
     focusables := [20; 21; 22];
     focusablesIn := λ n, if decide (n = 10) then [20; 21; 22]
                          else if decide (n = 11) then [21; 22] else [];
     ancestorsOf := λ n, if decide (n = 12) then [11; 10; 5; 1]
                         else if decide (n = 11) then [10; 5; 1]
                         else if decide (n = 10) then [5; 1] else [];
     byId := λ i, if decide (i = "slide-card-1") then Some 10
                  else if decide (i = "slide-card-2") then Some 11
                  else if decide (i = "slide-card-3") then Some 12 else None |}%string.

Definition sampleParsed (n : node) : option element :=
  if decide (n = 10) then
    Some (mkElement ["js-slide-nav-card"; "level-1"] {[ "id" := "slide-card-1" ]} ∅)
  else if decide (n = 11) then
    Some (mkElement ["js-slide-nav-card"; "active"; "level-2"] {[ "id" := "slide-card-2" ]} ∅)
  else if decide (n = 12) then
    Some (mkElement ["js-slide-nav-card"; "active"; "level-3"] {[ "id" := "slide-card-3" ]} ∅)
  else if decide (n = 20) then
    Some (mkElement ["js-slide-nav-next"] {[ "aria-controls" := "slide-card-2" ]} ∅)
  else if decide (n = 21) then
    Some (mkElement ["js-slide-nav-back"]
            (<[ "aria-controls" := "slide-card-2" ]> {[ "data-parent-card" := "slide-card-1" ]}) ∅)
  else if decide (n = 22) then Some emptyElement
  else if decide (n = 5) then Some (mkElement ["js-slide-nav-container"] ∅ ∅)
  else None.

Definition sampleView : viewport :=
  {| innerWidth := 400; innerHeight := 800; scrollHeight := 2000;
     rectLeft := λ _, 10%Z; rectBottom := λ _, 50%Z |}.

Definition with_menuItems (items : list MenuItem) (o : options) : options :=
  mkOptions items (openStatusClass o) (openStatusBodyClass o)
    (openStatusBodyClassOverflow o) (openCardStatusClass o) (names o)
    (animationOpenStatusClass o) (animationCloseStatusClass o) (menuCardClass o)
    (animationDuration o) (loadOnOpen o) (startOnHome o) (scrollHelper o).

Definition with_startOnHome (b : bool) (o : options) : options :=
  mkOptions (menuItemsJson o) (openStatusClass o) (openStatusBodyClass o)
    (openStatusBodyClassOverflow o) (openCardStatusClass o) (names o)
    (animationOpenStatusClass o) (animationCloseStatusClass o) (menuCardClass o)
    (animationDuration o) (loadOnOpen o) b (scrollHelper o).

(** A page as the constructor leaves it. *)
Definition samplePage : page :=
  {| opts := with_menuItems sampleMenu defaults;
     toggle := 0; menu := Some 1; positionReference := None; bodyNode := 2;
     scrollHelperNode := Some 3; scrollInnerNode := Some 4;
     templateParts := λ t,
       if decide (t = "menuWrap") then Some (menuWrapTemplate plainTemplates)
       else if decide (t = "menuItem") then Some (menuItemTemplate plainTemplates)
       else if decide (t = "subMenuWrap") then Some (subMenuWrapTemplate plainTemplates)
       else None;
     parseHtml := λ html, (sampleStructure html, sampleParsed);
     view := sampleView;
     ctl := newController;
     els := λ _, emptyElement;
     tree := mkStructure [] None [] [] [] [] (λ _, []) (λ _, []) (λ _, None);
     scrollTop := 120;
     listeners := [ (OnNode 0, "click", toggleEventH); (OnNode 0, "keydown", keyboardEventH);
                    (OnDocument, "madj2k-slidemenu-close", closeEventH) ]%string;
     timers := []; frames := []; log := [] |}%string.

Definition with_menu (m : option node) (p : page) : page :=
  mkPage (opts p) (toggle p) m (positionReference p) (bodyNode p)
    (scrollHelperNode p) (scrollInnerNode p) (templateParts p) (parseHtml p) (view p)
    (ctl p) (els p) (tree p) (scrollTop p) (listeners p) (timers p) (frames p) (log p).

Definition with_opts (o : options) (p : page) : page :=
  mkPage o (toggle p) (menu p) (positionReference p) (bodyNode p)
    (scrollHelperNode p) (scrollInnerNode p) (templateParts p) (parseHtml p) (view p)
    (ctl p) (els p) (tree p) (scrollTop p) (listeners p) (timers p) (frames p) (log p).

Definition with_view (v : viewport) (p : page) : page :=
  mkPage (opts p) (toggle p) (menu p) (positionReference p) (bodyNode p)
    (scrollHelperNode p) (scrollInnerNode p) (templateParts p) (parseHtml p) v
    (ctl p) (els p) (tree p) (scrollTop p) (listeners p) (timers p) (frames p) (log p).

(** The sample page with a menu element that carries the open class
    in its markup, before anything was loaded; and the sample page whose
    toggle refers to no element. *)
Definition preopenedPage : page :=
  set_els (upd 1 (with_classList ["open"%string])) samplePage.

Definition orphanPage : page := with_menu None samplePage.

(** ** What a call leaves unchanged *)

Definition preserves {A} (R : page → page → Prop) (m : M A) : Prop :=
  ∀ p, R p (after m p).

(** The fields no method writes. *)
Definition same_setup (p p' : page) : Prop :=
  opts p' = opts p ∧ toggle p' = toggle p ∧ menu p' = menu p ∧
  positionReference p' = positionReference p ∧ bodyNode p' = bodyNode p ∧
  scrollHelperNode p' = scrollHelperNode p ∧ scrollInnerNode p' = scrollInnerNode p ∧
  templateParts p' = templateParts p ∧ parseHtml p' = parseHtml p ∧ view p' = view p.

Definition same_ctl (p p' : page) : Prop := ctl p' = ctl p.

Definition same_tree (p p' : page) : Prop := tree p' = tree p.

Definition same_classes (p p' : page) : Prop :=
  ∀ n, classList (els p' n) = classList (els p n).

Definition log_grows (p p' : page) : Prop := log p `prefix_of` log p'.

(** Exactly the card recorded as [$openCard] carries the open-card
    class, among the cards of the collection. *)
Definition one_open_card (p : page) : Prop :=
  ∀ c, c ∈ cards (ctl p) →
       (has_class p c (openCardStatusClass (opts p)) = true ↔ openCard (ctl p) = Some c).

(** Exactly one card of the collection carries the open-card class:
    [c], the card recorded as [$openCard]. *)
Definition exactly_open (p : page) (c : node) : Prop :=
  c ∈ cards (ctl p) ∧ openCard (ctl p) = Some c ∧
  ∀ x, x ∈ cards (ctl p) →
       (has_class p x (openCardStatusClass (opts p)) = true ↔ x = c).

(** The call appends to the log, and only effects that satisfy [P]. *)
Definition log_only (P : effect → Prop) (p p' : page) : Prop :=
  ∃ l, log p' = log p ++ l ∧ Forall P l.

(** The sample page after [open], its timer and [close], at the moment
    the close timer fires on a document that no longer overflows the
    window. *)
Definition closingPage : page :=
  after close (after (run_callback OpenDone) (after open samplePage)).

Definition shortView : viewport :=
  {| innerWidth := 400; innerHeight := 800; scrollHeight := 800;
     rectLeft := λ _, 10%Z; rectBottom := λ _, 50%Z |}.

Definition closingShortPage : page := with_view shortView closingPage.

(** The loaded sample page with a markup slip: the next toggle 20 names
    the link 22, which has the id ["top"], in [aria-controls]. *)
Definition strayPage : page :=
  let p := after loadMenu samplePage in
  let t := tree p in
  set_tree
    (mkStructure (menuHtml t) (wrapNode t) (cardNodes t) (nextToggles t) (backToggles t)
       (focusables t) (focusablesIn t) (ancestorsOf t)
       (λ i, if decide (i = "top"%string) then Some 22 else byId t i))
    (set_els (upd 22 (with_attributes {[ "id" := "top" ]}))
       (set_els (upd 20 (with_attributes {[ "aria-controls" := "top" ]})) p))%string.

(** Effects that dispatch nothing and add classes, if at all, to the
    element [b]. *)
Definition quiet_except_classes_of (b : node) (e : effect) : Prop :=
  match e with
  | Dispatched _ => False
  | ClassesAdded n _ => n = b
  | _ => True
  end.

Definition not_event (event : string) (e : effect) : Prop :=
  e ≠ Dispatched event.

(** An attribute that has the value [value] keeps it. *)
Definition keeps_attribute (n : node) (name value : string) (p p' : page) : Prop :=
  attribute_of p n name = Some value → attribute_of p' n name = Some value.

(** The page when [close] has passed its guard and made its first
    five writes: the closing event, the closing class on menu and
    toggle, the open class off the toggle, [aria-expanded="false"]. *)
Definition closeStarted (p : page) (m : node) : page :=
  emit (AttributeSet (toggle p) "aria-expanded" "false")
    (set_els (upd (toggle p) (λ e, with_attributes
                (<["aria-expanded" := "false"]> (attributes e)) e))
  (emit (ClassesRemoved (toggle p) [openStatusClass (opts p)])
    (set_els (upd (toggle p) (λ e, with_classList
                (remove_tokens [openStatusClass (opts p)] (classList e)) e))
  (emit (ClassesAdded (toggle p) [animationCloseStatusClass (opts p)])
    (set_els (upd (toggle p) (λ e, with_classList
                (add_token (classList e) (animationCloseStatusClass (opts p))) e))
  (emit (ClassesAdded m [animationCloseStatusClass (opts p)])
    (set_els (upd m (λ e, with_classList
                (add_token (classList e) (animationCloseStatusClass (opts p))) e))
  (emit (Dispatched "madj2k-slidemenu-closing") p)))))))).

(** The element store is untouched. *)
Definition same_els (p p' : page) : Prop := els p' = els p.

(** The pending timers and animation frames are untouched. *)
Definition same_queues (p p' : page) : Prop :=
  timers p' = timers p ∧ frames p' = frames p.

(** A class that is on an element stays on it. *)
Definition keeps_class (n : node) (token : string) (p p' : page) : Prop :=
  has_class p n token = true → has_class p' n token = true.

(** No element gains, loses or changes the attribute [name]. *)
Definition same_attribute (name : string) (p p' : page) : Prop :=
  ∀ n, attributes (els p' n) !! name = attributes (els p n) !! name.

(** ** Keyboard handling *)

(** [el.focus()]. *)
Definition focus (n : node) : M unit := modify (emit (Focused n)).

Definition focusToggle (timeout : nat) : M unit :=
  let* p := get in
  setTimeout (FocusNode (toggle p)) timeout.

(** [el.closest('.' + menuCardClass)]: the element itself or its nearest
    ancestor that carries the card class. *)
Definition closestCard (p : page) (el : node) : option node :=
  snd <$> list_find (λ x, has_class p x (menuCardClass (opts p)) = true)
            (el :: ancestorsOf (tree p) el).

(** The elements the Tab key cycles through: the focusable elements
    below the open card that do not have [tabindex="-1"] and whose
    nearest card is the open card. *)
Definition tabbables (p : page) (card : node) : list node :=
  filter (λ el, closestCard p el = Some card)
    (filter (λ el, getAttribute p el "tabindex" ≠ Some "-1")
       (focusablesIn (tree p) card)).

(** [keyboardEvent(e)] with [e.key], [e.shiftKey], [e.target] and the
    value of [document.activeElement] when the handler runs. *)
Definition keyboardEvent (key : string) (shiftKey : bool) (element : node)
    (activeElement : option node) : M unit :=
  let* p := get in
  if decide (key = "ArrowUp") then
    if decide (element = toggle p) then close >> ret tt else ret tt
  else if decide (key = "ArrowDown") then
    if decide (element = toggle p) then preventDefault >> open >> ret tt else ret tt
  else if decide (key = "Escape") then
    preventDefault >> close >> focusToggle 0
  else if decide (key = "Tab") then
    match openCard (ctl p) with
    | None => ret tt
    | Some card =>
        match tabbables p card with
        | [] => ret tt
        | first :: rest =>
            let last := List.last rest first in
            if shiftKey && bool_decide (activeElement = Some first)
            then preventDefault >> focus last
            else if negb shiftKey && bool_decide (activeElement = Some last)
            then preventDefault >> focus first
            else ret tt
        end
    end
  else ret tt.

(** * Properties *)

Example replaceHtml_ex1 :
  replaceHtml (txt "<a href='%link%'>%title%</a>%nope% 100% %%x%")
    (<["link" := txt "/a"]> (<["title" := txt "T"]> ∅))
  = txt "<a href='/a'>T</a> 100% %".
Proof. vm_compute. reflexivity. Qed.

Example stripComments_ex1 :
  stripComments (txt "a<!-- x -->b<!---->c<!-->d-->e<!-- open")
  = txt "abce<!-- open".
Proof. vm_compute. reflexivity. Qed.

Example parseInt_ex1 :
  parseInt "  -120px" = Some (-120)%Z ∧ parseInt "0x1A" = Some 26%Z
  ∧ parseInt "08" = Some 8%Z ∧ parseInt "0x" = None ∧ parseInt "px" = None.
Proof. split_and!; vm_compute; reflexivity. Qed.

Lemma Ok_inj {A} (a b : A) : Ok a = Ok b → a = b.
Proof. by intros [= ->]. Qed.

(** ** The scan of [replaceHtml] *)

Section ReplaceScan.
Variable data : marker.


Lemma replace_scan_skip n s :
replace_scan data n s = replace_scan data 0 (drop n s).
Proof.
revert s; induction n as [|n IH]; intros s.
- by rewrite drop_0.
- destruct s as [|c r]; [done|]. simpl. apply IH.
Qed.

Lemma replaceHtml_copy c r :
  c ≠ pct → replaceHtml (c :: r) data = c :: replaceHtml r data.
Proof.
  intros Hc. unfold replaceHtml. simpl.
  destruct (Ascii.eqb_spec c pct); [done|reflexivity].
Qed.

Lemma replaceHtml_token key r :
  token_at r = Some key →
  replaceHtml (pct :: r) data
  = own_or_empty data (string_of_list_ascii key)
    ++ replaceHtml (drop (S (length key)) r) data.
Proof.
  intros Hk. unfold replaceHtml. simpl. rewrite Hk.
  by rewrite replace_scan_skip.
Qed.

Lemma replaceHtml_literal pre rest :
  pct ∉ pre → replaceHtml (pre ++ rest) data = pre ++ replaceHtml rest data.
Proof.
  induction pre as [|c pre IH]; intros Hpre; [done|].
  apply not_elem_of_cons in Hpre as [Hc Hpre].
  simpl. rewrite replaceHtml_copy by done. by rewrite IH.
Qed.
End ReplaceScan.

Lemma is_word_pct : is_word pct = false.
Proof. reflexivity. Qed.

Lemma word_run_app key rest :
  Forall (λ c, is_word c = true) key →
  word_run (key ++ pct :: rest) = key.
Proof.
  induction 1 as [|c key Hc _ IH]; simpl.
  - reflexivity.
  - by rewrite Hc, IH.
Qed.

Lemma token_at_app key rest :
  key ≠ [] → Forall (λ c, is_word c = true) key →
  token_at (key ++ pct :: rest) = Some key.
Proof.
  intros Hne Hw. unfold token_at. cbv zeta. rewrite word_run_app by done.
  rewrite drop_app_length. destruct key; [done|]. reflexivity.
Qed.

Lemma replaceHtml_placeholder data pre key rest :
  pct ∉ pre → key ≠ [] → Forall (λ c, is_word c = true) key →
  replaceHtml (pre ++ pct :: key ++ pct :: rest) data
  = pre ++ own_or_empty data (string_of_list_ascii key) ++ replaceHtml rest data.
Proof.
  intros Hpre Hne Hw. rewrite replaceHtml_literal by done.
  rewrite (replaceHtml_token data key) by (by apply token_at_app).
  do 2 f_equal.
  replace (S (length key)) with (length (key ++ [pct]))
    by (rewrite length_app; simpl; lia).
  by rewrite (cons_middle pct key rest), app_assoc, drop_app_length.
Qed.

(** ** The scan of [stripComments] *)

#[local] Arguments Ascii.eqb : simpl never.

(** Turn [starts_with p s = true], with [p] a literal, into equations
    on the leading characters of [s]. *)
Ltac starts_with_eqs E :=
  simpl in E;
  repeat (let E1 := fresh "E" in apply andb_prop in E as [E1 E];
          apply Ascii.eqb_eq in E1);
  first [discriminate E | clear E].

Lemma starts_with_app p r : starts_with p (p ++ r) = true.
Proof.
  induction p as [|a p IH]; simpl; [done|].
  by rewrite Ascii.eqb_refl, IH.
Qed.

Lemma starts_with_inv p s : starts_with p s = true → ∃ r, s = p ++ r.
Proof.
  revert s; induction p as [|a p IH]; intros s H.
  - by exists s.
  - destruct s as [|b s]; [done|]. simpl in H.
    apply andb_prop in H as [Hab Hp]. apply Ascii.eqb_eq in Hab as ->.
    destruct (IH _ Hp) as [r ->]. by exists r.
Qed.

Lemma strip_scan_skip n s : strip_scan n s = strip_scan 0 (drop n s).
Proof.
  revert s; induction n as [|n IH]; intros s.
  - by rewrite drop_0.
  - destruct s as [|c r]; [done|]. simpl. apply IH.
Qed.

Lemma stripComments_copy c r :
  comment_at (c :: r) = None → stripComments (c :: r) = c :: stripComments r.
Proof. intros H. unfold stripComments. simpl strip_scan. by rewrite H. Qed.

Lemma stripComments_match n s :
  comment_at s = Some n → stripComments s = stripComments (drop n s).
Proof.
  intros H. unfold stripComments. destruct s as [|c r].
  - by rewrite drop_nil.
  - simpl strip_scan. rewrite H. rewrite strip_scan_skip.
    unfold comment_at in H. destruct (starts_with cm_open (c :: r)); [|done].
    destruct (find_sub cm_close (drop 4 (c :: r))); [|done].
    injection H as <-. reflexivity.
Qed.

(** The closing marker is found where it first occurs. *)
Lemma find_sub_close b rest :
  (∀ b1 b2, b ++ txt "--" ≠ b1 ++ cm_close ++ b2) →
  find_sub cm_close (b ++ cm_close ++ rest) = Some (length b).
Proof.
  induction b as [|c b IH]; intros Hb.
  - reflexivity.
  - assert (Hno : starts_with cm_close ((c :: b) ++ cm_close ++ rest) = false).
    { destruct (starts_with cm_close ((c :: b) ++ cm_close ++ rest)) eqn:E; [|done].
      exfalso. destruct b as [|d [|e b]]; starts_with_eqs E; try done.
      subst. by apply (Hb [] (b ++ txt "--")). }
    change (find_sub cm_close ((c :: b) ++ cm_close ++ rest))
      with (if starts_with cm_close ((c :: b) ++ cm_close ++ rest) then Some 0
            else option_map S (find_sub cm_close (b ++ cm_close ++ rest))).
    rewrite Hno, IH; [done|].
    intros b1 b2 E. apply (Hb (c :: b1) b2). by rewrite <- !app_comm_cons, E.
Qed.

(** No comment starts inside a text in which the opening marker does
    not occur. *)
Lemma comment_at_before_open c a rest :
  (∀ a1 a2, (c :: a) ++ txt "<!-" ≠ a1 ++ cm_open ++ a2) →
  comment_at ((c :: a) ++ cm_open ++ rest) = None.
Proof.
  intros Ha. unfold comment_at.
  destruct (starts_with cm_open ((c :: a) ++ cm_open ++ rest)) eqn:E; [|done].
  exfalso. destruct a as [|d [|e [|f a]]]; starts_with_eqs E; try done.
  subst. by apply (Ha [] (a ++ txt "<!-")).
Qed.

Lemma comment_at_region b rest :
  (∀ b1 b2, b ++ txt "--" ≠ b1 ++ cm_close ++ b2) →
  comment_at (cm_open ++ b ++ cm_close ++ rest) = Some (4 + length b + 3).
Proof.
  intros Hb. unfold comment_at. rewrite starts_with_app.
  change (drop 4 (cm_open ++ b ++ cm_close ++ rest)) with (b ++ cm_close ++ rest).
  by rewrite find_sub_close.
Qed.

Lemma drop_region b rest :
  drop (4 + length b + 3) (cm_open ++ b ++ cm_close ++ rest) = rest.
Proof.
  rewrite (app_assoc cm_open), (app_assoc (cm_open ++ b)).
  replace (4 + length b + 3) with (length ((cm_open ++ b) ++ cm_close))
    by (rewrite !length_app; reflexivity).
  apply drop_app_length.
Qed.

Lemma stripComments_region a b rest :
  (∀ a1 a2, a ++ txt "<!-" ≠ a1 ++ cm_open ++ a2) →
  (∀ b1 b2, b ++ txt "--" ≠ b1 ++ cm_close ++ b2) →
  stripComments (a ++ cm_open ++ b ++ cm_close ++ rest)
  = a ++ stripComments rest.
Proof.
  intros Ha Hb. induction a as [|c a IH].
  - rewrite !app_nil_l.
    by rewrite (stripComments_match _ _ (comment_at_region b rest Hb)), drop_region.
  - rewrite <- !app_comm_cons.
    rewrite stripComments_copy.
    + rewrite IH; [done|]. intros a1 a2 E. apply (Ha (c :: a1) a2).
      by rewrite <- !app_comm_cons, E.
    + by apply (comment_at_before_open c a (b ++ cm_close ++ rest)).
Qed.

(** A text without ["!"] has no comment. *)
Lemma comment_at_no_bang s : bang ∉ s → comment_at s = None.
Proof.
  intros H. unfold comment_at.
  destruct (starts_with cm_open s) eqn:E; [|done].
  apply starts_with_inv in E as [r ->]. exfalso. apply H.
  unfold cm_open, bang. simpl. set_solver.
Qed.

Lemma stripComments_no_bang s : bang ∉ s → stripComments s = s.
Proof.
  induction s as [|c s IH]; intros H; [done|].
  rewrite stripComments_copy by (by apply comment_at_no_bang).
  apply not_elem_of_cons in H as [_ H]. by rewrite IH.
Qed.

(** ** Counting a character through the substitution *)

Lemma count_char_nil c : count_char c [] = 0.
Proof. reflexivity. Qed.

Lemma count_char_cons c x s :
  count_char c (x :: s) = (if decide (x = c) then 1 else 0) + count_char c s.
Proof. unfold count_char. rewrite filter_cons. by destruct (decide (x = c)). Qed.

Lemma count_char_app c s t :
  count_char c (s ++ t) = count_char c s + count_char c t.
Proof. unfold count_char. by rewrite filter_app, length_app. Qed.

Lemma count_char_zero c s : count_char c s = 0 ↔ c ∉ s.
Proof.
  induction s as [|x s IH].
  - split; [intros _; apply not_elem_of_nil | done].
  - rewrite count_char_cons, not_elem_of_cons. destruct (decide (x = c)) as [->|Hx].
    + split; [lia | intros [? _]; done].
    + rewrite <- IH. split; [intros H; split; [done | lia] | intros [_ ?]; lia].
Qed.

Lemma word_run_words r : Forall (λ c, is_word c = true) (word_run r).
Proof.
  induction r as [|c r IH]; simpl; [constructor|].
  destruct (is_word c) eqn:E; by constructor.
Qed.

Lemma word_run_prefix r : r = word_run r ++ drop (length (word_run r)) r.
Proof.
  induction r as [|c r IH]; simpl; [done|].
  destruct (is_word c); simpl; [by rewrite <- IH | done].
Qed.

Lemma token_at_inv r key :
  token_at r = Some key →
  Forall (λ c, is_word c = true) key ∧ ∃ rest, r = key ++ pct :: rest.
Proof.
  unfold token_at. cbv zeta. intros H.
  destruct (is_empty (word_run r)); [done|].
  destruct (drop (length (word_run r)) r) as [|c rest] eqn:E; [done|].
  destruct (Ascii.eqb_spec c pct) as [->|]; [|done].
  injection H as <-. split; [apply word_run_words|].
  exists rest. rewrite <- E. apply word_run_prefix.
Qed.

(** The characters passed over by a match are the key and the closing
    ["%"]. *)
Lemma token_at_take r key :
  token_at r = Some key → take (S (length key)) r = key ++ [pct].
Proof.
  intros H. destruct (token_at_inv _ _ H) as [_ [rest ->]].
  replace (S (length key)) with (length (key ++ [pct]))
    by (rewrite length_app; simpl; lia).
  by rewrite (cons_middle pct key rest), app_assoc, take_app_length.
Qed.

Lemma not_word_not_in c key :
  is_word c = false → Forall (λ x, is_word x = true) key → c ∉ key.
Proof.
  intros Hc Hk Hin. rewrite Forall_forall in Hk.
  specialize (Hk c Hin). congruence.
Qed.

Section CountReplace.
Variable data : marker.
Variable c : ascii.
Hypothesis c_not_word : is_word c = false.
Hypothesis c_not_pct : c ≠ pct.

Lemma count_replace_scan s :
  ∀ n, c ∉ take n s →
  count_char c (replace_scan data n s)
  = count_char c s
    + sum_list ((λ k, count_char c (own_or_empty data (string_of_list_ascii k)))
                  <$> keys_scan n s).
Proof using c_not_word c_not_pct.
  induction s as [|x r IH]; intros n Hn; [done|].
  destruct n as [|n].
  - simpl replace_scan. simpl keys_scan.
    destruct (Ascii.eqb_spec x pct) as [->|Hx].
    + rewrite (count_char_cons c pct r).
      destruct (decide (pct = c)) as [E|_]; [by symmetry in E|].
      destruct (token_at r) as [key|] eqn:Hk.
      * rewrite count_char_app. rewrite IH.
        -- rewrite fmap_cons. simpl sum_list. lia.
        -- rewrite (token_at_take _ _ Hk). destruct (token_at_inv _ _ Hk) as [Hw _].
           rewrite not_elem_of_app. split; [by apply not_word_not_in|].
           rewrite not_elem_of_cons. split; [done | apply not_elem_of_nil].
      * rewrite (count_char_cons c pct), IH by (rewrite take_0; apply not_elem_of_nil).
        destruct (decide (pct = c)) as [E|_]; [by symmetry in E|]. lia.
    + rewrite !count_char_cons, IH by (rewrite take_0; apply not_elem_of_nil). lia.
  - simpl replace_scan. simpl keys_scan. simpl in Hn.
    apply not_elem_of_cons in Hn as [Hx Hn].
    rewrite IH by done. rewrite count_char_cons.
    destruct (decide (x = c)); [by subst | lia].
Qed.

Lemma count_replaceHtml s :
  count_char c (replaceHtml s data)
  = count_char c s
    + sum_list ((λ k, count_char c (own_or_empty data k)) <$> token_keys s).
Proof using c_not_word c_not_pct.
  unfold replaceHtml. rewrite count_replace_scan by (rewrite take_0; apply not_elem_of_nil).
  f_equal. unfold token_keys. by rewrite <- list_fmap_compose.
Qed.
End CountReplace.

(** ** Guarded texts and checked templates *)

Lemma replace_scan_pieces (d : marker) s :
  ∀ n, replace_scan d n s = render d (pieces_scan n s).
Proof.
  induction s as [|x r IH]; intros n; [done|].
  destruct n as [|n]; cbn [replace_scan pieces_scan]; [|apply IH].
  destruct (Ascii.eqb x pct).
  - destruct (token_at r) as [key|]; cbn [render]; by rewrite IH.
  - cbn [render]. by rewrite IH.
Qed.

Lemma replaceHtml_pieces t (d : marker) : replaceHtml t d = render d (pieces t).
Proof. apply replace_scan_pieces. Qed.

Lemma render_app (d : marker) ps qs : render d (ps ++ qs) = render d ps ++ render d qs.
Proof.
  induction ps as [|[x|k] ps IH]; cbn [render app]; [done | by rewrite IH |].
  by rewrite IH, app_assoc.
Qed.

Lemma follows_lt_spec y : follows_lt y = true ↔ y ≠ bang ∧ y ≠ lt.
Proof.
  unfold follows_lt. rewrite andb_true_iff, !negb_true_iff.
  by rewrite !Ascii.eqb_neq.
Qed.

Lemma safe_lt_cons x r :
  safe_lt (x :: r)
  = (if Ascii.eqb x lt then match r with y :: _ => follows_lt y | [] => false end else true)
    && safe_lt r.
Proof. reflexivity. Qed.

Lemma safe_lt_app a b : safe_lt a = true → safe_lt b = true → safe_lt (a ++ b) = true.
Proof.
  intros Ha Hb. induction a as [|x a IH]; [done|].
  rewrite safe_lt_cons in Ha. apply andb_prop in Ha as [Hx Ha].
  cbn [app]. rewrite safe_lt_cons, (IH Ha), andb_true_r.
  destruct (Ascii.eqb x lt); [|done]. by destruct a.
Qed.

Lemma safe_lt_drop n s : safe_lt s = true → safe_lt (drop n s) = true.
Proof.
  revert s. induction n as [|n IH]; intros s H; [by rewrite drop_0|].
  destruct s as [|x s]; [done|]. cbn [drop]. apply IH.
  rewrite safe_lt_cons in H. by apply andb_prop in H as [_ H].
Qed.

Lemma safe_lt_no_lt v z : lt ∉ v → safe_lt (v ++ z) = safe_lt z.
Proof.
  induction v as [|x v IH]; intros H; [done|].
  apply not_elem_of_cons in H as [Hx H]. cbn [app]. rewrite safe_lt_cons, (IH H).
  destruct (Ascii.eqb_spec x lt) as [->|_]; [done|reflexivity].
Qed.

Lemma guarded_app c a b : guarded c a → guarded c b → guarded c (a ++ b).
Proof.
  intros Ha Hb. induction Ha as [|x r Hx _ IH|y r Hy _ IH|body r Hc Hs _ IH].
  - done.
  - cbn [app]. by apply guarded_char.
  - cbn [app]. apply guarded_lt; [done|]. exact IH.
  - replace ((cm_open ++ body ++ cm_close ++ r) ++ b)
      with (cm_open ++ body ++ cm_close ++ (r ++ b)) by (by rewrite <- !app_assoc).
    by apply guarded_comment.
Qed.

Lemma safe_guarded c s : safe_lt s = true → guarded c s.
Proof.
  induction s as [|x s IH]; intros H; [constructor|].
  rewrite safe_lt_cons in H. apply andb_prop in H as [Hx H].
  destruct (Ascii.eqb_spec x lt) as [->|Hne].
  - destruct s as [|y s]; [done|]. apply guarded_lt; [done | by apply IH].
  - apply guarded_char; [done | by apply IH].
Qed.

Lemma no_lt_safe v : lt ∉ v → safe_lt v = true.
Proof. intros H. rewrite <- (app_nil_r v). by rewrite safe_lt_no_lt. Qed.

Lemma no_lt_guarded c v : lt ∉ v → guarded c v.
Proof. intros H. by apply safe_guarded, no_lt_safe. Qed.

Lemma comment_at_not_lt x r : x ≠ lt → comment_at (x :: r) = None.
Proof.
  intros Hx. unfold comment_at.
  destruct (starts_with cm_open (x :: r)) eqn:E; [|done].
  exfalso. starts_with_eqs E. by subst.
Qed.

Lemma comment_at_lt_follow y r : follows_lt y = true → comment_at (lt :: y :: r) = None.
Proof.
  intros Hy. apply follows_lt_spec in Hy as [Hb _]. unfold comment_at.
  destruct (starts_with cm_open (lt :: y :: r)) eqn:E; [|done].
  exfalso. starts_with_eqs E. by subst.
Qed.

Lemma comment_at_safe x a r : safe_lt (x :: a) = true → comment_at ((x :: a) ++ r) = None.
Proof.
  intros H. rewrite safe_lt_cons in H. apply andb_prop in H as [Hx _].
  destruct (Ascii.eqb_spec x lt) as [->|Hne].
  - destruct a as [|y a]; [done|]. by apply comment_at_lt_follow.
  - by apply comment_at_not_lt.
Qed.

Lemma strip_safe a r : safe_lt a = true → stripComments (a ++ r) = a ++ stripComments r.
Proof.
  induction a as [|x a IH]; intros H; [done|].
  pose proof (comment_at_safe x a r H) as Hc. cbn [app] in *.
  rewrite stripComments_copy by done. rewrite IH; [done|].
  rewrite safe_lt_cons in H. by apply andb_prop in H as [_ H].
Qed.

Lemma find_sub_here p s : starts_with p s = true → find_sub p s = Some 0.
Proof. intros H. destruct s; cbn [find_sub]; by rewrite H. Qed.

Lemma find_sub_app p a r : ∃ i, find_sub p (a ++ p ++ r) = Some i ∧ i ≤ length a.
Proof.
  induction a as [|x a (i & Hi & Hle)].
  - exists 0. split; [|cbn; lia]. apply find_sub_here. cbn [app]. apply starts_with_app.
  - destruct (starts_with p ((x :: a) ++ p ++ r)) eqn:E.
    + exists 0. split; [by apply find_sub_here | cbn; lia].
    + exists (S i). split; [|cbn; lia]. cbn [app find_sub] in *. by rewrite E, Hi.
Qed.

(** Removing the comments of a guarded text keeps every [c], and
    leaves a text without comments. *)
Lemma strip_guarded c s :
  c ∉ cm_open → c ∉ cm_close → guarded c s →
  safe_lt (stripComments s) = true
  ∧ count_char c (stripComments s) = count_char c s.
Proof.
  intros Hco Hcc. induction 1 as [|x r Hx _ [IH1 IH2]|y r Hy _ [IH1 IH2]|body r Hb Hs _ [IH1 IH2]].
  - done.
  - rewrite stripComments_copy by (by apply comment_at_not_lt).
    rewrite safe_lt_cons, IH1, !count_char_cons, IH2.
    by destruct (Ascii.eqb_spec x lt).
  - rewrite stripComments_copy by (by apply comment_at_lt_follow).
    pose proof Hy as [_ Hyl]%follows_lt_spec.
    rewrite (stripComments_copy y r) in * by (by apply comment_at_not_lt).
    split.
    + rewrite safe_lt_cons, Hy, IH1. by rewrite Ascii.eqb_refl.
    + by rewrite (count_char_cons c lt), IH2, <- (count_char_cons c lt).
  - destruct (find_sub_app cm_close body r) as (i & Hi & Hle).
    assert (Hm : comment_at (cm_open ++ body ++ cm_close ++ r) = Some (4 + i + 3)).
    { unfold comment_at. rewrite starts_with_app.
      change (drop 4 (cm_open ++ body ++ cm_close ++ r)) with (body ++ cm_close ++ r).
      by rewrite Hi. }
    rewrite (stripComments_match _ _ Hm).
    replace (4 + i + 3) with (4 + (i + 3)) by lia. rewrite <- drop_drop.
    change (drop 4 (cm_open ++ body ++ cm_close ++ r)) with (body ++ cm_close ++ r).
    rewrite (app_assoc body), drop_app_le by (rewrite length_app; cbn; lia).
    set (tail := drop (i + 3) (body ++ cm_close)).
    assert (Htail : safe_lt tail = true) by (by apply safe_lt_drop).
    assert (Hct : c ∉ tail).
    { intros Hin. apply (elem_of_sublist _ (body ++ cm_close)) in Hin; [|apply sublist_drop].
      apply elem_of_app in Hin as [?|?]; done. }
    rewrite strip_safe by done. split.
    + by apply safe_lt_app.
    + rewrite !count_char_app, IH2.
      rewrite (proj2 (count_char_zero c tail) Hct), (proj2 (count_char_zero c body) Hb).
      rewrite (proj2 (count_char_zero c cm_open) Hco), (proj2 (count_char_zero c cm_close) Hcc).
      reflexivity.
Qed.

Lemma eqb_true x y : Ascii.eqb x y = true → x = y.
Proof. apply Ascii.eqb_eq. Qed.

Lemma guard_scan_comment c p rest :
  guard_scan c InComment (p :: rest) = true →
  (∃ rest2, p = Chr "-" ∧ rest = Chr "-" :: Chr ">" :: rest2
            ∧ guard_scan c Outside rest2 = true)
  ∨ (inner_ok c p rest = true ∧ guard_scan c InComment rest = true).
Proof.
  intros H. cbn [guard_scan] in H.
  destruct p as [a|k]; [destruct rest as [|[b|?] [|[d0|?] rest2]]|];
    try (right; by apply andb_prop in H).
  destruct (Ascii.eqb a "-" && Ascii.eqb b "-" && Ascii.eqb d0 ">") eqn:E.
  - left. apply andb_prop in E as [E E3]. apply andb_prop in E as [E1 E2].
    apply eqb_true in E1, E2, E3. subst. by exists rest2.
  - right. by apply andb_prop in H.
Qed.

Lemma inner_chr c x rest :
  inner_ok c (Chr x) rest = true →
  x ≠ c ∧ (x = lt → ∃ y rest1, rest = Chr y :: rest1 ∧ follows_lt y = true).
Proof.
  unfold inner_ok, lt_followed. intros [H1 H2]%andb_prop.
  apply negb_true_iff, Ascii.eqb_neq in H1. split; [done|]. intros ->.
  rewrite Ascii.eqb_refl in H2. destruct rest as [|[y|?] rest1]; try done.
  by exists y, rest1.
Qed.

Section RenderGuarded.
Variable c : ascii.
Variable d : marker.
Hypothesis d_ok : marker_ok c d.

Lemma render_scan ps :
  ∀ m, guard_scan c m ps = true → scan_post c d m (render d ps).
Proof using d_ok.
  induction ps as [ps IH] using (induction_ltof1 _ (@length piece)). unfold ltof in IH.
  intros m H. destruct ps as [|p rest].
  { destruct m; try discriminate H. constructor. }
  destruct m as [| |e].
  - (* outside *)
    destruct p as [x|k]; cbn [guard_scan] in H.
    + destruct (Ascii.eqb_spec x lt) as [->|Hx].
      * destruct rest as [|[y|k] rest1]; try discriminate H.
        destruct (follows_lt y) eqn:Hy.
        -- apply IH in H; [|cbn; lia]. cbn [render scan_post] in *. by apply guarded_lt.
        -- destruct rest1 as [|[d0|?] [|[e0|?] rest3]]; try discriminate H.
           apply andb_prop in H as [H H4]. apply andb_prop in H as [H H3].
           apply andb_prop in H as [H1 H2]. apply eqb_true in H1, H2, H3. subst.
           apply IH in H4 as (body & r & E & Hc & Hs & Hg); [|cbn; lia].
           cbn [render scan_post]. rewrite E. by apply (guarded_comment c body r).
      * apply IH in H; [|cbn; lia]. cbn [render scan_post] in *. by apply guarded_char.
    + destruct (region_end k) as [e|] eqn:Ek.
      * apply IH in H as (body & r & E & Hc & Hs & Hg); [|cbn; lia].
        cbn [render scan_post]. rewrite E.
        destruct (region_values c d d_ok k e Ek) as [[-> ->]|[-> ->]].
        -- apply guarded_comment; [done | by apply safe_lt_app | done].
        -- cbn [app]. apply guarded_app; [by apply safe_guarded | done].
      * apply IH in H; [|cbn; lia]. cbn [render scan_post] in *.
        apply guarded_app; [by apply (nested_values c d d_ok) | done].
  - (* in a comment of the template *)
    destruct (guard_scan_comment c p rest H) as [(rest2 & -> & -> & H2)|[Hi H2]].
    + apply IH in H2; [|cbn; lia]. cbn [render scan_post] in *.
      exists [], (render d rest2). split_and!; [done | apply not_elem_of_nil | done | done].
    + pose proof H2 as H2'.
      apply IH in H2 as (body & r & E & Hc & Hs & Hg); [|cbn; lia].
      destruct p as [x|k].
      * apply inner_chr in Hi as [Hxc Hxl]. cbn [render scan_post].
        exists (x :: body), r. rewrite E. split_and!; [done | | | done].
        { apply not_elem_of_cons. by split. }
        cbn [app]. rewrite safe_lt_cons, Hs, andb_true_r.
        destruct (Ascii.eqb_spec x lt) as [Hx|_]; [|done].
        destruct (Hxl Hx) as (y & rest1 & -> & Hy). cbn [render] in E.
        destruct body as [|z b]; cbn [app] in *; [|by injection E as <-].
        reflexivity.
      * cbn [inner_ok] in Hi. destruct (plain_values c d d_ok k Hi) as [Hvl Hvc].
        cbn [render scan_post]. exists (own_or_empty d k ++ body), r. rewrite E.
        split_and!; [by rewrite <- app_assoc | | | done].
        { rewrite not_elem_of_app. by split. }
        rewrite <- app_assoc. by apply safe_lt_app.
  - (* in a conditional region *)
    destruct p as [x|k]; cbn [guard_scan] in H.
    + apply andb_prop in H as [Hi H]. apply inner_chr in Hi as [Hxc Hxl].
      destruct (decide (x = lt)) as [Hx|Hx].
      * destruct (Hxl Hx) as (y & rest1 & -> & Hy). subst x.
        cbn [guard_scan] in H. apply andb_prop in H as [Hiy H].
        apply inner_chr in Hiy as [Hyc _].
        apply IH in H as (body & r & E & Hc & Hs & Hg); [|cbn; lia].
        cbn [render scan_post]. exists (lt :: y :: body), r. rewrite E.
        split_and!; [done | | | done].
        { rewrite !not_elem_of_cons. by split_and!. }
        rewrite !safe_lt_cons, Ascii.eqb_refl, Hy, Hs.
        apply follows_lt_spec in Hy as [_ Hyl].
        by destruct (Ascii.eqb_spec y lt).
      * apply IH in H as (body & r & E & Hc & Hs & Hg); [|cbn; lia].
        cbn [render scan_post]. exists (x :: body), r. rewrite E.
        split_and!; [done | | | done].
        { apply not_elem_of_cons. by split. }
        rewrite safe_lt_cons, Hs. by destruct (Ascii.eqb_spec x lt).
    + destruct (decide (k = e)) as [->|Hne].
      * apply IH in H; [|cbn; lia]. cbn [render scan_post] in *.
        exists [], (render d rest). split_and!; [done | apply not_elem_of_nil | done | done].
      * apply andb_prop in H as [Hi H].
        destruct (plain_values c d d_ok k Hi) as [Hvl Hvc].
        apply IH in H as (body & r & E & Hc & Hs & Hg); [|cbn; lia].
        cbn [render scan_post]. exists (own_or_empty d k ++ body), r. rewrite E.
        split_and!; [by rewrite <- app_assoc | | | done].
        { rewrite not_elem_of_app. by split. }
        by apply safe_lt_app.
Qed.

(** A checked template, rendered with admissible values, is guarded. *)
Lemma replaceHtml_guarded t :
  guard_ok c t = true → guarded c (replaceHtml t d).
Proof using d_ok.
  intros H. rewrite replaceHtml_pieces. by apply (render_scan _ Outside).
Qed.
End RenderGuarded.

(** ** The values of a marker object *)

Lemma own_or_empty_insert (m : marker) k0 v k :
  own_or_empty (<[k0 := v]> m) k = if decide (k0 = k) then v else own_or_empty m k.
Proof. unfold own_or_empty. rewrite lookup_insert. by destruct (decide (k0 = k)). Qed.

Lemma own_or_empty_fields (P : string → text → Prop) (l : list (string * text)) k :
  P k [] → Forall (λ kv, P kv.1 kv.2) l → P k (own_or_empty (list_to_map l) k).
Proof.
  intros Hnil Hl. unfold own_or_empty.
  destruct (list_to_map l !! k) as [v|] eqn:E; [|done].
  apply elem_of_list_to_map_2 in E. rewrite Forall_forall in Hl.
  apply (Hl (k, v) E).
Qed.

Lemma uint_digits_word d :
  Forall (λ x, is_word x = true) (txt (NilEmpty.string_of_uint d)).
Proof. induction d; simpl; by constructor. Qed.

Lemma dec_word n : Forall (λ x, is_word x = true) (dec n).
Proof. apply uint_digits_word. Qed.

(** A literal made of word characters and ["-"]. *)
Lemma literal_avoid c s :
  is_word c = false → c ≠ "-"%char →
  forallb (λ x, is_word x || Ascii.eqb x "-"%char) s = true → c ∉ s.
Proof.
  intros Hw Hd Hs Hin. rewrite forallb_forall in Hs.
  apply list_elem_of_In in Hin. specialize (Hs c Hin).
  rewrite Hw in Hs. simpl in Hs. by apply Ascii.eqb_eq in Hs.
Qed.

Lemma avoid_comment_open c :
  c ∉ txt "<!>" → c ≠ "-"%char → c ∉ txt "<!--".
Proof.
  unfold txt. simpl. rewrite !not_elem_of_cons. intuition.
Qed.

Lemma avoid_comment_close c :
  c ∉ txt "<!>" → c ≠ "-"%char → c ∉ txt "-->".
Proof.
  unfold txt. simpl. rewrite !not_elem_of_cons. intuition.
Qed.

Ltac marker_lookup :=
  unfold own_or_empty, getItemMarker, marker_fields;
  repeat (rewrite list_to_map_cons;
          first [ rewrite lookup_insert_eq | rewrite lookup_insert_ne by discriminate ]).

Lemma marker_conditionals cn item parentItem level :
  let m := getItemMarker cn item parentItem level in
  own_or_empty m "ifHasChildrenStart" = (if hasSubpages item then [] else cm_open)
  ∧ own_or_empty m "ifHasChildrenEnd" = (if hasSubpages item then [] else cm_close)
  ∧ own_or_empty m "ifHasNoChildrenStart" = (if negb (hasSubpages item) then [] else cm_open)
  ∧ own_or_empty m "ifHasNoChildrenEnd" = (if negb (hasSubpages item) then [] else cm_close)
  ∧ own_or_empty m "ifIsLinkedStart" = (if isLinked item then [] else cm_open)
  ∧ own_or_empty m "ifIsLinkedEnd" = (if isLinked item then [] else cm_close)
  ∧ own_or_empty m "ifIsNotLinkedStart" = (if negb (isLinked item) then [] else cm_open)
  ∧ own_or_empty m "ifIsNotLinkedEnd" = (if negb (isLinked item) then [] else cm_close).
Proof.
  cbv zeta. split_and!; marker_lookup;
    by destruct (hasSubpages item), (isLinked item).
Qed.

Section MarkerValues.
Variable x : ascii.
Variable cn : classNames.
Hypothesis x_not_word : is_word x = false.
Hypothesis x_not_dash : x ≠ "-"%char.
Hypothesis x_not_gt : x ≠ ">"%char.
Hypothesis x_classes : classes_avoid x cn.

(** A character that is in no class name and in no field of the item
    is in no value of the marker object; for ["<"] and ["!"], apart
    from the placeholders that start a conditional region. *)
Lemma marker_value_avoid item parentItem level k :
  region_end k = None ∨ (x ∉ txt "<!") →
  fields_avoid x item →
  from_option (fields_avoid x) True parentItem →
  x ∉ own_or_empty (getItemMarker cn item parentItem level) k.
Proof using x_not_word x_not_dash x_not_gt x_classes.
  intros Hcond (Hdt & Ht & Hl & Htg & Hlt) Hp.
  destruct x_classes as (Ha & Hc & Hh & Hlc & Hil).
  assert (Hlit : ∀ s, forallb (λ y, is_word y || Ascii.eqb y "-"%char) s = true → x ∉ s)
    by (intros s; by apply literal_avoid).
  assert (Hdec : ∀ n, x ∉ dec n)
    by (intros n; apply not_word_not_in; [done | apply dec_word]).
  assert (Hsh : ∀ o, x ∉ shown o → x ∉ default [] o)
    by (intros [v|]; [done | intros _; apply not_elem_of_nil]).
  assert (Hpt : x ∉ opt_field (λ p, default [] (title p)) parentItem)
    by (destruct parentItem; [apply Hsh, Hp | apply not_elem_of_nil]).
  assert (Hpl : x ∉ opt_field (λ p, default [] (link p)) parentItem)
    by (destruct parentItem; [apply Hsh, Hp | apply not_elem_of_nil]).
  assert (Hptg : x ∉ opt_field target parentItem)
    by (destruct parentItem; [apply Hp | apply not_elem_of_nil]).
  assert (Hor : ∀ v, x ∉ v → x ∉ or_text v (txt "_self")).
  { intros [|y v] Hv; [by apply Hlit | done]. }
  assert (Hwhen : ∀ b v, x ∉ v → x ∉ when_text b v).
  { intros [] v Hv; [done | apply not_elem_of_nil]. }
  assert (Hclose : x ∉ txt "-->").
  { unfold txt. simpl. rewrite !not_elem_of_cons. split_and!; try done. apply not_elem_of_nil. }
  assert (Hopen : (x ∉ txt "<!") → x ∉ txt "<!--").
  { unfold txt. simpl. rewrite !not_elem_of_cons. intuition. }
  revert Hcond. unfold getItemMarker.
  apply (own_or_empty_fields
           (λ k v, region_end k = None ∨ (x ∉ txt "<!") → x ∉ v)).
  { intros _. apply not_elem_of_nil. }
  unfold marker_fields. repeat apply List.Forall_cons; try apply List.Forall_nil;
    lazy beta iota delta [fst snd]; intros HK.
  all: try (destruct (isLinked item), (hasSubpages item);
            first [ apply not_elem_of_nil
                  | exact Hclose
                  | destruct HK as [HK|HK];
                    [ vm_compute in HK; discriminate HK | by apply Hopen ] ]).
  all: try (by auto).
  all: rewrite ?not_elem_of_app.
  - split; [by apply Hlit | apply Hdec].
  - destruct (current item); by apply Hlit.
  - destruct (hasSubpages item); by apply Hlit.
  - destruct (is_empty (linkType item)); [apply not_elem_of_nil|].
    rewrite !not_elem_of_app. split_and!; [done | by apply Hlit | done].
Qed.
End MarkerValues.

Lemma sum_values c (m : marker) k0 (keys : list string) :
  (∀ k, k ∈ keys → k ≠ k0 → c ∉ own_or_empty m k) →
  sum_list ((λ k, count_char c (own_or_empty m k)) <$> keys)
  = length (filter (λ x, x = k0) keys) * count_char c (own_or_empty m k0).
Proof.
  induction keys as [|k keys IH]; intros H; [done|].
  rewrite fmap_cons, filter_cons. simpl sum_list.
  rewrite IH by (intros k' Hk'; apply H; by right).
  destruct (decide (k = k0)) as [->|Hk]; simpl; [lia|].
  assert (E : count_char c (own_or_empty m k) = 0)
    by (apply count_char_zero, H; [by left | done]).
  rewrite E. lia.
Qed.

(** ** One substitution into each of the three templates *)

Section TemplateCount.
Variable c : ascii.
Variable cn : classNames.
Hypothesis c_not_word : is_word c = false.
Hypothesis c_not_markup : c ∉ txt "<!->%".
Hypothesis c_classes : classes_avoid c cn.

Lemma sign_chars :
  c ≠ pct ∧ c ≠ "-"%char ∧ c ≠ ">"%char ∧ (c ∉ txt "<!") ∧ (c ∉ cm_open) ∧ (c ∉ cm_close).
Proof using c_not_markup.
  revert c_not_markup. unfold txt, cm_open, cm_close, txt, pct. simpl.
  rewrite !not_elem_of_cons. intuition.
Qed.

Lemma count_item_marker t item parentItem level :
  fields_avoid c item →
  from_option (fields_avoid c) True parentItem →
  count_char c (replaceHtml t (getItemMarker cn item parentItem level))
  = count_char c t.
Proof using c_not_word c_not_markup c_classes.
  destruct sign_chars as (Hpct & Hdash & Hgt & Hop & _).
  intros Hi Hp. rewrite count_replaceHtml by done.
  rewrite (sum_values c _ "" (token_keys t)).
  - assert (E : count_char c (own_or_empty (getItemMarker cn item parentItem level) "") = 0).
    { apply count_char_zero. apply marker_value_avoid; try done. by right. }
    rewrite E. lia.
  - intros k Hk _. apply marker_value_avoid; try done. by right.
Qed.

Lemma count_item_marker_insert t item parentItem level k0 v :
  fields_avoid c item →
  from_option (fields_avoid c) True parentItem →
  count_char c (replaceHtml t (<[k0 := v]> (getItemMarker cn item parentItem level)))
  = count_char c t + key_uses k0 t * count_char c v.
Proof using c_not_word c_not_markup c_classes.
  destruct sign_chars as (Hpct & Hdash & Hgt & Hop & _).
  intros Hi Hp. rewrite count_replaceHtml by done.
  rewrite (sum_values c _ k0 (token_keys t)).
  - rewrite own_or_empty_insert. by destruct (decide (k0 = k0)).
  - intros k Hk Hne. rewrite own_or_empty_insert.
    destruct (decide (k0 = k)) as [<-|_]; [done|].
    apply marker_value_avoid; try done. by right.
Qed.
End TemplateCount.

Lemma count_wrap_marker c t pid html :
  is_word c = false → c ≠ pct → c ≠ "-"%char →
  count_char c
    (replaceHtml t (list_to_map [ ("uid", dec pid); ("menuItems", html);
                                  ("levelClass", txt "level-1") ]))
  = count_char c t + key_uses "menuItems" t * count_char c html.
Proof.
  intros c_not_word c_not_pct c_not_dash.
  rewrite count_replaceHtml by done.
  rewrite (sum_values c _ "menuItems" (token_keys t)); [done|].
  intros k _ Hne.
  apply (own_or_empty_fields (λ k v, k ≠ "menuItems" → c ∉ v)); [| |done].
  - intros _. apply not_elem_of_nil.
  - repeat apply List.Forall_cons; try apply List.Forall_nil;
      lazy beta iota delta [fst snd]; intros HK; [|done|].
    + apply not_word_not_in; [done | apply dec_word].
    + by apply literal_avoid.
Qed.

(** ** Marker objects that the check of the templates admits *)

Lemma region_end_cases k e :
  region_end k = Some e →
  (k = "ifIsLinkedStart" ∧ e = "ifIsLinkedEnd")
  ∨ (k = "ifIsNotLinkedStart" ∧ e = "ifIsNotLinkedEnd")
  ∨ (k = "ifHasChildrenStart" ∧ e = "ifHasChildrenEnd")
  ∨ (k = "ifHasNoChildrenStart" ∧ e = "ifHasNoChildrenEnd").
Proof.
  unfold region_end. intros H.
  repeat (destruct (decide _) as [->|?] in H; [injection H as <-; tauto|]).
  discriminate H.
Qed.

Lemma is_plain_key_spec k :
  is_plain_key k = true ↔ region_end k = None ∧ k ≠ "submenu" ∧ k ≠ "menuItems".
Proof. unfold is_plain_key. apply bool_decide_eq_true. Qed.

Lemma marker_ok_insert c (d : marker) k0 v :
  k0 = "submenu" ∨ k0 = "menuItems" →
  marker_ok c d → guarded c v → marker_ok c (<[k0 := v]> d).
Proof.
  intros Hk0 [Hp Hn Hr] Hv. split.
  - intros k Hk. rewrite own_or_empty_insert.
    destruct (decide (k0 = k)) as [<-|_]; [|by apply Hp].
    apply is_plain_key_spec in Hk as (_ & ? & ?). by destruct Hk0.
  - intros k Hk. rewrite own_or_empty_insert.
    destruct (decide (k0 = k)); [done | by apply Hn].
  - intros k e Hke. rewrite !own_or_empty_insert.
    assert (k0 ≠ k ∧ k0 ≠ e) as [? ?].
    { apply region_end_cases in Hke.
      destruct Hk0 as [-> | ->]; destruct Hke as [[-> ->]|[[-> ->]|[[-> ->]|[-> ->]]]];
        by split. }
    rewrite !decide_False by done. by apply Hr.
Qed.

Lemma wrap_marker_ok c pid html :
  is_word c = false → c ≠ "-"%char → guarded c html →
  marker_ok c (list_to_map [ ("uid", dec pid); ("menuItems", html);
                             ("levelClass", txt "level-1") ]).
Proof.
  intros Hw Hd Hh.
  assert (Hdec : ∀ x, is_word x = false → x ∉ dec pid)
    by (intros x Hx; apply not_word_not_in; [done | apply dec_word]).
  split.
  - intros k.
    apply (own_or_empty_fields
             (λ k v, is_plain_key k = true → safe_lt v = true ∧ (c ∉ v))).
    + intros _. split; [done | apply not_elem_of_nil].
    + repeat apply List.Forall_cons; try apply List.Forall_nil;
        lazy beta iota delta [fst snd]; intros HK.
      * split; [by apply no_lt_safe, Hdec | by apply Hdec].
      * vm_compute in HK. discriminate HK.
      * split; [done | by apply literal_avoid].
  - intros k _.
    apply (own_or_empty_fields (λ k v, guarded c v)); [constructor|].
    repeat apply List.Forall_cons; try apply List.Forall_nil; lazy beta iota delta [fst snd].
    + apply no_lt_guarded. by apply Hdec.
    + done.
    + apply no_lt_guarded. by apply literal_avoid.
  - intros k e Hke. right. apply region_end_cases in Hke.
    destruct Hke as [[-> ->]|[[-> ->]|[[-> ->]|[-> ->]]]];
      split; unfold own_or_empty;
      repeat (rewrite list_to_map_cons; rewrite lookup_insert_ne by discriminate);
      by rewrite list_to_map_nil, lookup_empty.
Qed.

Section MarkerSafe.
Variable cn : classNames.
Hypothesis cn_safe : classes_safe cn.

(** With fields and class names of this kind, every value of the marker
    object is of this kind, apart from the placeholders that start a
    conditional region. *)
Lemma marker_value_safe item parentItem level k :
  region_end k = None →
  fields_safe item →
  from_option fields_safe True parentItem →
  safe_lt (own_or_empty (getItemMarker cn item parentItem level) k) = true.
Proof using cn_safe.
  intros Hcond (Hdt & Ht & Hl & Htg & Hlt) Hp.
  destruct cn_safe as (Ha & Hc & Hh & Hlc & Hil).
  assert (Hdec : ∀ n, safe_lt (dec n) = true)
    by (intros n; apply no_lt_safe, not_word_not_in; [done | apply dec_word]).
  assert (Hsh : ∀ o, safe_lt (shown o) = true → safe_lt (default [] o) = true)
    by (by intros [v|]).
  assert (Hpt : safe_lt (opt_field (λ p, default [] (title p)) parentItem) = true)
    by (destruct parentItem; [apply Hsh, Hp | done]).
  assert (Hpl : safe_lt (opt_field (λ p, default [] (link p)) parentItem) = true)
    by (destruct parentItem; [apply Hsh, Hp | done]).
  assert (Hptg : safe_lt (opt_field target parentItem) = true)
    by (destruct parentItem; [apply Hp | done]).
  assert (Hor : ∀ v, safe_lt v = true → safe_lt (or_text v (txt "_self")) = true)
    by (by intros [|y v] Hv).
  assert (Hwhen : ∀ b v, safe_lt v = true → safe_lt (when_text b v) = true)
    by (by intros [] v Hv).
  revert Hcond. unfold getItemMarker.
  apply (own_or_empty_fields (λ k v, region_end k = None → safe_lt v = true)); [done|].
  unfold marker_fields. repeat apply List.Forall_cons; try apply List.Forall_nil;
    lazy beta iota delta [fst snd]; intros HK.
  all: try (destruct (isLinked item), (hasSubpages item);
            first [ reflexivity | vm_compute in HK; discriminate HK ]).
  all: try (by auto).
  - apply safe_lt_app; [reflexivity | apply Hdec].
  - destruct (current item); reflexivity.
  - destruct (is_empty (linkType item)); [reflexivity|].
    apply safe_lt_app; [done | by apply safe_lt_app].
Qed.
End MarkerSafe.

Lemma item_marker_ok c cn item parentItem level :
  is_word c = false → (c ∉ txt "<!->%") →
  classes_avoid c cn → classes_safe cn →
  fields_avoid c item → fields_safe item →
  from_option (fields_avoid c) True parentItem →
  from_option fields_safe True parentItem →
  marker_ok c (getItemMarker cn item parentItem level).
Proof.
  intros Hw Hmk Hcc Hcl Hic Hil Hpc Hpl.
  destruct (sign_chars c Hmk) as (Hpct & Hdash & Hgt & Hop & _).
  assert (Hlt : ∀ k, region_end k = None →
                     safe_lt (own_or_empty (getItemMarker cn item parentItem level) k) = true).
  { intros k Hk. by apply marker_value_safe. }
  split.
  - intros k (Hk & _)%is_plain_key_spec. split; [by apply Hlt|].
    apply marker_value_avoid; try done. by left.
  - intros k Hk. apply safe_guarded. by apply Hlt.
  - intros k e Hke. apply region_end_cases in Hke.
    destruct (marker_conditionals cn item parentItem level)
      as (E1 & E2 & E3 & E4 & E5 & E6 & E7 & E8). cbv zeta in *.
    destruct Hke as [[-> ->]|[[-> ->]|[[-> ->]|[-> ->]]]].
    + rewrite E5, E6. clear. destruct (isLinked item); [right|left]; split; reflexivity.
    + rewrite E7, E8. clear. destruct (isLinked item); [left|right]; split; reflexivity.
    + rewrite E1, E2. clear. destruct (hasSubpages item); [right|left]; split; reflexivity.
    + rewrite E3, E4. clear. destruct (hasSubpages item); [left|right]; split; reflexivity.
Qed.

(** ** The recursion of [buildHtml] *)

#[local] Arguments getItemMarker : simpl never.
#[local] Arguments replaceHtml : simpl never.
#[local] Arguments stripComments : simpl never.
#[local] Arguments wrapHtml : simpl never.

Lemma MenuItem_tree_ind (P : MenuItem → Prop) :
  (∀ item, Forall P (children item) → P item) → ∀ item, P item.
Proof.
  intros H. fix IH 1. intros item. apply H.
  destruct item as [? ? ? ? ? ? ? ? ? ? ? cs]. simpl.
  induction cs as [|x cs IHcs]; constructor; [apply IH | apply IHcs].
Qed.

(** The source's recursion equation: the loop body calls [buildHtml]
    on the children. *)
Lemma buildItem_eq cn tp parentItem level item :
  buildItem cn tp parentItem level item
  = rbind
      (if hasSubpages item && negb (is_empty (children item)) then
         rbind (buildHtml cn tp (children item) (Some item) (S level))
           (λ sub, Ok (<["submenu" := sub]> (getItemMarker cn item parentItem level)))
       else Ok (getItemMarker cn item parentItem level))
      (λ m, Ok (replaceHtml (menuItemTemplate tp) m)).
Proof.
  destruct item as [? ? ? ? ? ? ? ? hs ? ? cs].
  cbn [buildItem hasSubpages children].
  destruct (hs && negb (is_empty cs)); [|done].
  unfold buildHtml. do 3 f_equal.
  match goal with |- context [buildItem cn tp ?p (S level)] => generalize p end.
  intros p. induction cs as [|x cs IHcs]; [done|]. cbn [forEachHtml]. by rewrite IHcs.
Qed.

Lemma forEachHtml_ok (f : MenuItem → result text) items :
  Forall (λ i, ∃ h, f i = Ok h) items → ∃ html, forEachHtml f items = Ok html.
Proof.
  induction 1 as [|i items [h Hh] _ [t Ht]]; cbn [forEachHtml]; [by eexists|].
  rewrite Hh, Ht. cbn [rbind]. by eexists.
Qed.

(** Below a parent, [buildHtml] never throws. *)
Lemma buildItem_ok cn tp item :
  ∀ parentItem level, ∃ h, buildItem cn tp parentItem level item = Ok h.
Proof.
  induction item as [item IH] using MenuItem_tree_ind. intros parentItem level.
  rewrite buildItem_eq.
  destruct (hasSubpages item && negb (is_empty (children item))); [|by eexists].
  unfold buildHtml.
  destruct (forEachHtml_ok (buildItem cn tp (Some item) (S level)) (children item))
    as [html ->].
  { eapply Forall_impl; [exact IH|]. intros x Hx. apply Hx. }
  unfold wrapHtml. cbn [rbind]. by eexists.
Qed.

Lemma buildHtml_sub_ok cn tp items p level :
  ∃ out, buildHtml cn tp items (Some p) level = Ok out.
Proof.
  unfold buildHtml.
  destruct (forEachHtml_ok (buildItem cn tp (Some p) level) items) as [html ->].
  { apply Forall_forall. intros x _. apply buildItem_ok. }
  unfold wrapHtml. cbn [rbind]. by eexists.
Qed.

Lemma buildHtml_root_ok cn tp first rest level :
  ∃ out, buildHtml cn tp (first :: rest) None level = Ok out.
Proof.
  unfold buildHtml.
  destruct (forEachHtml_ok (buildItem cn tp None level) (first :: rest)) as [html ->].
  { apply Forall_forall. intros x _. apply buildItem_ok. }
  unfold wrapHtml. cbn [rbind]. by eexists.
Qed.

Lemma buildHtml_empty_root cn tp level :
  buildHtml cn tp [] None level = Throw TypeError.
Proof. reflexivity. Qed.

(** ** Rendered item blocks *)

Lemma visited_size_eq item :
  visited_size item
  = S (if hasSubpages item then visited_forest_size (children item) else 0).
Proof.
  destruct item as [? ? ? ? ? ? ? ? hs ? ? cs]. cbn [visited_size hasSubpages children].
  by destruct hs.
Qed.


Lemma tree_avoids_eq c item :
  tree_avoids c item ↔ fields_avoid c item ∧ forest_avoids c (children item).
Proof.
  destruct item as [? ? ? ? ? ? ? ? ? ? ? cs]. cbn [tree_avoids children].
  apply and_iff_compat_l. unfold forest_avoids.
  induction cs as [|x cs IH]; [by split; [constructor|]|].
  rewrite Forall_cons, IH. reflexivity.
Qed.

Lemma tree_size_eq item : tree_size item = S (forest_size (children item)).
Proof.
  destruct item as [? ? ? ? ? ? ? ? ? ? ? cs]. reflexivity.
Qed.

Lemma tree_flagged_eq item :
  tree_flagged item
  ↔ (children item ≠ [] → hasSubpages item = true) ∧ forest_flagged (children item).
Proof.
  destruct item as [? ? ? ? ? ? ? ? hs ? ? cs]. cbn [tree_flagged children hasSubpages].
  apply and_iff_compat_l. unfold forest_flagged.
  induction cs as [|x cs IH]; [by split; [constructor|]|].
  rewrite Forall_cons, IH. reflexivity.
Qed.

(** In a tree whose flags agree with the data, [buildHtml] visits every
    item. *)
Lemma visited_flagged item : tree_flagged item → visited_size item = tree_size item.
Proof.
  induction item as [item IH] using MenuItem_tree_ind.
  intros [Hf Hc]%tree_flagged_eq. rewrite visited_size_eq, tree_size_eq. f_equal.
  destruct (children item) as [|x cs] eqn:E.
  - by destruct (hasSubpages item).
  - rewrite Hf by done. unfold visited_forest_size, forest_size.
    clear E Hf. induction Hc as [|y l Hy Hl IHl]; [done|].
    apply Forall_cons in IH as [IHy IH]. cbn [foldr]. by rewrite (IHy Hy), (IHl IH).
Qed.

Lemma visited_forest_flagged items :
  forest_flagged items → visited_forest_size items = forest_size items.
Proof.
  induction 1 as [|x l Hx _ IH]; [done|].
  unfold visited_forest_size, forest_size in *. cbn [foldr].
  by rewrite (visited_flagged x Hx), IH.
Qed.

Lemma tree_safe_eq item :
  tree_safe item ↔ fields_safe item ∧ forest_safe (children item).
Proof.
  destruct item as [? ? ? ? ? ? ? ? ? ? ? cs]. cbn [tree_safe children].
  apply and_iff_compat_l. unfold forest_safe.
  induction cs as [|x cs IH]; [by split; [constructor|]|].
  rewrite Forall_cons, IH. reflexivity.
Qed.

Section Blocks.
Variable c : ascii.
Variable cn : classNames.
Variable tp : templates.
Hypothesis sign : block_sign c cn tp.
Hypothesis checked : templates_guarded c tp.
Hypothesis safe_classes : classes_safe cn.

(** What one run of the loop body, or of the loop, establishes. *)
Lemma forEach_blocks (f : MenuItem → result text) items :
  Forall (λ i, ∃ h, f i = Ok h ∧ count_char c h = visited_size i ∧ guarded c h) items →
  ∃ html, forEachHtml f items = Ok html
          ∧ count_char c html = visited_forest_size items ∧ guarded c html.
Proof.
  induction 1 as [|i items (h & Hh & Hc & Hb) _ (t & Ht & Htc & Htb)].
  - exists []. split_and!; [done | done | constructor].
  - cbn [forEachHtml]. rewrite Hh, Ht. cbn [rbind]. exists (h ++ t).
    split_and!; [done | | by apply guarded_app].
    rewrite count_char_app, Hc, Htc. reflexivity.
Qed.

Lemma buildItem_blocks item :
  tree_avoids c item → tree_safe item →
  ∀ parentItem level,
    from_option (fields_avoid c) True parentItem →
    from_option fields_safe True parentItem →
    ∃ h, buildItem cn tp parentItem level item = Ok h
         ∧ count_char c h = visited_size item ∧ guarded c h.
Proof using sign checked safe_classes.
  destruct sign as [Hw Hmk Honce Hwrap Hsub Hcls Hsm Hiw Hisub].
  destruct checked as [Gi Gw Gs].
  destruct (sign_chars c Hmk) as (Hpct & Hdash & Hgt & Hop & Hco & Hcc).
  induction item as [item IH] using MenuItem_tree_ind.
  intros Hc Hl parentItem level Hpc Hpl.
  apply tree_avoids_eq in Hc as [Hfc Hcc']. apply tree_safe_eq in Hl as [Hfl Hcl].
  assert (Hm : ∀ p lv, from_option (fields_avoid c) True p →
                       from_option fields_safe True p →
                       marker_ok c (getItemMarker cn item p lv))
    by (intros; by apply item_marker_ok).
  rewrite buildItem_eq, visited_size_eq.
  destruct (hasSubpages item && negb (is_empty (children item))) eqn:G.
  - apply andb_prop in G as [-> _]. unfold buildHtml.
    destruct (forEach_blocks (buildItem cn tp (Some item) (S level)) (children item))
      as (html & -> & Hhc & Hhg).
    { unfold forest_avoids, forest_safe in *. rewrite Forall_forall in IH, Hcc', Hcl.
      apply Forall_forall. intros x Hx. apply IH; auto. }
    unfold wrapHtml. cbn [rbind].
    set (pre := replaceHtml (subMenuWrapTemplate tp) _).
    assert (Hpre_g : guarded c pre).
    { apply replaceHtml_guarded; [|done].
      apply marker_ok_insert; [by right | by apply Hm | done]. }
    assert (Hpre_c : count_char c pre = visited_forest_size (children item)).
    { unfold pre. rewrite count_item_marker_insert by done.
      rewrite Hsub, Hisub, Hhc. lia. }
    destruct (strip_guarded c pre Hco Hcc Hpre_g) as [Hs Hsc].
    eexists. split; [reflexivity|]. split.
    + rewrite count_item_marker_insert by done.
      rewrite Honce, Hsm, Hsc, Hpre_c. lia.
    + apply replaceHtml_guarded; [|done].
      apply marker_ok_insert; [by left | by apply Hm | by apply safe_guarded].
  - cbn [rbind]. eexists. split; [reflexivity|]. split.
    + rewrite count_item_marker by done. rewrite Honce. f_equal.
      destruct (hasSubpages item); [|done].
      destruct (children item); [done | discriminate G].
    + apply replaceHtml_guarded; [by apply Hm | done].
Qed.
End Blocks.

Lemma docTemplates_sign : block_sign at_sign defaultClassNames docTemplates.
Proof.
  split; try (vm_compute; reflexivity); [compute_done|].
  unfold classes_avoid. split_and!; compute_done.
Qed.

Lemma docTemplates_guarded : templates_guarded at_sign docTemplates.
Proof. split; vm_compute; reflexivity. Qed.

(** The templates without comments pass the check as well. *)
Lemma plainTemplates_guarded : templates_guarded hash plainTemplates.
Proof. split; vm_compute; reflexivity. Qed.

Lemma defaultClassNames_safe : classes_safe defaultClassNames.
Proof. unfold classes_safe. split_and!; vm_compute; reflexivity. Qed.

Lemma docMenu_avoids : forest_avoids at_sign docMenu.
Proof. repeat constructor; compute_done. Qed.

Lemma docMenu_safe : forest_safe docMenu.
Proof. repeat constructor; vm_compute; reflexivity. Qed.

Lemma docMenu_flagged : forest_flagged docMenu.
Proof. repeat constructor; done. Qed.




Lemma token_at_nonempty r key : token_at r = Some key → key ≠ [].
Proof.
  unfold token_at. cbv zeta. intros H ->.
  destruct (word_run r) as [|x w] eqn:E; [done|]. cbn [is_empty] in H.
  destruct (drop (length (x :: w)) r) as [|c ?]; [done|].
  by destruct (Ascii.eqb c pct).
Qed.

Lemma replaceHtml_lone_pct (data : marker) r :
  token_at r = None → replaceHtml (pct :: r) data = pct :: replaceHtml r data.
Proof. intros H. unfold replaceHtml. simpl. by rewrite H. Qed.

(** The first match of the scan is the leftmost occurrence of a token:
    before it, every character is copied, a ["%"] that starts no token
    included. *)
Lemma replaceHtml_leftmost (data : marker) pre key rest :
  key ≠ [] → Forall (λ x, is_word x = true) key →
  (∀ a w t, w ≠ [] → Forall (λ x, is_word x = true) w →
            pre ++ pct :: key ++ pct :: rest = a ++ pct :: w ++ pct :: t →
            length pre ≤ length a) →
  replaceHtml (pre ++ pct :: key ++ pct :: rest) data
  = pre ++ own_or_empty data (string_of_list_ascii key) ++ replaceHtml rest data.
Proof.
  intros Hne Hw. induction pre as [|c pre IH]; intros Hleft.
  - apply (replaceHtml_placeholder data []); [apply not_elem_of_nil | done | done].
  - assert (Hpre : ∀ a w t, w ≠ [] → Forall (λ x, is_word x = true) w →
                     pre ++ pct :: key ++ pct :: rest = a ++ pct :: w ++ pct :: t →
                     length pre ≤ length a).
    { intros a w t Hw1 Hw2 E.
      specialize (Hleft (c :: a) w t Hw1 Hw2). cbn [app length] in Hleft.
      rewrite E in Hleft. specialize (Hleft eq_refl). lia. }
    rewrite <- !app_comm_cons. destruct (decide (c = pct)) as [->|Hc].
    + rewrite replaceHtml_lone_pct; [by rewrite IH|].
      destruct (token_at (pre ++ pct :: key ++ pct :: rest)) as [w|] eqn:E; [|done].
      exfalso. pose proof (token_at_nonempty _ _ E) as Hw1.
      destruct (token_at_inv _ _ E) as [Hw2 [t Et]].
      specialize (Hleft [] w t Hw1 Hw2). cbn [app length] in Hleft.
      rewrite Et in Hleft. specialize (Hleft eq_refl). lia.
    + rewrite replaceHtml_copy by done. by rewrite IH.
Qed.

(** A template in which no token occurs is returned as it is. *)
Lemma replaceHtml_no_token (data : marker) s :
  (∀ a w t, w ≠ [] → Forall (λ x, is_word x = true) w →
            s ≠ a ++ pct :: w ++ pct :: t) →
  replaceHtml s data = s.
Proof.
  induction s as [|c s IH]; intros Hno; [done|].
  assert (Hs : ∀ a w t, w ≠ [] → Forall (λ x, is_word x = true) w →
                 s ≠ a ++ pct :: w ++ pct :: t).
  { intros a w t Hw1 Hw2 E. apply (Hno (c :: a) w t Hw1 Hw2). by rewrite E. }
  destruct (decide (c = pct)) as [->|Hc].
  - rewrite replaceHtml_lone_pct; [by rewrite IH|].
    destruct (token_at s) as [w|] eqn:E; [|done].
    exfalso. pose proof (token_at_nonempty _ _ E) as Hw1.
    destruct (token_at_inv _ _ E) as [Hw2 [t Et]].
    apply (Hno [] w t Hw1 Hw2). by rewrite Et.
  - rewrite replaceHtml_copy by done. by rewrite IH.
Qed.

Lemma token_free_prefix_leftmost pre s :
  token_free_prefix (length pre) (pre ++ s) = true →
  ∀ a w t, w ≠ [] → Forall (λ x, is_word x = true) w →
           pre ++ s = a ++ pct :: w ++ pct :: t → length pre ≤ length a.
Proof.
  induction pre as [|c pre IH]; intros H a w t Hw1 Hw2 E; [cbn; lia|].
  cbn [length app token_free_prefix] in H. apply andb_prop in H as [H1 H2].
  destruct a as [|x a].
  - exfalso. cbn [app] in E. injection E as -> E.
    rewrite E, token_at_app in H1 by done.
    rewrite Ascii.eqb_refl in H1. cbn in H1. discriminate H1.
  - cbn [app] in E. injection E as _ E. cbn [length].
    specialize (IH H2 a w t Hw1 Hw2 E). lia.
Qed.

(** Every template has no token, or a leftmost one. *)
Lemma leftmost_token s :
  (∀ a w t, w ≠ [] → Forall (λ x, is_word x = true) w →
            s ≠ a ++ pct :: w ++ pct :: t)
  ∨ ∃ pre key rest,
      s = pre ++ pct :: key ++ pct :: rest
      ∧ key ≠ [] ∧ Forall (λ x, is_word x = true) key
      ∧ ∀ a w t, w ≠ [] → Forall (λ x, is_word x = true) w →
                 s = a ++ pct :: w ++ pct :: t → length pre ≤ length a.
Proof.
  induction s as [|c s IH].
  - left. intros [|x a] w t _ _ E; discriminate E.
  - destruct (decide (c = pct)) as [->|Hc];
      [destruct (token_at s) as [w|] eqn:Etok|].
    + right. pose proof (token_at_nonempty _ _ Etok) as Hw1.
      destruct (token_at_inv _ _ Etok) as [Hw2 [t ->]].
      exists [], w, t. split_and!; [done | done | done |].
      intros; cbn; lia.
    + destruct IH as [IH | (pre & key & rest & -> & Hk1 & Hk2 & Hleft)].
      * left. intros [|x a] w t Hw1 Hw2 E.
        -- injection E as E. rewrite E, token_at_app in Etok by done. discriminate Etok.
        -- injection E as _ E. by apply (IH a w t).
      * right. exists (pct :: pre), key, rest. split_and!; [done | done | done |].
        intros [|x a] w t Hw1 Hw2 E.
        -- injection E as E. rewrite E, token_at_app in Etok by done. discriminate Etok.
        -- injection E as _ E. specialize (Hleft a w t Hw1 Hw2 E). cbn. lia.
    + destruct IH as [IH | (pre & key & rest & -> & Hk1 & Hk2 & Hleft)].
      * left. intros [|x a] w t Hw1 Hw2 E.
        -- injection E as E _. done.
        -- injection E as _ E. by apply (IH a w t).
      * right. exists (c :: pre), key, rest. split_and!; [done | done | done |].
        intros [|x a] w t Hw1 Hw2 E.
        -- injection E as E _. done.
        -- injection E as _ E. specialize (Hleft a w t Hw1 Hw2 E). cbn. lia.
Qed.



(** ** Frames: what the methods do not touch *)

#[local] Instance same_setup_preorder : PreOrder same_setup.
Proof.
  split.
  - intros p. unfold same_setup. tauto.
  - intros p q r Hpq Hqr. unfold same_setup in *.
    destruct Hpq as (?&?&?&?&?&?&?&?&?&?), Hqr as (?&?&?&?&?&?&?&?&?&?).
    split_and!; congruence.
Qed.

#[local] Instance same_ctl_preorder : PreOrder same_ctl.
Proof. split; [by intros p | intros p q r; unfold same_ctl; congruence]. Qed.

#[local] Instance same_tree_preorder : PreOrder same_tree.
Proof. split; [by intros p | intros p q r; unfold same_tree; congruence]. Qed.

#[local] Instance same_classes_preorder : PreOrder same_classes.
Proof.
  split; [by intros p n|]. intros p q r Hpq Hqr n. by rewrite Hqr, Hpq.
Qed.

#[local] Instance log_grows_preorder : PreOrder log_grows.
Proof. unfold log_grows. split; [by intros p | intros p q r; apply transitivity]. Qed.

Section Preserves.
Context (R : page → page → Prop) `{!PreOrder R}.

Lemma preserves_ret {A} (a : A) : preserves R (ret a).
Proof. intros p. reflexivity. Qed.

Lemma preserves_throw {A} e : preserves R (@throw A e).
Proof. intros p. reflexivity. Qed.

Lemma preserves_get : preserves R get.
Proof. intros p. reflexivity. Qed.

Lemma preserves_deref {A} (o : option A) : preserves R (deref o).
Proof. destruct o; [apply preserves_ret | apply preserves_throw]. Qed.

Lemma preserves_bind {A B} (m : M A) (k : A → M B) :
  preserves R m → (∀ a, preserves R (k a)) → preserves R (bind m k).
Proof.
  intros Hm Hk p. unfold after, bind. specialize (Hm p). unfold after in Hm.
  destruct (m p) as [[a|e] p1]; [|exact Hm].
  etransitivity; [exact Hm | apply Hk].
Qed.

Lemma preserves_forEach {A} (f : A → M unit) l :
  (∀ x, preserves R (f x)) → preserves R (forEach f l).
Proof.
  intros Hf. induction l as [|x l IH]; [apply preserves_ret|].
  apply preserves_bind; [apply Hf | intros _; apply IH].
Qed.

Lemma preserves_modify (f : page → page) :
  (∀ p, R p (f p)) → preserves R (modify f).
Proof. intros Hf p. apply Hf. Qed.
End Preserves.

Ltac head_of t :=
  lazymatch t with
  | ?f _ => head_of f
  | _ => t
  end.

(** Break a method into its primitives. *)
Ltac frame_step :=
  lazymatch goal with
  | |- preserves _ (bind _ _) => apply preserves_bind; [try tc_solve | | intros ?]
  | |- preserves _ (ret _) => apply preserves_ret; tc_solve
  | |- preserves _ (throw _) => apply preserves_throw; tc_solve
  | |- preserves _ get => apply preserves_get; tc_solve
  | |- preserves _ (deref _) => apply preserves_deref; tc_solve
  | |- preserves _ (forEach _ _) => apply preserves_forEach; [try tc_solve | intros ?]
  | |- preserves _ (if ?c then _ else _) => destruct c
  | |- preserves _ (match ?c with _ => _ end) => destruct c
  | |- preserves ?R ?m =>
      first [ solve [eauto with frames] | let h := head_of m in progress unfold h ]
  end.

Ltac frame := repeat frame_step.

Create HintDb frames.

Ltac prim_frame :=
  intros p;
  unfold after, classList_add, classList_remove, setAttribute, removeAttribute,
    setStyle, dispatchEvent, warn, preventDefault, setTimeout,
    requestAnimationFrame, addEventListener, scrollTo, assignInnerHtml, modify, throw;
  repeat case_match; cbn;
  unfold same_setup, same_ctl, same_tree, same_classes, log_grows; cbn;
  try done;
  try (intros m; unfold upd; cbv beta;
       match goal with |- context [decide ?P] => destruct (decide P) end; done);
  try (by apply prefix_app_r).

Lemma setup_classList_add n t : preserves same_setup (classList_add n t).
Proof. prim_frame. Qed.
Lemma setup_classList_remove n t : preserves same_setup (classList_remove n t).
Proof. prim_frame. Qed.
Lemma setup_setAttribute n k v : preserves same_setup (setAttribute n k v).
Proof. prim_frame. Qed.
Lemma setup_removeAttribute n k : preserves same_setup (removeAttribute n k).
Proof. prim_frame. Qed.
Lemma setup_setStyle n k v : preserves same_setup (setStyle n k v).
Proof. prim_frame. Qed.
Lemma setup_dispatchEvent e : preserves same_setup (dispatchEvent e).
Proof. prim_frame. Qed.
Lemma setup_warn e : preserves same_setup (warn e).
Proof. prim_frame. Qed.
Lemma setup_preventDefault : preserves same_setup preventDefault.
Proof. prim_frame. Qed.
Lemma setup_setTimeout cb d : preserves same_setup (setTimeout cb d).
Proof. prim_frame. Qed.
Lemma setup_requestAnimationFrame cb : preserves same_setup (requestAnimationFrame cb).
Proof. prim_frame. Qed.
Lemma setup_addEventListener t ty h : preserves same_setup (addEventListener t ty h).
Proof. prim_frame. Qed.
Lemma setup_scrollTo z : preserves same_setup (scrollTo z).
Proof. prim_frame. Qed.
Lemma setup_assignInnerHtml h : preserves same_setup (assignInnerHtml h).
Proof. prim_frame. Qed.
Lemma setup_set_ctl f : preserves same_setup (modify (set_ctl f)).
Proof. prim_frame. Qed.
Lemma setup_set_els f : preserves same_setup (modify (set_els f)).
Proof. prim_frame. Qed.

#[local] Hint Resolve setup_classList_add setup_classList_remove setup_setAttribute
  setup_removeAttribute setup_setStyle setup_dispatchEvent setup_warn
  setup_preventDefault setup_setTimeout setup_requestAnimationFrame
  setup_addEventListener setup_scrollTo setup_assignInnerHtml setup_set_ctl
  setup_set_els : frames.

Lemma ctl_classList_add n t : preserves same_ctl (classList_add n t).
Proof. prim_frame. Qed.
Lemma ctl_classList_remove n t : preserves same_ctl (classList_remove n t).
Proof. prim_frame. Qed.
Lemma ctl_setAttribute n k v : preserves same_ctl (setAttribute n k v).
Proof. prim_frame. Qed.
Lemma ctl_removeAttribute n k : preserves same_ctl (removeAttribute n k).
Proof. prim_frame. Qed.
Lemma ctl_setStyle n k v : preserves same_ctl (setStyle n k v).
Proof. prim_frame. Qed.
Lemma ctl_dispatchEvent e : preserves same_ctl (dispatchEvent e).
Proof. prim_frame. Qed.
Lemma ctl_warn e : preserves same_ctl (warn e).
Proof. prim_frame. Qed.
Lemma ctl_preventDefault : preserves same_ctl preventDefault.
Proof. prim_frame. Qed.
Lemma ctl_setTimeout cb d : preserves same_ctl (setTimeout cb d).
Proof. prim_frame. Qed.
Lemma ctl_requestAnimationFrame cb : preserves same_ctl (requestAnimationFrame cb).
Proof. prim_frame. Qed.
Lemma ctl_addEventListener t ty h : preserves same_ctl (addEventListener t ty h).
Proof. prim_frame. Qed.
Lemma ctl_scrollTo z : preserves same_ctl (scrollTo z).
Proof. prim_frame. Qed.
Lemma ctl_assignInnerHtml h : preserves same_ctl (assignInnerHtml h).
Proof. prim_frame. Qed.
Lemma ctl_set_els f : preserves same_ctl (modify (set_els f)).
Proof. prim_frame. Qed.

#[local] Hint Resolve ctl_classList_add ctl_classList_remove ctl_setAttribute
  ctl_removeAttribute ctl_setStyle ctl_dispatchEvent ctl_warn ctl_preventDefault
  ctl_setTimeout ctl_requestAnimationFrame ctl_addEventListener ctl_scrollTo
  ctl_assignInnerHtml ctl_set_els : frames.

Lemma tree_classList_add n t : preserves same_tree (classList_add n t).
Proof. prim_frame. Qed.
Lemma tree_classList_remove n t : preserves same_tree (classList_remove n t).
Proof. prim_frame. Qed.
Lemma tree_setAttribute n k v : preserves same_tree (setAttribute n k v).
Proof. prim_frame. Qed.
Lemma tree_removeAttribute n k : preserves same_tree (removeAttribute n k).
Proof. prim_frame. Qed.
Lemma tree_setStyle n k v : preserves same_tree (setStyle n k v).
Proof. prim_frame. Qed.
Lemma tree_dispatchEvent e : preserves same_tree (dispatchEvent e).
Proof. prim_frame. Qed.
Lemma tree_warn e : preserves same_tree (warn e).
Proof. prim_frame. Qed.
Lemma tree_preventDefault : preserves same_tree preventDefault.
Proof. prim_frame. Qed.
Lemma tree_setTimeout cb d : preserves same_tree (setTimeout cb d).
Proof. prim_frame. Qed.
Lemma tree_requestAnimationFrame cb : preserves same_tree (requestAnimationFrame cb).
Proof. prim_frame. Qed.
Lemma tree_addEventListener t ty h : preserves same_tree (addEventListener t ty h).
Proof. prim_frame. Qed.
Lemma tree_scrollTo z : preserves same_tree (scrollTo z).
Proof. prim_frame. Qed.
Lemma tree_set_ctl f : preserves same_tree (modify (set_ctl f)).
Proof. prim_frame. Qed.
Lemma tree_set_els f : preserves same_tree (modify (set_els f)).
Proof. prim_frame. Qed.

#[local] Hint Resolve tree_classList_add tree_classList_remove tree_setAttribute
  tree_removeAttribute tree_setStyle tree_dispatchEvent tree_warn tree_preventDefault
  tree_setTimeout tree_requestAnimationFrame tree_addEventListener tree_scrollTo
  tree_set_ctl tree_set_els : frames.

Lemma classes_setAttribute n k v : preserves same_classes (setAttribute n k v).
Proof. prim_frame. Qed.
Lemma classes_removeAttribute n k : preserves same_classes (removeAttribute n k).
Proof. prim_frame. Qed.
Lemma classes_setStyle n k v : preserves same_classes (setStyle n k v).
Proof. prim_frame. Qed.
Lemma classes_dispatchEvent e : preserves same_classes (dispatchEvent e).
Proof. prim_frame. Qed.
Lemma classes_warn e : preserves same_classes (warn e).
Proof. prim_frame. Qed.
Lemma classes_preventDefault : preserves same_classes preventDefault.
Proof. prim_frame. Qed.
Lemma classes_setTimeout cb d : preserves same_classes (setTimeout cb d).
Proof. prim_frame. Qed.
Lemma classes_requestAnimationFrame cb : preserves same_classes (requestAnimationFrame cb).
Proof. prim_frame. Qed.
Lemma classes_addEventListener t ty h : preserves same_classes (addEventListener t ty h).
Proof. prim_frame. Qed.
Lemma classes_scrollTo z : preserves same_classes (scrollTo z).
Proof. prim_frame. Qed.
Lemma classes_set_ctl f : preserves same_classes (modify (set_ctl f)).
Proof. prim_frame. Qed.

#[local] Hint Resolve classes_setAttribute classes_removeAttribute classes_setStyle
  classes_dispatchEvent classes_warn classes_preventDefault classes_setTimeout
  classes_requestAnimationFrame classes_addEventListener classes_scrollTo
  classes_set_ctl : frames.

Lemma log_classList_add n t : preserves log_grows (classList_add n t).
Proof. prim_frame. Qed.
Lemma log_classList_remove n t : preserves log_grows (classList_remove n t).
Proof. prim_frame. Qed.
Lemma log_setAttribute n k v : preserves log_grows (setAttribute n k v).
Proof. prim_frame. Qed.
Lemma log_removeAttribute n k : preserves log_grows (removeAttribute n k).
Proof. prim_frame. Qed.
Lemma log_setStyle n k v : preserves log_grows (setStyle n k v).
Proof. prim_frame. Qed.
Lemma log_dispatchEvent e : preserves log_grows (dispatchEvent e).
Proof. prim_frame. Qed.
Lemma log_warn e : preserves log_grows (warn e).
Proof. prim_frame. Qed.
Lemma log_preventDefault : preserves log_grows preventDefault.
Proof. prim_frame. Qed.
Lemma log_setTimeout cb d : preserves log_grows (setTimeout cb d).
Proof. prim_frame. Qed.
Lemma log_requestAnimationFrame cb : preserves log_grows (requestAnimationFrame cb).
Proof. prim_frame. Qed.
Lemma log_addEventListener t ty h : preserves log_grows (addEventListener t ty h).
Proof. prim_frame. Qed.
Lemma log_scrollTo z : preserves log_grows (scrollTo z).
Proof. prim_frame. Qed.
Lemma log_assignInnerHtml h : preserves log_grows (assignInnerHtml h).
Proof. prim_frame. Qed.
Lemma log_set_ctl f : preserves log_grows (modify (set_ctl f)).
Proof. prim_frame. Qed.
Lemma log_set_els f : preserves log_grows (modify (set_els f)).
Proof. prim_frame. Qed.

#[local] Hint Resolve log_classList_add log_classList_remove log_setAttribute
  log_removeAttribute log_setStyle log_dispatchEvent log_warn log_preventDefault
  log_setTimeout log_requestAnimationFrame log_addEventListener log_scrollTo
  log_assignInnerHtml log_set_ctl log_set_els : frames.

Lemma classes_clear_style n st :
  preserves same_classes (modify (set_els (upd n (with_style st)))).
Proof. prim_frame. Qed.
#[local] Hint Resolve classes_clear_style : frames.

Lemma setup_emit e : preserves same_setup (modify (emit e)).
Proof. prim_frame. Qed.
Lemma ctl_emit e : preserves same_ctl (modify (emit e)).
Proof. prim_frame. Qed.
Lemma tree_emit e : preserves same_tree (modify (emit e)).
Proof. prim_frame. Qed.
Lemma classes_emit e : preserves same_classes (modify (emit e)).
Proof. prim_frame. Qed.
Lemma log_emit e : preserves log_grows (modify (emit e)).
Proof. prim_frame. Qed.
#[local] Hint Resolve setup_emit ctl_emit tree_emit classes_emit log_emit : frames.

(** The methods, by the same decomposition. *)

Lemma setup_setCssText n d : preserves same_setup (setCssText n d).
Proof. unfold setCssText. frame. Qed.
#[local] Hint Resolve setup_setCssText : frames.

Lemma ctl_setCssText n d : preserves same_ctl (setCssText n d).
Proof. unfold setCssText. frame. Qed.
#[local] Hint Resolve ctl_setCssText : frames.

Lemma tree_setCssText n d : preserves same_tree (setCssText n d).
Proof. unfold setCssText. frame. Qed.
#[local] Hint Resolve tree_setCssText : frames.

Lemma classes_setCssText n d : preserves same_classes (setCssText n d).
Proof. unfold setCssText. frame. Qed.
#[local] Hint Resolve classes_setCssText : frames.

Lemma log_setCssText n d : preserves log_grows (setCssText n d).
Proof. unfold setCssText. frame. Qed.
#[local] Hint Resolve log_setCssText : frames.

Lemma setup_set_opt_style n k v : preserves same_setup (set_opt_style n k v).
Proof. unfold set_opt_style. frame. Qed.
#[local] Hint Resolve setup_set_opt_style : frames.

Lemma ctl_set_opt_style n k v : preserves same_ctl (set_opt_style n k v).
Proof. unfold set_opt_style. frame. Qed.
#[local] Hint Resolve ctl_set_opt_style : frames.

Lemma tree_set_opt_style n k v : preserves same_tree (set_opt_style n k v).
Proof. unfold set_opt_style. frame. Qed.
#[local] Hint Resolve tree_set_opt_style : frames.

Lemma classes_set_opt_style n k v : preserves same_classes (set_opt_style n k v).
Proof. unfold set_opt_style. frame. Qed.
#[local] Hint Resolve classes_set_opt_style : frames.

Lemma log_set_opt_style n k v : preserves log_grows (set_opt_style n k v).
Proof. unfold set_opt_style. frame. Qed.
#[local] Hint Resolve log_set_opt_style : frames.

Lemma setup_bindEvents  : preserves same_setup bindEvents.
Proof. unfold bindEvents. frame. Qed.
#[local] Hint Resolve setup_bindEvents : frames.

Lemma ctl_bindEvents  : preserves same_ctl bindEvents.
Proof. unfold bindEvents. frame. Qed.
#[local] Hint Resolve ctl_bindEvents : frames.

Lemma tree_bindEvents  : preserves same_tree bindEvents.
Proof. unfold bindEvents. frame. Qed.
#[local] Hint Resolve tree_bindEvents : frames.

Lemma classes_bindEvents  : preserves same_classes bindEvents.
Proof. unfold bindEvents. frame. Qed.
#[local] Hint Resolve classes_bindEvents : frames.

Lemma log_bindEvents  : preserves log_grows bindEvents.
Proof. unfold bindEvents. frame. Qed.
#[local] Hint Resolve log_bindEvents : frames.

Lemma setup_renderMenu  : preserves same_setup renderMenu.
Proof. unfold renderMenu. frame. Qed.
#[local] Hint Resolve setup_renderMenu : frames.

Lemma log_renderMenu  : preserves log_grows renderMenu.
Proof. unfold renderMenu. frame. Qed.
#[local] Hint Resolve log_renderMenu : frames.

Lemma setup_loadMenu  : preserves same_setup loadMenu.
Proof. unfold loadMenu. frame. Qed.
#[local] Hint Resolve setup_loadMenu : frames.

Lemma log_loadMenu  : preserves log_grows loadMenu.
Proof. unfold loadMenu. frame. Qed.
#[local] Hint Resolve log_loadMenu : frames.

Lemma setup_disableTabIndexOnAllCards  : preserves same_setup disableTabIndexOnAllCards.
Proof. unfold disableTabIndexOnAllCards. frame. Qed.
#[local] Hint Resolve setup_disableTabIndexOnAllCards : frames.

Lemma ctl_disableTabIndexOnAllCards  : preserves same_ctl disableTabIndexOnAllCards.
Proof. unfold disableTabIndexOnAllCards. frame. Qed.
#[local] Hint Resolve ctl_disableTabIndexOnAllCards : frames.

Lemma tree_disableTabIndexOnAllCards  : preserves same_tree disableTabIndexOnAllCards.
Proof. unfold disableTabIndexOnAllCards. frame. Qed.
#[local] Hint Resolve tree_disableTabIndexOnAllCards : frames.

Lemma classes_disableTabIndexOnAllCards  : preserves same_classes disableTabIndexOnAllCards.
Proof. unfold disableTabIndexOnAllCards. frame. Qed.
#[local] Hint Resolve classes_disableTabIndexOnAllCards : frames.

Lemma log_disableTabIndexOnAllCards  : preserves log_grows disableTabIndexOnAllCards.
Proof. unfold disableTabIndexOnAllCards. frame. Qed.
#[local] Hint Resolve log_disableTabIndexOnAllCards : frames.

Lemma setup_toggleTabIndexOnOpenCard  : preserves same_setup toggleTabIndexOnOpenCard.
Proof. unfold toggleTabIndexOnOpenCard. frame. Qed.
#[local] Hint Resolve setup_toggleTabIndexOnOpenCard : frames.

Lemma ctl_toggleTabIndexOnOpenCard  : preserves same_ctl toggleTabIndexOnOpenCard.
Proof. unfold toggleTabIndexOnOpenCard. frame. Qed.
#[local] Hint Resolve ctl_toggleTabIndexOnOpenCard : frames.

Lemma tree_toggleTabIndexOnOpenCard  : preserves same_tree toggleTabIndexOnOpenCard.
Proof. unfold toggleTabIndexOnOpenCard. frame. Qed.
#[local] Hint Resolve tree_toggleTabIndexOnOpenCard : frames.

Lemma classes_toggleTabIndexOnOpenCard  : preserves same_classes toggleTabIndexOnOpenCard.
Proof. unfold toggleTabIndexOnOpenCard. frame. Qed.
#[local] Hint Resolve classes_toggleTabIndexOnOpenCard : frames.

Lemma log_toggleTabIndexOnOpenCard  : preserves log_grows toggleTabIndexOnOpenCard.
Proof. unfold toggleTabIndexOnOpenCard. frame. Qed.
#[local] Hint Resolve log_toggleTabIndexOnOpenCard : frames.

Lemma setup_toggleWaiAriaForOpenCard  : preserves same_setup toggleWaiAriaForOpenCard.
Proof. unfold toggleWaiAriaForOpenCard. frame. Qed.
#[local] Hint Resolve setup_toggleWaiAriaForOpenCard : frames.

Lemma ctl_toggleWaiAriaForOpenCard  : preserves same_ctl toggleWaiAriaForOpenCard.
Proof. unfold toggleWaiAriaForOpenCard. frame. Qed.
#[local] Hint Resolve ctl_toggleWaiAriaForOpenCard : frames.

Lemma tree_toggleWaiAriaForOpenCard  : preserves same_tree toggleWaiAriaForOpenCard.
Proof. unfold toggleWaiAriaForOpenCard. frame. Qed.
#[local] Hint Resolve tree_toggleWaiAriaForOpenCard : frames.

Lemma classes_toggleWaiAriaForOpenCard  : preserves same_classes toggleWaiAriaForOpenCard.
Proof. unfold toggleWaiAriaForOpenCard. frame. Qed.
#[local] Hint Resolve classes_toggleWaiAriaForOpenCard : frames.

Lemma log_toggleWaiAriaForOpenCard  : preserves log_grows toggleWaiAriaForOpenCard.
Proof. unfold toggleWaiAriaForOpenCard. frame. Qed.
#[local] Hint Resolve log_toggleWaiAriaForOpenCard : frames.

Lemma setup_focusFirstItemOfOpenCard t : preserves same_setup (focusFirstItemOfOpenCard t).
Proof. unfold focusFirstItemOfOpenCard. frame. Qed.
#[local] Hint Resolve setup_focusFirstItemOfOpenCard : frames.

Lemma ctl_focusFirstItemOfOpenCard t : preserves same_ctl (focusFirstItemOfOpenCard t).
Proof. unfold focusFirstItemOfOpenCard. frame. Qed.
#[local] Hint Resolve ctl_focusFirstItemOfOpenCard : frames.

Lemma tree_focusFirstItemOfOpenCard t : preserves same_tree (focusFirstItemOfOpenCard t).
Proof. unfold focusFirstItemOfOpenCard. frame. Qed.
#[local] Hint Resolve tree_focusFirstItemOfOpenCard : frames.

Lemma classes_focusFirstItemOfOpenCard t : preserves same_classes (focusFirstItemOfOpenCard t).
Proof. unfold focusFirstItemOfOpenCard. frame. Qed.
#[local] Hint Resolve classes_focusFirstItemOfOpenCard : frames.

Lemma log_focusFirstItemOfOpenCard t : preserves log_grows (focusFirstItemOfOpenCard t).
Proof. unfold focusFirstItemOfOpenCard. frame. Qed.
#[local] Hint Resolve log_focusFirstItemOfOpenCard : frames.

Lemma setup_setOpenCard c : preserves same_setup (setOpenCard c).
Proof. unfold setOpenCard. frame. Qed.
#[local] Hint Resolve setup_setOpenCard : frames.

Lemma tree_setOpenCard c : preserves same_tree (setOpenCard c).
Proof. unfold setOpenCard. frame. Qed.
#[local] Hint Resolve tree_setOpenCard : frames.

Lemma log_setOpenCard c : preserves log_grows (setOpenCard c).
Proof. unfold setOpenCard. frame. Qed.
#[local] Hint Resolve log_setOpenCard : frames.

Lemma setup_changeOpenCard c : preserves same_setup (changeOpenCard c).
Proof. unfold changeOpenCard. frame. Qed.
#[local] Hint Resolve setup_changeOpenCard : frames.

Lemma tree_changeOpenCard c : preserves same_tree (changeOpenCard c).
Proof. unfold changeOpenCard. frame. Qed.
#[local] Hint Resolve tree_changeOpenCard : frames.

Lemma log_changeOpenCard c : preserves log_grows (changeOpenCard c).
Proof. unfold changeOpenCard. frame. Qed.
#[local] Hint Resolve log_changeOpenCard : frames.

Lemma setup_resizeCards  : preserves same_setup resizeCards.
Proof. unfold resizeCards. frame. Qed.
#[local] Hint Resolve setup_resizeCards : frames.

Lemma ctl_resizeCards  : preserves same_ctl resizeCards.
Proof. unfold resizeCards. frame. Qed.
#[local] Hint Resolve ctl_resizeCards : frames.

Lemma tree_resizeCards  : preserves same_tree resizeCards.
Proof. unfold resizeCards. frame. Qed.
#[local] Hint Resolve tree_resizeCards : frames.

Lemma classes_resizeCards  : preserves same_classes resizeCards.
Proof. unfold resizeCards. frame. Qed.
#[local] Hint Resolve classes_resizeCards : frames.

Lemma log_resizeCards  : preserves log_grows resizeCards.
Proof. unfold resizeCards. frame. Qed.
#[local] Hint Resolve log_resizeCards : frames.

Lemma setup_repositionCards  : preserves same_setup repositionCards.
Proof. unfold repositionCards. frame. Qed.
#[local] Hint Resolve setup_repositionCards : frames.

Lemma ctl_repositionCards  : preserves same_ctl repositionCards.
Proof. unfold repositionCards. frame. Qed.
#[local] Hint Resolve ctl_repositionCards : frames.

Lemma tree_repositionCards  : preserves same_tree repositionCards.
Proof. unfold repositionCards. frame. Qed.
#[local] Hint Resolve tree_repositionCards : frames.

Lemma classes_repositionCards  : preserves same_classes repositionCards.
Proof. unfold repositionCards. frame. Qed.
#[local] Hint Resolve classes_repositionCards : frames.

Lemma log_repositionCards  : preserves log_grows repositionCards.
Proof. unfold repositionCards. frame. Qed.
#[local] Hint Resolve log_repositionCards : frames.

Lemma setup_positionMenu  : preserves same_setup positionMenu.
Proof. unfold positionMenu. frame. Qed.
#[local] Hint Resolve setup_positionMenu : frames.

Lemma ctl_positionMenu  : preserves same_ctl positionMenu.
Proof. unfold positionMenu. frame. Qed.
#[local] Hint Resolve ctl_positionMenu : frames.

Lemma tree_positionMenu  : preserves same_tree positionMenu.
Proof. unfold positionMenu. frame. Qed.
#[local] Hint Resolve tree_positionMenu : frames.

Lemma classes_positionMenu  : preserves same_classes positionMenu.
Proof. unfold positionMenu. frame. Qed.
#[local] Hint Resolve classes_positionMenu : frames.

Lemma log_positionMenu  : preserves log_grows positionMenu.
Proof. unfold positionMenu. frame. Qed.
#[local] Hint Resolve log_positionMenu : frames.

Lemma setup_animateElement el a b c d : preserves same_setup (animateElement el a b c d).
Proof. unfold animateElement. frame. Qed.
#[local] Hint Resolve setup_animateElement : frames.

Lemma ctl_animateElement el a b c d : preserves same_ctl (animateElement el a b c d).
Proof. unfold animateElement. frame. Qed.
#[local] Hint Resolve ctl_animateElement : frames.

Lemma tree_animateElement el a b c d : preserves same_tree (animateElement el a b c d).
Proof. unfold animateElement. frame. Qed.
#[local] Hint Resolve tree_animateElement : frames.

Lemma classes_animateElement el a b c d : preserves same_classes (animateElement el a b c d).
Proof. unfold animateElement. frame. Qed.
#[local] Hint Resolve classes_animateElement : frames.

Lemma log_animateElement el a b c d : preserves log_grows (animateElement el a b c d).
Proof. unfold animateElement. frame. Qed.
#[local] Hint Resolve log_animateElement : frames.

Lemma setup_toggleNoScroll  : preserves same_setup toggleNoScroll.
Proof. unfold toggleNoScroll. frame. Qed.
#[local] Hint Resolve setup_toggleNoScroll : frames.

Lemma ctl_toggleNoScroll  : preserves same_ctl toggleNoScroll.
Proof. unfold toggleNoScroll. frame. Qed.
#[local] Hint Resolve ctl_toggleNoScroll : frames.

Lemma tree_toggleNoScroll  : preserves same_tree toggleNoScroll.
Proof. unfold toggleNoScroll. frame. Qed.
#[local] Hint Resolve tree_toggleNoScroll : frames.

Lemma log_toggleNoScroll  : preserves log_grows toggleNoScroll.
Proof. unfold toggleNoScroll. frame. Qed.
#[local] Hint Resolve log_toggleNoScroll : frames.

Lemma setup_open  : preserves same_setup open.
Proof. unfold open. frame. Qed.
#[local] Hint Resolve setup_open : frames.

Lemma log_open  : preserves log_grows open.
Proof. unfold open. frame. Qed.
#[local] Hint Resolve log_open : frames.

Lemma setup_close  : preserves same_setup close.
Proof. unfold close. frame. Qed.
#[local] Hint Resolve setup_close : frames.

Lemma ctl_close  : preserves same_ctl close.
Proof. unfold close. frame. Qed.
#[local] Hint Resolve ctl_close : frames.

Lemma tree_close  : preserves same_tree close.
Proof. unfold close. frame. Qed.
#[local] Hint Resolve tree_close : frames.

Lemma log_close  : preserves log_grows close.
Proof. unfold close. frame. Qed.
#[local] Hint Resolve log_close : frames.

Lemma setup_run_callback cb : preserves same_setup (run_callback cb).
Proof. destruct cb; unfold run_callback; frame. Qed.
#[local] Hint Resolve setup_run_callback : frames.

Lemma tree_run_callback cb : preserves same_tree (run_callback cb).
Proof. destruct cb; unfold run_callback; frame. Qed.
#[local] Hint Resolve tree_run_callback : frames.

Lemma log_run_callback cb : preserves log_grows (run_callback cb).
Proof. destruct cb; unfold run_callback; frame. Qed.
#[local] Hint Resolve log_run_callback : frames.

(** ** Running a method *)

Lemma bind_ok {A B} (m : M A) (k : A → M B) p b p' :
  bind m k p = (Ok b, p') → ∃ a p1, m p = (Ok a, p1) ∧ k a p1 = (Ok b, p').
Proof.
  unfold bind. destruct (m p) as [[a|e] p1]; [|done]. intros H. by exists a, p1.
Qed.

Lemma bind_run {A B} (m : M A) (k : A → M B) p a p1 :
  m p = (Ok a, p1) → bind m k p = k a p1.
Proof. unfold bind. by intros ->. Qed.

Lemma bind_throw {A B} (m : M A) (k : A → M B) p e p1 :
  m p = (Throw e, p1) → bind m k p = (Throw e, p1).
Proof. unfold bind. by intros ->. Qed.

Lemma preserved {A} R (m : M A) p r p' :
  preserves R m → m p = (r, p') → R p p'.
Proof. intros H E. specialize (H p). unfold after in H. by rewrite E in H. Qed.

Lemma modify_inv (f : page → page) p r p' : modify f p = (r, p') → p' = f p.
Proof. unfold modify. by intros [= _ <-]. Qed.

(** Split a successful run into the runs of its steps. *)
Ltac run_inv H :=
  repeat lazymatch type of H with
  | bind get _ _ = _ => unfold bind at 1, get at 1 in H
  | bind (ret _) _ _ = _ => unfold bind at 1, ret at 1 in H
  | bind _ _ _ = (Ok _, _) =>
      let a := fresh "a" in let q := fresh "q" in let E := fresh "E" in
      apply bind_ok in H as (a & q & E & H)
  | ret _ _ = _ => unfold ret in H
  end.

Lemma loadMenu_loaded p : isLoaded (ctl p) = true → loadMenu p = (Ok true, p).
Proof. intros Hp. unfold loadMenu, bind, get. by rewrite Hp. Qed.

(** C8.  Once [isLoaded] is set, [loadMenu] returns [true] and leaves
    the page as it is: no markup is built or assigned, no class is
    added and no listener is bound; and a call that returned [true]
    has set [isLoaded], so the next call is such a no-op. *)
Theorem loadMenu_idempotent p :
  (isLoaded (ctl p) = true → loadMenu p = (Ok true, p))
  ∧ (outcome loadMenu p = Ok true →
     isLoaded (ctl (after loadMenu p)) = true
     ∧ loadMenu (after loadMenu p) = (Ok true, after loadMenu p)).
Proof.
  assert (Hfirst : ∀ q, isLoaded (ctl q) = true → loadMenu q = (Ok true, q)).
  { intros q Hq. unfold loadMenu, bind, get. by rewrite Hq. }
  split; [apply Hfirst|].
  intros Hok.
  assert (Hl : isLoaded (ctl (after loadMenu p)) = true); [|by split; [|apply Hfirst]].
  unfold outcome, after in *. destruct (loadMenu p) as [r p'] eqn:E.
  simpl in Hok. subst r. simpl.
  unfold loadMenu in E. run_inv E.
  destruct (isLoaded (ctl p)) eqn:Hp; [by injection E as <-|].
  destruct (menu p) as [m|]; [|run_inv E; discriminate E].
  run_inv E. injection E as <-.
  apply (preserved same_ctl) in E7; [|apply ctl_bindEvents].
  rewrite E7. by rewrite (modify_inv _ _ _ _ E6).
Qed.

Lemma loadMenu_idempotent_witness :
  loadMenu (after loadMenu samplePage) = (Ok true, after loadMenu samplePage).
Proof.
  apply (proj2 (loadMenu_idempotent samplePage)). vm_compute. reflexivity.
Defined.

(** C2 (amended).  With the menu loaded, [open] returns [false] and
    changes nothing whenever the menu element carries the open class or
    the opening class; [close] returns [false] and changes nothing
    whenever the menu element does not carry the open class or carries
    the closing class. *)
Theorem open_close_guards p m :
  menu p = Some m →
  (isLoaded (ctl p) = true →
   has_class p m (openStatusClass (opts p)) = true
   ∨ has_class p m (animationOpenStatusClass (opts p)) = true →
   open p = (Ok false, p))
  ∧ (has_class p m (openStatusClass (opts p)) = false
     ∨ has_class p m (animationCloseStatusClass (opts p)) = true →
     close p = (Ok false, p)).
Proof.
  intros Hm. split.
  - intros Hl Hc. unfold open.
    rewrite (bind_run _ _ _ _ _ (loadMenu_loaded p Hl)).
    cbn [negb]. unfold bind, get, deref. rewrite Hm. unfold ret.
    destruct Hc as [-> | ->]; [done | by rewrite orb_true_r].
  - intros Hc. unfold close, bind, get, deref. rewrite Hm. unfold ret.
    destruct Hc as [-> | ->]; [done | by rewrite orb_true_r].
Qed.

Lemma open_close_guards_witness :
  close samplePage = (Ok false, samplePage)
  ∧ open (after open samplePage) = (Ok false, after open samplePage).
Proof.
  split.
  - apply (proj2 (open_close_guards samplePage 1 eq_refl)). left. reflexivity.
  - apply (proj1 (open_close_guards (after open samplePage) 1 eq_refl)).
    + vm_compute. reflexivity.
    + left. vm_compute. reflexivity.
Defined.

(** C2 as stated fails: on a page that is not loaded yet and whose menu
    element already carries the open class, [open] returns [false] but
    has loaded the menu. *)
Lemma open_guard_counterexample :
  has_class preopenedPage 1 "open" = true
  ∧ outcome open preopenedPage = Ok false
  ∧ isLoaded (ctl preopenedPage) = false
  ∧ isLoaded (ctl (after open preopenedPage)) = true
  ∧ length (effects_of open preopenedPage) = 10.
Proof. split_and!; vm_compute; reflexivity. Qed.

(** C3 (the code departs from it).  Without a menu element [loadMenu]
    warns and returns [false], and [open] returns [false]; [close]
    however dereferences the missing element and throws. *)
Theorem close_without_menu_throws p :
  menu p = None → isLoaded (ctl p) = false →
  loadMenu p = (Ok false, emit (Warned "Menu container not found. Can not load menu.") p)
  ∧ outcome open p = Ok false
  ∧ close p = (Throw TypeError, p).
Proof.
  intros Hm Hl.
  assert (E : loadMenu p
              = (Ok false, emit (Warned "Menu container not found. Can not load menu.") p)).
  { unfold loadMenu, bind, get. rewrite Hl, Hm. reflexivity. }
  split_and!; [done | |].
  - unfold outcome, open. by rewrite (bind_run _ _ _ _ _ E).
  - unfold close, bind, get, deref. by rewrite Hm.
Qed.

Lemma close_without_menu_throws_witness :
  close orphanPage = (Throw TypeError, orphanPage).
Proof. apply (close_without_menu_throws orphanPage); reflexivity. Defined.

(** C9.  [buildHtml] with no items and no parent throws; the step of
    [loadMenu] that calls it never does, because it skips the build
    when [menuItemsJson] is empty (and then leaves the page as it is). *)
Theorem buildHtml_empty_unreachable :
  (∀ cn tp level, buildHtml cn tp [] None level = Throw TypeError)
  ∧ (∀ p, ∃ p', renderMenu p = (Ok tt, p'))
  ∧ (∀ p, menuItemsJson (opts p) = [] → renderMenu p = (Ok tt, p)).
Proof.
  split_and!.
  - intros. reflexivity.
  - intros p. unfold renderMenu, bind, get.
    destruct (menuItemsJson (opts p)) as [|first rest] eqn:E; [by eexists|].
    cbn [is_empty]. unfold modify.
    destruct (_ && _); [|by eexists].
    destruct (buildHtml_root_ok (names (opts p))
                {| menuWrapTemplate := default [] (templateParts p "menuWrap");
                   menuItemTemplate := default [] (templateParts p "menuItem");
                   subMenuWrapTemplate := default [] (templateParts p "subMenuWrap") |}
                first rest 0) as [out Hout].
    cbn [opts set_ctl]. rewrite Hout. unfold assignInnerHtml, modify. by eexists.
  - intros p E. unfold renderMenu, bind, get. by rewrite E.
Qed.

(** ** The card that opens first *)

Lemma initialCard_spec p :
  initialCard p
  = if startOnHome (opts p) then head (activeCards (ctl p))
    else last (activeCards (ctl p)).
Proof.
  unfold initialCard. destruct (startOnHome (opts p)).
  - by destruct (activeCards (ctl p)).
  - rewrite last_lookup. by destruct (activeCards (ctl p)).
Qed.

Lemma deref_inv {A} (o : option A) p r p' :
  deref o p = (r, p') → p' = p ∧ match o with
                                | Some a => r = Ok a
                                | None => r = Throw TypeError
                                end.
Proof. destruct o; intros [= <- <-]; done. Qed.

Lemma forEach_remove_ctl tokens l p r p' :
  forEach (λ c, classList_remove c tokens) l p = (r, p') → ctl p' = ctl p.
Proof.
  intros E. apply (preserved same_ctl) in E; [done|].
  apply preserves_forEach; [tc_solve|]. intros x. apply ctl_classList_remove.
Qed.

(** [setOpenCard] completes only for a card, and records it. *)
Lemma setOpenCard_ok card p a p' :
  setOpenCard card p = (Ok a, p') →
  ∃ c, card = Some c ∧ ctl p' = with_openCard (Some c) (ctl p).
Proof.
  intros E. unfold setOpenCard in E. run_inv E.
  apply modify_inv in E0. subst q. cbn [ctl set_ctl opts] in *.
  apply forEach_remove_ctl in E1. cbn [ctl set_ctl] in E1.
  apply deref_inv in E2 as [-> E2]. destruct card as [c|]; [|done].
  injection E2 as ->. exists c. split; [done|].
  apply (preserved same_ctl) in E; [|apply ctl_classList_add].
  unfold same_ctl in E. congruence.
Qed.

(** C5.  After a call of [open] that returned [true], the open card is
    the first element of the active-card list when [startOnHome] is
    set, and its last element otherwise. *)
Theorem open_initial_card p :
  outcome open p = Ok true →
  is_Some (openCard (ctl (after open p)))
  ∧ openCard (ctl (after open p))
    = if startOnHome (opts p) then head (activeCards (ctl (after open p)))
      else last (activeCards (ctl (after open p))).
Proof.
  unfold outcome, after. destruct (open p) as [r p'] eqn:E. simpl. intros ->.
  pose proof (preserved same_setup _ _ _ _ setup_open E) as (Ho & _).
  unfold open in E. run_inv E.
  destruct a; cbn [negb] in E; [|discriminate E].
  run_inv E. apply deref_inv in E1 as [-> _].
  destruct (_ || _); [discriminate E|]. run_inv E.
  injection E as <-.
  destruct (setOpenCard_ok _ _ _ _ E9) as (c & Hc & Hctl).
  assert (Hfin : ctl q12 = ctl q8).
  { apply (preserved same_ctl _ _ _ _ ctl_resizeCards) in E10.
    apply (preserved same_ctl _ _ _ _ ctl_repositionCards) in E11.
    apply (preserved same_ctl _ _ _ _ (ctl_animateElement _ _ _ _ _)) in E12.
    apply (preserved same_ctl _ _ _ _ (ctl_setTimeout _ _)) in E13.
    unfold same_ctl in *. congruence. }
  assert (Hq : opts q7 = opts p).
  { apply (preserved same_setup _ _ _ _ setup_resizeCards) in E10 as (? & _).
    apply (preserved same_setup _ _ _ _ setup_repositionCards) in E11 as (? & _).
    apply (preserved same_setup _ _ _ _ (setup_animateElement _ _ _ _ _)) in E12 as (? & _).
    apply (preserved same_setup _ _ _ _ (setup_setTimeout _ _)) in E13 as (? & _).
    apply (preserved same_setup _ _ _ _ (setup_setOpenCard _)) in E9 as (? & _).
    congruence. }
  rewrite Hfin, Hctl. cbn [openCard activeCards with_openCard].
  split; [done|]. rewrite <- Hc, initialCard_spec, Hq. reflexivity.
Qed.

Lemma open_initial_card_witness :
  openCard (ctl (after open samplePage)) = last (activeCards (ctl (after open samplePage))).
Proof.
  apply (proj2 (open_initial_card samplePage eq_refl)).
Defined.

(** ** One open card *)

Lemma check_tokens_single token :
  check_token token = None → check_tokens [token] = None.
Proof. intros H. simpl. by rewrite H. Qed.

Lemma classList_remove_run n token p :
  check_token token = None →
  classList_remove n [token] p
  = (Ok tt, emit (ClassesRemoved n [token])
              (set_els (upd n (λ e, with_classList (remove_tokens [token] (classList e)) e)) p)).
Proof. intros H. unfold classList_remove. by rewrite (check_tokens_single _ H). Qed.

Lemma classList_add_run n token p :
  check_token token = None →
  classList_add n [token] p
  = (Ok tt, emit (ClassesAdded n [token])
              (set_els (upd n (λ e, with_classList (add_token (classList e) token) e)) p)).
Proof. intros H. unfold classList_add. by rewrite (check_tokens_single _ H). Qed.

Lemma not_in_remove_tokens token l : token ∉ remove_tokens [token] l.
Proof.
  unfold remove_tokens. rewrite list_elem_of_filter. intros [H _]. apply H. by left.
Qed.

Lemma remove_tokens_subset tokens l t : t ∈ remove_tokens tokens l → t ∈ l.
Proof. unfold remove_tokens. rewrite list_elem_of_filter. tauto. Qed.

Lemma in_add_token l token : token ∈ add_token l token.
Proof.
  unfold add_token. case_bool_decide; [done|]. apply elem_of_app. right. by left.
Qed.

(** The loop of [setOpenCard] takes the class off every card. *)
Lemma forEach_remove_all token l :
  check_token token = None →
  ∀ p (seen : list node),
    (∀ n, n ∈ seen → token ∉ classList (els p n)) →
    ∃ p', forEach (λ c, classList_remove c [token]) l p = (Ok tt, p')
          ∧ ctl p' = ctl p ∧ opts p' = opts p
          ∧ ∀ n, n ∈ seen ++ l → token ∉ classList (els p' n).
Proof.
  intros Htok. induction l as [|x l IH]; intros p seen Hseen.
  - exists p. rewrite app_nil_r. by split_and!.
  - cbn [forEach]. rewrite (bind_run _ _ _ _ _ (classList_remove_run x token p Htok)).
    destruct (IH (emit (ClassesRemoved x [token])
                    (set_els (upd x (λ e, with_classList
                       (remove_tokens [token] (classList e)) e)) p)) (seen ++ [x]))
      as (p' & E & Hc & Ho & Hall).
    + intros n Hn. cbn [els emit set_els]. unfold upd.
      destruct (decide (n = x)) as [->|Hne].
      * cbn [classList with_classList]. apply not_in_remove_tokens.
      * apply elem_of_app in Hn as [Hn|Hn]; [by apply Hseen|].
        apply list_elem_of_singleton in Hn. done.
    + exists p'. split_and!; [done | done | done |].
      intros n Hn. apply Hall. by rewrite <- app_assoc.
Qed.

Lemma setOpenCard_run p card :
  check_token (openCardStatusClass (opts p)) = None →
  ∃ p', setOpenCard (Some card) p = (Ok tt, p')
        ∧ ctl p' = with_openCard (Some card) (ctl p) ∧ opts p' = opts p
        ∧ (∀ n, n ∈ cards (ctl p) → n ≠ card →
                openCardStatusClass (opts p) ∉ classList (els p' n))
        ∧ openCardStatusClass (opts p) ∈ classList (els p' card).
Proof.
  intros Htok. unfold setOpenCard.
  unfold bind at 1, modify at 1. unfold bind at 1, get at 1.
  cbn [ctl set_ctl opts cards with_openCard].
  destruct (forEach_remove_all _ (cards (ctl p)) Htok (set_ctl (with_openCard (Some card)) p) [])
    as (q & E & Hc & Ho & Hn).
  { intros n Hn. by apply elem_of_nil in Hn. }
  cbn [opts set_ctl] in E. rewrite (bind_run _ _ _ _ _ E).
  unfold bind at 1, deref, ret. rewrite classList_add_run by done.
  eexists. split; [reflexivity|]. cbn [ctl emit set_els opts els].
  split_and!; [done | done | |].
  - intros n Hin Hne. unfold upd. destruct (decide (n = card)); [done|].
    by apply Hn.
  - unfold upd. destruct (decide (card = card)); [|done].
    cbn [classList with_classList]. apply in_add_token.
Qed.

Lemma one_open_card_frame p p' :
  same_classes p p' → ctl p' = ctl p → opts p' = opts p →
  one_open_card p → one_open_card p'.
Proof.
  intros Hcl Hc Ho H c Hin. unfold has_class. rewrite Hcl, Hc, Ho.
  apply H. by rewrite <- Hc.
Qed.

Lemma setOpenCard_one_open p card :
  check_token (openCardStatusClass (opts p)) = None →
  card ∈ cards (ctl p) →
  ∃ p', setOpenCard (Some card) p = (Ok tt, p')
        ∧ one_open_card p' ∧ openCard (ctl p') = Some card
        ∧ cards (ctl p') = cards (ctl p) ∧ opts p' = opts p.
Proof.
  intros Htok Hin. destruct (setOpenCard_run p card Htok) as (p' & E & Hc & Ho & Hoff & Hon).
  exists p'. split_and!; [done | | by rewrite Hc | by rewrite Hc | done].
  intros c Hcin. unfold has_class. rewrite Hc, Ho. cbn [openCard with_openCard].
  rewrite Hc in Hcin. cbn [cards with_openCard] in Hcin.
  rewrite bool_decide_eq_true. split.
  - intros Hshow. destruct (decide (c = card)) as [->|Hne]; [done|].
    exfalso. by apply (Hoff c).
  - by intros [= ->].
Qed.

Lemma after_bind {A B} (m : M A) (k : A → M B) p a q :
  m p = (Ok a, q) → after (bind m k) p = after (k a) q.
Proof. intros E. unfold after. by rewrite (bind_run _ _ _ _ _ E). Qed.


(** The accessibility and focus steps of [changeOpenCard] touch no
    class list and no controller field. *)
Lemma changeOpenCard_one_open p card :
  check_token (openCardStatusClass (opts p)) = None →
  card ∈ cards (ctl p) →
  one_open_card (after (changeOpenCard (Some card)) p)
  ∧ openCard (ctl (after (changeOpenCard (Some card)) p)) = Some card
  ∧ cards (ctl (after (changeOpenCard (Some card)) p)) = cards (ctl p)
  ∧ opts (after (changeOpenCard (Some card)) p) = opts p.
Proof.
  intros Htok Hin.
  destruct (setOpenCard_one_open p card Htok Hin) as (q & E & Hone & Hopen & Hcards & Ho).
  unfold changeOpenCard. rewrite (after_bind _ _ _ _ _ E).
  set (rest := toggleTabIndexOnOpenCard >> toggleWaiAriaForOpenCard
               >> focusFirstItemOfOpenCard 0).
  assert (Hcl : preserves same_classes rest) by (unfold rest; frame).
  assert (Hc : preserves same_ctl rest) by (unfold rest; frame).
  assert (Hs : preserves same_setup rest) by (unfold rest; frame).
  specialize (Hcl q). specialize (Hc q). destruct (Hs q) as (Hopts & _).
  unfold same_ctl in Hc.
  split_and!; [by apply (one_open_card_frame q) | congruence | congruence | congruence].
Qed.

Lemma elem_of_remove_tokens t tokens l :
  t ∈ remove_tokens tokens l ↔ t ∈ l ∧ t ∉ tokens.
Proof. unfold remove_tokens. rewrite list_elem_of_filter. tauto. Qed.

(** Removing another class from an element keeps the invariant. *)
Lemma classList_remove_one_open n token p :
  token ≠ openCardStatusClass (opts p) →
  one_open_card p → one_open_card (after (classList_remove n [token]) p).
Proof.
  intros Hne H. unfold after, classList_remove.
  destruct (check_tokens [token]); [exact H|].
  intros c Hin. cbn [snd modify] in *. unfold has_class in *.
  cbn [els emit set_els opts ctl] in *. rewrite <- (H c Hin).
  unfold upd. destruct (decide (c = n)) as [->|]; [|done].
  cbn [classList with_classList]. unfold has_class.
  rewrite !bool_decide_eq_true, elem_of_remove_tokens.
  split; [by intros [? _]|]. intros Hs. split; [done|].
  intros Hx. apply list_elem_of_singleton in Hx. congruence.
Qed.


(** The two deferred card changes. *)
Lemma card_change_one_open p card other token event :
  check_token (openCardStatusClass (opts p)) = None →
  card ∈ cards (ctl p) →
  token ≠ openCardStatusClass (opts p) →
  one_open_card
    (after (changeOpenCard (Some card) >> classList_remove other [token]
            >> dispatchEvent event) p)
  ∧ openCard (ctl (after (changeOpenCard (Some card) >> classList_remove other [token]
                          >> dispatchEvent event) p)) = Some card.
Proof.
  intros Htok Hin Hne.
  destruct (changeOpenCard_one_open p card Htok Hin) as (Hone & Hopen & _ & Ho).
  unfold after in *.
  destruct (changeOpenCard (Some card) p) as [[a|e] q] eqn:E; cbn [snd] in *.
  - rewrite (bind_run _ _ _ _ _ E).
    pose proof (classList_remove_one_open other token q) as Hrem.
    rewrite Ho in Hrem. specialize (Hrem Hne Hone).
    pose proof (ctl_classList_remove other [token] q) as Hc.
    unfold after, same_ctl in *.
    destruct (classList_remove other [token] q) as [[a'|e] q'] eqn:E'; cbn [snd] in *.
    + rewrite (bind_run _ _ _ _ _ E'). cbn. split; [exact Hrem | congruence].
    + rewrite (bind_throw _ _ _ _ _ E'). cbn. split; [exact Hrem | congruence].
  - rewrite (bind_throw _ _ _ _ _ E). cbn. by split.
Qed.

(** After a load, the active cards are among the cached cards. *)
Lemma loadMenu_active_cards p p' :
  loadMenu p = (Ok true, p') →
  (isLoaded (ctl p) = true → activeCards (ctl p) ⊆ cards (ctl p)) →
  activeCards (ctl p') ⊆ cards (ctl p').
Proof.
  intros E Hwf. unfold loadMenu in E. run_inv E.
  destruct (isLoaded (ctl p)) eqn:Hp; [injection E as <-; by apply Hwf|].
  destruct (menu p) as [m|]; [|run_inv E; discriminate E].
  run_inv E. injection E as <-.
  apply modify_inv in E1, E3, E6. apply deref_inv in E4 as [-> _].
  assert (H2c : ctl q1 = ctl q0 ∧ tree q1 = tree q0).
  { split.
    - apply (preserved same_ctl) in E2; [done|]. destruct (cardNodes (tree q)); frame.
    - apply (preserved same_tree) in E2; [done|]. destruct (cardNodes (tree q)); frame. }
  destruct H2c as [H2c H2t].
  apply (preserved same_ctl _ _ _ _ (ctl_setStyle _ _ _)) in E5.
  apply (preserved same_ctl _ _ _ _ ctl_bindEvents) in E7.
  unfold same_ctl in *. rewrite E7, E6. cbn [ctl set_ctl]. rewrite E5, E3.
  cbn [ctl set_ctl activeCards cards with_isLoaded with_activeCards].
  rewrite H2c, H2t, E1. cbn [ctl set_ctl cards with_cached tree].
  intros x Hx. apply list_elem_of_filter in Hx. tauto.
Qed.

(** What a successful [open] went through. *)
Lemma open_ok_inv p p' :
  open p = (Ok true, p') →
  ∃ q q7 c q8 m,
    loadMenu p = (Ok true, q) ∧ menu p = Some m
    ∧ ctl q7 = ctl q ∧ opts q7 = opts p
    ∧ initialCard q7 = Some c
    ∧ setOpenCard (Some c) q7 = (Ok tt, q8)
    ∧ same_classes q8 p' ∧ ctl p' = ctl q8 ∧ opts p' = opts p.
Proof.
  intros E.
  pose proof (preserved same_setup _ _ _ _ setup_open E) as (Ho & _).
  unfold open in E. run_inv E.
  destruct a; cbn [negb] in E; [|discriminate E].
  run_inv E. apply deref_inv in E1 as [-> Hm].
  pose proof (preserved same_setup _ _ _ _ setup_loadMenu E0) as (Hoq & _ & Hmq & _).
  destruct (menu q) as [m|] eqn:Hmenu; [|discriminate Hm]. injection Hm as ->.
  destruct (_ || _); [discriminate E|]. run_inv E.
  injection E as <-.
  destruct (setOpenCard_ok _ _ _ _ E9) as (c & Hc & Hctl).
  exists q, q7, c, q8, m. rewrite Hc in E9. destruct a7.
  split_and!; try done.
  - apply (preserved same_ctl _ _ _ _ (ctl_dispatchEvent _)) in E1, E2.
    apply (preserved same_ctl _ _ _ _ ctl_toggleNoScroll) in E3.
    apply (preserved same_ctl _ _ _ _ ctl_disableTabIndexOnAllCards) in E4.
    apply (preserved same_ctl _ _ _ _ ctl_positionMenu) in E5.
    apply (preserved same_ctl _ _ _ _ (ctl_classList_add _ _)) in E6, E7.
    apply (preserved same_ctl _ _ _ _ (ctl_setAttribute _ _ _)) in E8.
    unfold same_ctl in *. congruence.
  - apply (preserved same_setup _ _ _ _ (setup_dispatchEvent _)) in E1 as (? & _), E2 as (? & _).
    apply (preserved same_setup _ _ _ _ setup_toggleNoScroll) in E3 as (? & _).
    apply (preserved same_setup _ _ _ _ setup_disableTabIndexOnAllCards) in E4 as (? & _).
    apply (preserved same_setup _ _ _ _ setup_positionMenu) in E5 as (? & _).
    apply (preserved same_setup _ _ _ _ (setup_classList_add _ _)) in E6 as (? & _), E7 as (? & _).
    apply (preserved same_setup _ _ _ _ (setup_setAttribute _ _ _)) in E8 as (? & _).
    congruence.
  - apply (preserved same_classes _ _ _ _ classes_resizeCards) in E10.
    apply (preserved same_classes _ _ _ _ classes_repositionCards) in E11.
    apply (preserved same_classes _ _ _ _ (classes_animateElement _ _ _ _ _)) in E12.
    apply (preserved same_classes _ _ _ _ (classes_setTimeout _ _)) in E13.
    by repeat (etransitivity; [eassumption|]).
  - apply (preserved same_ctl _ _ _ _ ctl_resizeCards) in E10.
    apply (preserved same_ctl _ _ _ _ ctl_repositionCards) in E11.
    apply (preserved same_ctl _ _ _ _ (ctl_animateElement _ _ _ _ _)) in E12.
    apply (preserved same_ctl _ _ _ _ (ctl_setTimeout _ _)) in E13.
    unfold same_ctl in *. congruence.
Qed.

Lemma exactly_open_intro p c :
  c ∈ cards (ctl p) → openCard (ctl p) = Some c → one_open_card p → exactly_open p c.
Proof.
  intros Hin Hopen Hone. split_and!; [done | done |].
  intros x Hx. rewrite (Hone x Hx), Hopen. split; [by intros [= ->] | by intros ->].
Qed.

(** C4 (amended).  After [setOpenCard], after [changeOpenCard] and
    after the deferred steps of the next and previous navigation, with
    a card that is one of the collection [$cards], and after a
    successful [open], exactly one card of the collection carries the
    open-card class, and it is the card recorded as [$openCard]; the
    animation classes differ from the open-card class.  The code does
    not check that the element it is handed is one of the collection:
    with an element that is not, [setOpenCard] records it as
    [$openCard] and no card of the collection carries the class. *)
Theorem one_card_open p :
  check_token (openCardStatusClass (opts p)) = None →
  (∀ card, card ∈ cards (ctl p) →
     (outcome (setOpenCard (Some card)) p = Ok tt
      ∧ exactly_open (after (setOpenCard (Some card)) p) card)
     ∧ exactly_open (after (changeOpenCard (Some card)) p) card
     ∧ (animationOpenStatusClass (opts p) ≠ openCardStatusClass (opts p) →
        exactly_open (after (run_callback (NextDone card)) p) card)
     ∧ (animationCloseStatusClass (opts p) ≠ openCardStatusClass (opts p) →
        ∀ controlledCard,
          exactly_open (after (run_callback (PreviousDone card controlledCard)) p) card))
  ∧ ((isLoaded (ctl p) = true → activeCards (ctl p) ⊆ cards (ctl p)) →
     outcome open p = Ok true →
     ∃ card, exactly_open (after open p) card)
  ∧ (∀ el, el ∉ cards (ctl p) →
       outcome (setOpenCard (Some el)) p = Ok tt
       ∧ openCard (ctl (after (setOpenCard (Some el)) p)) = Some el
       ∧ ∀ x, x ∈ cards (ctl p) →
              has_class (after (setOpenCard (Some el)) p) x (openCardStatusClass (opts p))
              = false).
Proof.
  intros Htok. split; [|split].
  - intros card Hin. split; [|split; [|split]].
    + destruct (setOpenCard_one_open p card Htok Hin) as (q & E & Hone & Hopen & Hcards & _).
      unfold outcome, after. rewrite E. cbn [fst snd].
      split; [done|]. apply exactly_open_intro; [by rewrite Hcards | done | done].
    + destruct (changeOpenCard_one_open p card Htok Hin) as (Hone & Hopen & Hcards & _).
      apply exactly_open_intro; [by rewrite Hcards | done | done].
    + intros Hne.
      destruct (card_change_one_open p card card _ "madj2k-slidemenu-next-opened" Htok Hin Hne)
        as [Hone Hopen].
      assert (Hcards : cards (ctl (after (run_callback (NextDone card)) p)) = cards (ctl p)).
      { change (after (run_callback (NextDone card)) p)
          with (after (changeOpenCard (Some card)
                       >> classList_remove card [animationOpenStatusClass (opts p)]
                       >> dispatchEvent "madj2k-slidemenu-next-opened") p).
        destruct (changeOpenCard_one_open p card Htok Hin) as (_ & _ & Hcc & _).
        unfold after in *.
        destruct (changeOpenCard (Some card) p) as [[a|e] q] eqn:E; cbn [snd] in *.
        - rewrite (bind_run _ _ _ _ _ E).
          assert (Hr : preserves same_ctl
                         (classList_remove card [animationOpenStatusClass (opts p)]
                          >> dispatchEvent "madj2k-slidemenu-next-opened")) by frame.
          specialize (Hr q). unfold after, same_ctl in Hr. congruence.
        - by rewrite (bind_throw _ _ _ _ _ E). }
      apply exactly_open_intro; [by rewrite Hcards | exact Hopen | exact Hone].
    + intros Hne controlledCard.
      destruct (card_change_one_open p card controlledCard _
                  "madj2k-slidemenu-previous-opened" Htok Hin Hne) as [Hone Hopen].
      assert (Hcards : cards (ctl (after (run_callback (PreviousDone card controlledCard)) p))
                       = cards (ctl p)).
      { change (after (run_callback (PreviousDone card controlledCard)) p)
          with (after (changeOpenCard (Some card)
                       >> classList_remove controlledCard [animationCloseStatusClass (opts p)]
                       >> dispatchEvent "madj2k-slidemenu-previous-opened") p).
        destruct (changeOpenCard_one_open p card Htok Hin) as (_ & _ & Hcc & _).
        unfold after in *.
        destruct (changeOpenCard (Some card) p) as [[a|e] q] eqn:E; cbn [snd] in *.
        - rewrite (bind_run _ _ _ _ _ E).
          assert (Hr : preserves same_ctl
                         (classList_remove controlledCard [animationCloseStatusClass (opts p)]
                          >> dispatchEvent "madj2k-slidemenu-previous-opened")) by frame.
          specialize (Hr q). unfold after, same_ctl in Hr. congruence.
        - by rewrite (bind_throw _ _ _ _ _ E). }
      apply exactly_open_intro; [by rewrite Hcards | exact Hopen | exact Hone].
  - intros Hwf. unfold outcome, after. destruct (open p) as [r p'] eqn:E.
    cbn [fst snd]. intros ->.
    destruct (open_ok_inv p p' E)
      as (q & q7 & c & q8 & m & El & Hm & Hctl & Ho & Hinit & Eset & Hcl & Hc8 & Hop).
    pose proof (loadMenu_active_cards p q El Hwf) as Hsub.
    assert (Hin : c ∈ cards (ctl q7)).
    { rewrite Hctl. apply Hsub. rewrite <- Hctl.
      unfold initialCard in Hinit.
      destruct (startOnHome (opts q7)); [by eapply list_elem_of_lookup_2|].
      destruct (length (activeCards (ctl q7))); [done|].
      by eapply list_elem_of_lookup_2. }
    rewrite <- Ho in Htok.
    destruct (setOpenCard_one_open q7 c Htok Hin) as (q8' & E' & Hone & Hopen & Hcards & Ho8).
    rewrite Eset in E'. injection E' as <-.
    exists c. apply exactly_open_intro.
    + rewrite Hc8, Hcards. exact Hin.
    + by rewrite Hc8.
    + apply (one_open_card_frame q8); [done | done | congruence | done].
  - intros el Hel.
    destruct (setOpenCard_run p el Htok) as (q & E & Hc & _ & Hothers & _).
    unfold outcome, after. rewrite E. cbn [fst snd]. split_and!; [done | (by rewrite Hc) |].
    intros x Hx. apply bool_decide_eq_false. apply Hothers; [done|].
    intros ->. by apply Hel.
Qed.

Lemma one_card_open_witness :
  exactly_open (after (changeOpenCard (Some 11)) (after loadMenu samplePage)) 11.
Proof.
  assert (Htok : check_token (openCardStatusClass (opts (after loadMenu samplePage))) = None)
    by (vm_compute; reflexivity).
  assert (Hin : 11 ∈ cards (ctl (after loadMenu samplePage))) by compute_done.
  exact (proj1 (proj2 (proj1 (one_card_open (after loadMenu samplePage) Htok) 11 Hin))).
Defined.

(** C4 as stated does not hold: the element handed to [setOpenCard]
    need not be a card.  On the loaded sample page the link 22 is no
    card: after [setOpenCard] for it, [$openCard] is 22 and none of the
    three cards carries the open-card class.  The navigation reaches
    this state: when the next toggle 20 names the link in
    [aria-controls], a click on it defers [NextDone] for the link, and
    when that timer has run [$openCard] is the link and no card carries
    the class. *)
Lemma one_card_open_counterexample :
  ((22 ∉ cards (ctl (after loadMenu samplePage)))
   ∧ outcome (setOpenCard (Some 22)) (after loadMenu samplePage) = Ok tt
   ∧ openCard (ctl (after (setOpenCard (Some 22)) (after loadMenu samplePage))) = Some 22
   ∧ cards (ctl (after (setOpenCard (Some 22)) (after loadMenu samplePage))) = [10; 11; 12]
   ∧ Forall (λ c, has_class (after (setOpenCard (Some 22)) (after loadMenu samplePage)) c "show"
                  = false) [10; 11; 12])
  ∧ (elementByAttribute strayPage 20 "aria-controls" = Some 22
     ∧ cards (ctl strayPage) = [10; 11; 12]
     ∧ outcome (nextCardEvent 20) strayPage = Ok tt
     ∧ timers (after (nextCardEvent 20) strayPage) = [(500, NextDone 22)]
     ∧ outcome (run_callback (NextDone 22)) (after (nextCardEvent 20) strayPage) = Ok tt
     ∧ openCard (ctl (after (run_callback (NextDone 22)) (after (nextCardEvent 20) strayPage)))
       = Some 22
     ∧ Forall (λ c, has_class (after (run_callback (NextDone 22))
                                 (after (nextCardEvent 20) strayPage)) c "show" = false)
         [10; 11; 12]).
Proof.
  split; split_and!.
  - compute_done.
  - vm_compute. reflexivity.
  - vm_compute. reflexivity.
  - vm_compute. reflexivity.
  - repeat constructor; vm_compute; reflexivity.
  - vm_compute. reflexivity.
  - vm_compute. reflexivity.
  - vm_compute. reflexivity.
  - vm_compute. reflexivity.
  - vm_compute. reflexivity.
  - vm_compute. reflexivity.
  - repeat constructor; vm_compute; reflexivity.
Qed.


(** ** What a call writes to the log *)

#[local] Instance log_only_preorder P : PreOrder (log_only P).
Proof.
  split.
  - intros p. exists []. by rewrite app_nil_r.
  - intros p q r (l1 & E1 & H1) (l2 & E2 & H2). exists (l1 ++ l2).
    rewrite E2, E1, app_assoc. split; [done | by apply Forall_app].
Qed.


Lemma log_effects {A} (m : M A) p :
  preserves log_grows m → log (after m p) = log p ++ effects_of m p.
Proof.
  intros H. destruct (H p) as (l & E). unfold effects_of.
  by rewrite E, drop_app_length.
Qed.

Section LogOnly.
Variable P : effect → Prop.

Lemma only_emit e : P e → preserves (log_only P) (modify (emit e)).
Proof. intros He p. exists [e]. split; [done | by constructor]. Qed.

Lemma only_quiet (f : page → page) :
  (∀ p, log (f p) = log p) → preserves (log_only P) (modify f).
Proof. intros Hf p. exists []. unfold after, modify. cbn. by rewrite Hf, app_nil_r. Qed.

Lemma only_classList_add n t :
  P (ClassesAdded n t) → preserves (log_only P) (classList_add n t).
Proof.
  intros He. unfold classList_add. destruct (check_tokens t).
  - apply preserves_throw. tc_solve.
  - intros p. exists [ClassesAdded n t]. split; [done | by constructor].
Qed.

Lemma only_classList_remove n t :
  P (ClassesRemoved n t) → preserves (log_only P) (classList_remove n t).
Proof.
  intros He. unfold classList_remove. destruct (check_tokens t).
  - apply preserves_throw. tc_solve.
  - intros p. exists [ClassesRemoved n t]. split; [done | by constructor].
Qed.

Lemma only_setAttribute n k v :
  P (AttributeSet n k v) → preserves (log_only P) (setAttribute n k v).
Proof. intros He p. exists [AttributeSet n k v]. split; [done | by constructor]. Qed.

Lemma only_removeAttribute n k :
  P (AttributeRemoved n k) → preserves (log_only P) (removeAttribute n k).
Proof. intros He p. exists [AttributeRemoved n k]. split; [done | by constructor]. Qed.

Lemma only_setStyle n k v :
  P (StyleSet n k v) → preserves (log_only P) (setStyle n k v).
Proof. intros He p. exists [StyleSet n k v]. split; [done | by constructor]. Qed.

Lemma only_dispatchEvent e :
  P (Dispatched e) → preserves (log_only P) (dispatchEvent e).
Proof. apply only_emit. Qed.

Lemma only_setTimeout cb d :
  P (TimerSet d cb) → preserves (log_only P) (setTimeout cb d).
Proof. intros He p. exists [TimerSet d cb]. split; [done | by constructor]. Qed.

Lemma only_requestAnimationFrame cb :
  P (FrameRequested cb) → preserves (log_only P) (requestAnimationFrame cb).
Proof. intros He p. exists [FrameRequested cb]. split; [done | by constructor]. Qed.

Lemma only_scrollTo z :
  P (ScrolledTo z) → preserves (log_only P) (scrollTo z).
Proof. intros He p. exists [ScrolledTo z]. split; [done | by constructor]. Qed.
End LogOnly.

#[local] Hint Extern 1 (preserves (log_only _) (classList_add _ _)) =>
  apply only_classList_add; cbn; done : frames.
#[local] Hint Extern 1 (preserves (log_only _) (classList_remove _ _)) =>
  apply only_classList_remove; cbn; done : frames.
#[local] Hint Extern 1 (preserves (log_only _) (setAttribute _ _ _)) =>
  apply only_setAttribute; cbn; done : frames.
#[local] Hint Extern 1 (preserves (log_only _) (removeAttribute _ _)) =>
  apply only_removeAttribute; cbn; done : frames.
#[local] Hint Extern 1 (preserves (log_only _) (setStyle _ _ _)) =>
  apply only_setStyle; cbn; done : frames.
#[local] Hint Extern 1 (preserves (log_only _) (dispatchEvent _)) =>
  apply only_dispatchEvent; cbn; done : frames.
#[local] Hint Extern 1 (preserves (log_only _) (setTimeout _ _)) =>
  apply only_setTimeout; cbn; done : frames.
#[local] Hint Extern 1 (preserves (log_only _) (requestAnimationFrame _)) =>
  apply only_requestAnimationFrame; cbn; done : frames.
#[local] Hint Extern 1 (preserves (log_only _) (scrollTo _)) =>
  apply only_scrollTo; cbn; done : frames.
#[local] Hint Extern 1 (preserves (log_only _) (modify (set_els _))) =>
  apply only_quiet; done : frames.
#[local] Hint Extern 1 (preserves (log_only _) (modify (set_ctl _))) =>
  apply only_quiet; done : frames.

Lemma after_get {A} (k : page → M A) p : after (bind get k) p = after (k p) p.
Proof. reflexivity. Qed.

(** Between the two events and the class change of the menu, [open]
    locks the scroll position, takes the menu out of the tab order and
    positions it: nothing is dispatched, and a class is added to the
    body at most. *)
Lemma quiet_toggleNoScroll p :
  log_only (quiet_except_classes_of (bodyNode p)) p (after toggleNoScroll p).
Proof.
  unfold toggleNoScroll. rewrite after_get.
  match goal with |- log_only ?P p (after ?m p) =>
    assert (H : preserves (log_only P) m); [|apply H] end.
  frame.
Qed.

Lemma quiet_disableTabIndexOnAllCards b :
  preserves (log_only (quiet_except_classes_of b)) disableTabIndexOnAllCards.
Proof. unfold disableTabIndexOnAllCards. frame. Qed.

Lemma quiet_positionMenu b :
  preserves (log_only (quiet_except_classes_of b)) positionMenu.
Proof. unfold positionMenu. frame. Qed.

Lemma emit_log e p r p' : modify (emit e) p = (r, p') → log p' = log p ++ [e].
Proof. intros E. by rewrite (modify_inv _ _ _ _ E). Qed.

Lemma classList_add_log n t p a p' :
  classList_add n t p = (Ok a, p') → log p' = log p ++ [ClassesAdded n t].
Proof.
  unfold classList_add. destruct (check_tokens t); [done|].
  intros E. by rewrite (modify_inv _ _ _ _ E).
Qed.

(** C10.  A call of [open] that returns [true] dispatches
    ['madj2k-flyoutmenu-close'] and next ['madj2k-slidemenu-opening'],
    at a moment when the menu element carries neither the open nor the
    opening class; the two classes are added to the menu later in the
    call, and nothing is dispatched in between. *)
Theorem open_dispatch_order p m :
  menu p = Some m → outcome open p = Ok true →
  has_class (after loadMenu p) m (openStatusClass (opts p)) = false
  ∧ has_class (after loadMenu p) m (animationOpenStatusClass (opts p)) = false
  ∧ ∃ mid rest,
      effects_of open p
      = effects_of loadMenu p
        ++ [Dispatched "madj2k-flyoutmenu-close"; Dispatched "madj2k-slidemenu-opening"]
        ++ mid
        ++ ClassesAdded m [openStatusClass (opts p); animationOpenStatusClass (opts p)]
           :: rest
      ∧ Forall (quiet_except_classes_of (bodyNode p)) mid.
Proof.
  intros Hm. unfold outcome. destruct (open p) as [r p'] eqn:E. cbn [fst]. intros ->.
  assert (Hafter : after open p = p') by (unfold after; by rewrite E).
  unfold effects_of at 1. rewrite Hafter. clear Hafter.
  unfold open in E. run_inv E.
  destruct a; cbn [negb] in E; [|discriminate E].
  assert (Hq : after loadMenu p = q) by (unfold after; by rewrite E0).
  pose proof (log_effects loadMenu p log_loadMenu) as Hlq. rewrite Hq in Hlq.
  pose proof (preserved same_setup _ _ _ _ setup_loadMenu E0) as (Hoq & _ & Hmq & _ & Hbq & _).
  rewrite Hq. clear Hq.
  run_inv E. apply deref_inv in E1 as [-> Hd]. rewrite Hmq, Hm in Hd. injection Hd as ->.
  destruct (has_class q m (openStatusClass (opts q))
            || has_class q m (animationOpenStatusClass (opts q))) eqn:G;
    [discriminate E|].
  apply orb_false_elim in G as [G1 G2]. rewrite Hoq in G1, G2.
  split; [exact G1|]. split; [exact G2|].
  run_inv E. injection E as <-.
  pose proof (preserved same_setup _ _ _ _ (setup_dispatchEvent _) E1) as (_&_&_&_&Hb1&_).
  pose proof (preserved same_setup _ _ _ _ (setup_dispatchEvent _) E2) as (_&_&_&_&Hb2&_).
  apply emit_log in E1, E2.
  assert (Hmid : log_only (quiet_except_classes_of (bodyNode p)) q1 q4).
  { pose proof (quiet_toggleNoScroll q1) as H3.
    unfold after in H3. rewrite E3 in H3. cbn [snd] in H3.
    assert (Hb : bodyNode q1 = bodyNode p) by congruence. rewrite Hb in H3.
    pose proof (preserved _ _ _ _ _ (quiet_disableTabIndexOnAllCards (bodyNode p)) E4) as H4.
    pose proof (preserved _ _ _ _ _ (quiet_positionMenu (bodyNode p)) E5) as H5.
    etransitivity; [exact H3|]. etransitivity; [exact H4 | exact H5]. }
  destruct Hmid as (mid & Emid & Hmid).
  apply classList_add_log in E6. rewrite Hoq in E6.
  assert (Hrest : log_grows q5 q12).
  { apply (preserved log_grows _ _ _ _ (log_classList_add _ _)) in E7.
    apply (preserved log_grows _ _ _ _ (log_setAttribute _ _ _)) in E8.
    apply (preserved log_grows _ _ _ _ (log_setOpenCard _)) in E9.
    apply (preserved log_grows _ _ _ _ log_resizeCards) in E10.
    apply (preserved log_grows _ _ _ _ log_repositionCards) in E11.
    apply (preserved log_grows _ _ _ _ (log_animateElement _ _ _ _ _)) in E12.
    apply (preserved log_grows _ _ _ _ (log_setTimeout _ _)) in E13.
    by repeat (etransitivity; [eassumption|]). }
  destruct Hrest as (rest & Erest).
  exists mid, rest. split; [|exact Hmid].
  rewrite Erest, E6, Emid, E2, E1, Hlq.
  rewrite <- !app_assoc. rewrite drop_app_length. cbn [app]. reflexivity.
Qed.

Lemma open_dispatch_order_witness :
  has_class (after loadMenu samplePage) 1 "open" = false.
Proof.
  apply (open_dispatch_order samplePage 1 eq_refl). vm_compute. reflexivity.
Defined.

(** ** The close timer *)

Lemma has_class_remove_false n tokens x token p :
  has_class p x token = false →
  has_class (set_els (upd n (λ e, with_classList (remove_tokens tokens (classList e)) e)) p)
    x token = false.
Proof.
  unfold has_class. rewrite !bool_decide_eq_false. cbn [els set_els]. unfold upd.
  destruct (decide (x = n)) as [->|]; [|done].
  cbn [classList with_classList]. intros H Hin. apply H.
  by eapply remove_tokens_subset.
Qed.

Lemma classList_upd_keep n f (e : node → element) x :
  (∀ el, classList (f el) = classList el) → classList (upd n f e x) = classList (e x).
Proof. intros Hf. unfold upd. by destruct (decide (x = n)). Qed.

Lemma check_tokens_pair a b :
  check_tokens [a; b] = None → check_tokens [b] = None.
Proof. simpl. destruct (check_token a); [done|]. by destruct (check_token b). Qed.

(** C6 (the code departs from it).  When the close timer fires on a
    document that does not overflow the window, with the scroll helper
    enabled, the callback removes the classes and then throws in
    [toggleNoScroll], where it adds the empty class name to the body;
    ['madj2k-slidemenu-closed'] is not dispatched. *)
Theorem close_timer_throws_without_overflow p m helper inner :
  menu p = Some m →
  scrollHelper (opts p) = true →
  scrollHelperNode p = Some helper → scrollInnerNode p = Some inner →
  has_class p (bodyNode p) (openStatusBodyClass (opts p)) = false →
  (scrollHeight (view p) ≤ innerHeight (view p))%Z →
  check_tokens [openStatusClass (opts p); animationCloseStatusClass (opts p)] = None →
  outcome (run_callback CloseDone) p = Throw SyntaxError
  ∧ Forall (not_event "madj2k-slidemenu-closed") (effects_of (run_callback CloseDone) p)
  ∧ has_class (after (run_callback CloseDone) p) (bodyNode p) (openStatusBodyClass (opts p))
    = false.
Proof.
  intros Hm Hs Hh Hi Hb Hov Htok.
  pose proof (check_tokens_pair _ _ Htok) as Htok2.
  assert (Hno : (innerHeight (view p) <? scrollHeight (view p))%Z = false)
    by (apply Z.ltb_ge; lia).
  assert (E : ∃ p', run_callback CloseDone p = (Throw SyntaxError, p')
                    ∧ (∃ l, log p' = log p ++ l
                            ∧ Forall (not_event "madj2k-slidemenu-closed") l)
                    ∧ has_class p' (bodyNode p) (openStatusBodyClass (opts p)) = false).
  { unfold run_callback. unfold bind at 1, get at 1. rewrite Hm.
    unfold bind at 1, deref at 1, ret at 1.
    unfold bind at 1, classList_remove at 1. rewrite Htok. unfold modify at 1.
    unfold bind at 1, classList_remove at 1. rewrite Htok2. unfold modify at 1.
    unfold bind at 1, toggleNoScroll at 1. unfold bind at 1, get at 1.
    cbn [opts emit set_els view bodyNode scrollHelperNode scrollInnerNode scrollTop].
    rewrite Hs, Hno.
    match goal with |- context [has_class ?q (bodyNode p) ?c] =>
      assert (Hb' : has_class q (bodyNode p) c = false)
        by (unfold has_class in *; cbn [els emit]; fold (has_class p);
            apply has_class_remove_false, has_class_remove_false, Hb) end.
    rewrite Hb'. cbn [negb]. rewrite Hh, Hi.
    eexists. split; [reflexivity|]. cbn [log emit set_els els]. split.
    - eexists. rewrite <- !app_assoc. split; [reflexivity|].
      repeat constructor; discriminate.
    - unfold has_class in *. cbn [els emit set_els] in *.
      rewrite !classList_upd_keep by done. exact Hb'. }
  destruct E as (p' & E & (l & El & Hl) & Hb').
  unfold outcome, effects_of, after. rewrite E. cbn [fst snd].
  rewrite El, drop_app_length. by split_and!.
Qed.

Lemma close_timer_throws_without_overflow_witness :
  outcome (run_callback CloseDone) closingShortPage = Throw SyntaxError.
Proof.
  apply (close_timer_throws_without_overflow closingShortPage 1 3 4);
    vm_compute; try reflexivity.
  discriminate.
Defined.

(** ** The synchronous part of [close] *)

#[local] Instance keeps_attribute_preorder n name value :
  PreOrder (keeps_attribute n name value).
Proof.
  split; [intros p H; exact H | intros p q r Hpq Hqr H; apply Hqr, Hpq, H].
Qed.

Lemma keeps_setAttribute_other n name value el k v :
  k ≠ name → preserves (keeps_attribute n name value) (setAttribute el k v).
Proof.
  intros Hk p. unfold keeps_attribute, attribute_of, after, setAttribute, modify.
  cbn [snd els emit set_els]. unfold upd. destruct (decide (n = el)) as [->|]; [|done].
  cbn [attributes with_attributes]. by rewrite lookup_insert_ne.
Qed.

Lemma keeps_setAttribute_same n name value el :
  preserves (keeps_attribute n name value) (setAttribute el name value).
Proof.
  intros p. unfold keeps_attribute, attribute_of, after, setAttribute, modify.
  cbn [snd els emit set_els]. unfold upd. destruct (decide (n = el)) as [->|]; [|done].
  cbn [attributes with_attributes]. by rewrite lookup_insert_eq.
Qed.

Lemma keeps_removeAttribute_other n name value el k :
  k ≠ name → preserves (keeps_attribute n name value) (removeAttribute el k).
Proof.
  intros Hk p. unfold keeps_attribute, attribute_of, after, removeAttribute, modify.
  cbn [snd els emit set_els]. unfold upd. destruct (decide (n = el)) as [->|]; [|done].
  cbn [attributes with_attributes with_style]. by rewrite lookup_delete_ne.
Qed.

Lemma keeps_setStyle n name value el k v :
  preserves (keeps_attribute n name value) (setStyle el k v).
Proof.
  intros p. unfold keeps_attribute, attribute_of, after, setStyle, modify.
  cbn [snd els emit set_els]. unfold upd. by destruct (decide (n = el)) as [->|].
Qed.

Lemma keeps_setTimeout n name value cb d :
  preserves (keeps_attribute n name value) (setTimeout cb d).
Proof. intros p H. exact H. Qed.

Lemma keeps_requestAnimationFrame n name value cb :
  preserves (keeps_attribute n name value) (requestAnimationFrame cb).
Proof. intros p H. exact H. Qed.

#[local] Hint Resolve keeps_setAttribute_same keeps_setStyle keeps_setTimeout
  keeps_requestAnimationFrame : frames.
#[local] Hint Extern 1 (preserves (keeps_attribute _ _ _) (setAttribute _ _ _)) =>
  apply keeps_setAttribute_other; discriminate : frames.
#[local] Hint Extern 1 (preserves (keeps_attribute _ _ _) (removeAttribute _ _)) =>
  apply keeps_removeAttribute_other; discriminate : frames.

Lemma keeps_toggleTabIndexOnOpenCard n value :
  preserves (keeps_attribute n "aria-expanded" value) toggleTabIndexOnOpenCard.
Proof. unfold toggleTabIndexOnOpenCard, disableTabIndexOnAllCards. frame. Qed.

Lemma keeps_animateElement n value el a b c d :
  preserves (keeps_attribute n "aria-expanded" value) (animateElement el a b c d).
Proof. unfold animateElement, set_opt_style. frame. Qed.

Lemma forEach_setAttribute_run name value l p :
  ∃ p', forEach (λ el, setAttribute el name value) l p = (Ok tt, p').
Proof.
  revert p. induction l as [|x l IH]; intros p; [by eexists|].
  cbn [forEach]. unfold bind at 1, setAttribute at 1, modify at 1. apply IH.
Qed.

Lemma disableTabIndexOnAllCards_run p m :
  menu p = Some m → ∃ p', disableTabIndexOnAllCards p = (Ok tt, p').
Proof.
  intros Hm. unfold disableTabIndexOnAllCards, bind at 1, get. rewrite Hm.
  unfold bind at 1, deref, ret. apply forEach_setAttribute_run.
Qed.

(** With the open class gone from the toggle, the two accessibility
    steps only reset attributes. *)
Lemma toggleTabIndexOnOpenCard_closed p m :
  menu p = Some m →
  has_class p (toggle p) (openStatusClass (opts p)) = false →
  ∃ p', toggleTabIndexOnOpenCard p = (Ok tt, p').
Proof.
  intros Hm Hc. destruct (disableTabIndexOnAllCards_run p m Hm) as (q & E).
  unfold toggleTabIndexOnOpenCard. rewrite (bind_run _ _ _ _ _ E).
  pose proof (preserved same_classes _ _ _ _ classes_disableTabIndexOnAllCards E) as Hcl.
  pose proof (preserved same_setup _ _ _ _ setup_disableTabIndexOnAllCards E) as (Ho & Ht & _).
  unfold bind, get. unfold has_class in *. rewrite Hcl, Ho, Ht, Hc. by eexists.
Qed.

Lemma toggleWaiAriaForOpenCard_closed p m :
  menu p = Some m →
  has_class p (toggle p) (openStatusClass (opts p)) = false →
  ∃ p', toggleWaiAriaForOpenCard p = (Ok tt, p')
        ∧ keeps_attribute (toggle p) "aria-expanded" "false" p p'.
Proof.
  intros Hm Hc.
  destruct (forEach_setAttribute_run "aria-expanded" "false" (nextToggles (tree p)) p)
    as (q & E).
  assert (Hk : preserves (keeps_attribute (toggle p) "aria-expanded" "false")
                 (forEach (λ el, setAttribute el "aria-expanded" "false")
                    (nextToggles (tree p)))) by frame.
  assert (Hcl : preserves same_classes
                  (forEach (λ el, setAttribute el "aria-expanded" "false")
                     (nextToggles (tree p)))) by frame.
  assert (Hs : preserves same_setup
                 (forEach (λ el, setAttribute el "aria-expanded" "false")
                    (nextToggles (tree p)))) by frame.
  pose proof (preserved _ _ _ _ _ Hk E) as Hk'.
  pose proof (preserved _ _ _ _ _ Hcl E) as Hcl'.
  pose proof (preserved _ _ _ _ _ Hs E) as (Ho & Ht & _).
  exists q. split; [|exact Hk'].
  unfold toggleWaiAriaForOpenCard. unfold bind at 1, get at 1. rewrite Hm.
  unfold bind at 1, deref, ret. rewrite (bind_run _ _ _ _ _ E).
  unfold bind, get. unfold has_class in *. by rewrite Hcl', Ho, Ht, Hc.
Qed.

Lemma animateElement_run w a b c d p :
  ∃ p', animateElement (Some w) a b c d p = (Ok tt, p').
Proof.
  unfold animateElement, set_opt_style, bind, get, deref, ret, setStyle,
    requestAnimationFrame, modify.
  destruct a, b; by eexists.
Qed.

Lemma upd_same n f (e : node → element) : upd n f e n = f (e n).
Proof. unfold upd. by destruct (decide (n = n)). Qed.

Lemma upd_other n f (e : node → element) x : x ≠ n → upd n f e x = e x.
Proof. unfold upd. by destruct (decide (x = n)). Qed.

Lemma elem_of_add_token l token x : x ∈ l → x ∈ add_token l token.
Proof.
  unfold add_token. case_bool_decide; [done|]. intros Hx. apply elem_of_app. by left.
Qed.

Lemma bind_get {A} (k : page → M A) p : bind get k p = k p p.
Proof. reflexivity. Qed.

Lemma bind_deref {A B} (a : A) (k : A → M B) p : bind (deref (Some a)) k p = k a p.
Proof. reflexivity. Qed.

Lemma bind_modify {B} f (k : unit → M B) p : bind (modify f) k p = k tt (f p).
Proof. reflexivity. Qed.

Lemma close_start p m :
  menu p = Some m →
  has_class p m (openStatusClass (opts p)) = true →
  has_class p m (animationCloseStatusClass (opts p)) = false →
  check_token (openStatusClass (opts p)) = None →
  check_token (animationCloseStatusClass (opts p)) = None →
  close p
  = (toggleTabIndexOnOpenCard >> toggleWaiAriaForOpenCard
     >> animateElement (menuWrap (ctl p)) None (Some "0") None (Some "-100%")
     >> setTimeout CloseDone (animationDuration (opts p)) >> ret true)
      (closeStarted p m).
Proof.
  intros Hm Hopen Hclosing Htok_open Htok_closing.
  unfold close. rewrite bind_get, Hm, bind_deref, Hopen, Hclosing.
  cbn [negb orb]. unfold dispatchEvent. rewrite bind_modify.
  rewrite (bind_run _ _ _ _ _ (classList_add_run m _ _ Htok_closing)).
  rewrite (bind_run _ _ _ _ _ (classList_add_run (toggle p) _ _ Htok_closing)).
  rewrite (bind_run _ _ _ _ _ (classList_remove_run (toggle p) _ _ Htok_open)).
  unfold setAttribute. rewrite bind_modify. reflexivity.
Qed.

Lemma closeStarted_facts p m :
  toggle p ≠ m →
  has_class p m (openStatusClass (opts p)) = true →
  menu (closeStarted p m) = menu p ∧ toggle (closeStarted p m) = toggle p
  ∧ opts (closeStarted p m) = opts p
  ∧ has_class (closeStarted p m) (toggle p) (openStatusClass (opts p)) = false
  ∧ attribute_of (closeStarted p m) (toggle p) "aria-expanded" = Some "false"
  ∧ has_class (closeStarted p m) m (openStatusClass (opts p)) = true
  ∧ has_class (closeStarted p m) m (animationCloseStatusClass (opts p)) = true
  ∧ log (closeStarted p m)
    = log p ++ [ Dispatched "madj2k-slidemenu-closing";
                 ClassesAdded m [animationCloseStatusClass (opts p)];
                 ClassesAdded (toggle p) [animationCloseStatusClass (opts p)];
                 ClassesRemoved (toggle p) [openStatusClass (opts p)];
                 AttributeSet (toggle p) "aria-expanded" "false" ].
Proof.
  intros Hne Hopen. unfold closeStarted, has_class, attribute_of.
  cbn [menu toggle opts els log emit set_els].
  split_and!; try reflexivity.
  - apply bool_decide_eq_false. rewrite upd_same. cbn [classList with_attributes].
    rewrite upd_same. cbn [classList with_classList]. apply not_in_remove_tokens.
  - rewrite upd_same. cbn [attributes with_attributes]. apply lookup_insert_eq.
  - apply bool_decide_eq_true. rewrite !(upd_other (toggle p)) by done.
    rewrite upd_same. cbn [classList with_classList].
    apply elem_of_add_token. unfold has_class in Hopen.
    by apply bool_decide_eq_true in Hopen.
  - apply bool_decide_eq_true. rewrite !(upd_other (toggle p)) by done.
    rewrite upd_same. cbn [classList with_classList]. apply in_add_token.
  - by rewrite <- !app_assoc.
Qed.

(** With the open class gone from the toggle, the rest of [close]
    completes when the container is cached; it touches no class list,
    keeps [aria-expanded="false"] on the toggle and dispatches nothing
    called closed. *)
Lemma close_rest q m w d :
  menu q = Some m →
  has_class q (toggle q) (openStatusClass (opts q)) = false →
  ∃ s7,
    (toggleTabIndexOnOpenCard >> toggleWaiAriaForOpenCard
     >> animateElement (Some w) None (Some "0") None (Some "-100%")
     >> setTimeout CloseDone d >> ret true) q
    = (Ok true, emit (TimerSet d CloseDone) (set_timers (timers s7 ++ [(d, CloseDone)]) s7))
    ∧ same_classes q s7
    ∧ keeps_attribute (toggle q) "aria-expanded" "false" q s7
    ∧ log_only (not_event "madj2k-slidemenu-closed") q s7.
Proof.
  intros Hm4 Ht4.
  destruct (toggleTabIndexOnOpenCard_closed q m Hm4 Ht4) as (s5 & E5).
  rewrite (bind_run _ _ _ _ _ E5).
  pose proof (preserved same_classes _ _ _ _ classes_toggleTabIndexOnOpenCard E5) as Hcl5.
  pose proof (preserved same_setup _ _ _ _ setup_toggleTabIndexOnOpenCard E5)
    as (Ho5 & Htg5 & Hm5 & _).
  pose proof (preserved _ _ _ _ _ (keeps_toggleTabIndexOnOpenCard (toggle q) "false") E5)
    as Hk5.
  assert (Hlog5 : log_only (not_event "madj2k-slidemenu-closed") q s5).
  { apply (preserved _ toggleTabIndexOnOpenCard _ (Ok tt)); [|exact E5].
    unfold toggleTabIndexOnOpenCard, disableTabIndexOnAllCards. frame. }
  assert (Ht5 : has_class s5 (toggle s5) (openStatusClass (opts s5)) = false)
    by (unfold has_class in *; by rewrite Hcl5, Ho5, Htg5).
  destruct (toggleWaiAriaForOpenCard_closed s5 m) as (s6 & E6 & Hk6);
    [congruence | exact Ht5 |].
  rewrite (bind_run _ _ _ _ _ E6).
  pose proof (preserved same_classes _ _ _ _ classes_toggleWaiAriaForOpenCard E6) as Hcl6.
  assert (Hlog6 : log_only (not_event "madj2k-slidemenu-closed") s5 s6).
  { apply (preserved _ toggleWaiAriaForOpenCard _ (Ok tt)); [|exact E6].
    unfold toggleWaiAriaForOpenCard. frame. }
  destruct (animateElement_run w None (Some "0") None (Some "-100%") s6) as (s7 & E7).
  rewrite (bind_run _ _ _ _ _ E7).
  pose proof (preserved same_classes _ _ _ _ (classes_animateElement _ _ _ _ _) E7) as Hcl7.
  pose proof (preserved _ _ _ _ _ (keeps_animateElement (toggle q) "false" _ _ _ _ _) E7)
    as Hk7.
  assert (Hlog7 : log_only (not_event "madj2k-slidemenu-closed") s6 s7).
  { apply (preserved _ (animateElement (Some w) None (Some "0") None (Some "-100%"))
             _ (Ok tt)); [|exact E7].
    unfold animateElement, set_opt_style. frame. }
  exists s7. split_and!.
  - unfold setTimeout. rewrite bind_modify. reflexivity.
  - etransitivity; [exact Hcl5|]. etransitivity; [exact Hcl6 | exact Hcl7].
  - rewrite Htg5 in Hk6.
    etransitivity; [exact Hk5|]. etransitivity; [exact Hk6 | exact Hk7].
  - etransitivity; [exact Hlog5|]. etransitivity; [exact Hlog6 | exact Hlog7].
Qed.

(** X21.  The synchronous part of [close], for a loaded menu that is open
    and not closing: the closing event is dispatched first, the toggle
    reads [aria-expanded="false"] when [close] returns, the menu still
    carries the open class, now with the closing class, the closed
    event is not dispatched, and the timer for the deferred part is set
    last, with the delay [animationDuration]. *)
Lemma close_synchronous p m w :
  menu p = Some m → menuWrap (ctl p) = Some w → toggle p ≠ m →
  has_class p m (openStatusClass (opts p)) = true →
  has_class p m (animationCloseStatusClass (opts p)) = false →
  check_token (openStatusClass (opts p)) = None →
  check_token (animationCloseStatusClass (opts p)) = None →
  ∃ rest,
    outcome close p = Ok true
    ∧ attribute_of (after close p) (toggle p) "aria-expanded" = Some "false"
    ∧ has_class (after close p) m (openStatusClass (opts p)) = true
    ∧ has_class (after close p) m (animationCloseStatusClass (opts p)) = true
    ∧ effects_of close p
      = Dispatched "madj2k-slidemenu-closing"
        :: rest ++ [TimerSet (animationDuration (opts p)) CloseDone]
    ∧ Forall (not_event "madj2k-slidemenu-closed") rest
    ∧ (animationDuration (opts p), CloseDone) ∈ timers (after close p).
Proof.
  intros Hm Hw Hne Hopen Hclosing Htok_open Htok_closing.
  pose proof (close_start p m Hm Hopen Hclosing Htok_open Htok_closing) as E.
  rewrite Hw in E.
  destruct (closeStarted_facts p m Hne Hopen)
    as (Hm4 & Htg4 & Ho4 & Ht4 & Hattr & Hop4 & Hc4 & Hlog4).
  destruct (close_rest (closeStarted p m) m w (animationDuration (opts p)))
    as (s7 & E7 & Hcl & Hk & (l & Hl & HP)).
  { congruence. }
  { by rewrite Htg4, Ho4. }
  rewrite E7 in E. rewrite Htg4 in Hk.
  exists ([ ClassesAdded m [animationCloseStatusClass (opts p)];
            ClassesAdded (toggle p) [animationCloseStatusClass (opts p)];
            ClassesRemoved (toggle p) [openStatusClass (opts p)];
            AttributeSet (toggle p) "aria-expanded" "false" ] ++ l).
  unfold outcome, effects_of, after. rewrite E. cbn [fst snd].
  split_and!.
  - reflexivity.
  - unfold attribute_of. cbn [els emit set_timers]. by apply Hk.
  - unfold has_class in *. cbn [els emit set_timers]. by rewrite Hcl.
  - unfold has_class in *. cbn [els emit set_timers]. by rewrite Hcl.
  - cbn [log emit set_timers]. rewrite Hl, Hlog4. rewrite <- !app_assoc.
    rewrite drop_app_length. reflexivity.
  - apply Forall_app. split; [|exact HP]. repeat constructor; discriminate.
  - cbn [timers emit set_timers]. apply elem_of_app. right. by left.
Qed.

Lemma close_synchronous_witness :
  attribute_of closingPage (toggle (after (run_callback OpenDone) (after open samplePage)))
    "aria-expanded" = Some "false".
Proof.
  assert (H1 : menu (after (run_callback OpenDone) (after open samplePage)) = Some 1)
    by (vm_compute; reflexivity).
  assert (H2 : menuWrap (ctl (after (run_callback OpenDone) (after open samplePage))) = Some 5)
    by (vm_compute; reflexivity).
  assert (H3 : toggle (after (run_callback OpenDone) (after open samplePage)) ≠ 1)
    by (vm_compute; discriminate).
  destruct (close_synchronous _ 1 5 H1 H2 H3) as (rest & _ & H & _);
    [vm_compute; reflexivity .. | exact H].
Defined.

(** X22.  The deferred part of [close]: the classes come off the menu first;
    when the callback completes, the closed event is its last effect. *)
Lemma close_done_completes p m :
  menu p = Some m → outcome (run_callback CloseDone) p = Ok tt →
  ∃ mid,
    effects_of (run_callback CloseDone) p
    = ClassesRemoved m [openStatusClass (opts p); animationCloseStatusClass (opts p)]
      :: mid ++ [Dispatched "madj2k-slidemenu-closed"].
Proof.
  intros Hm. unfold outcome, effects_of, after.
  destruct (run_callback CloseDone p) as [r p'] eqn:E. cbn [fst snd]. intros ->.
  unfold run_callback in E. rewrite bind_get, Hm, bind_deref in E. run_inv E.
  assert (H0 : log q = log p ++ [ClassesRemoved m [openStatusClass (opts p);
                                                  animationCloseStatusClass (opts p)]]).
  { unfold classList_remove in E0. destruct (check_tokens _); [discriminate E0|].
    by rewrite (modify_inv _ _ _ _ E0). }
  assert (Hmid : log_grows q q1).
  { apply (preserved log_grows _ _ _ _ (log_classList_remove _ _)) in E1.
    apply (preserved log_grows _ _ _ _ log_toggleNoScroll) in E2.
    etransitivity; eassumption. }
  destruct Hmid as (mid & Hmid). apply emit_log in E.
  exists mid. rewrite E, Hmid, H0. rewrite <- !app_assoc.
  rewrite drop_app_length. reflexivity.
Qed.

Lemma close_done_completes_witness :
  ∃ mid,
    effects_of (run_callback CloseDone) closingPage
    = ClassesRemoved 1 [openStatusClass (opts closingPage);
                        animationCloseStatusClass (opts closingPage)]
      :: mid ++ [Dispatched "madj2k-slidemenu-closed"].
Proof.
  apply (close_done_completes closingPage 1); vm_compute; reflexivity.
Defined.

(** The first active card is the root card: [loadMenu] marks
    [$cards[0]] active before it collects the active cards. *)
Lemma loadMenu_root_card_active p p' :
  isLoaded (ctl p) = false → loadMenu p = (Ok true, p') →
  head (activeCards (ctl p')) = head (cards (ctl p')).
Proof.
  intros Hp E. unfold loadMenu in E. rewrite bind_get, Hp in E.
  destruct (menu p) as [m|]; [|run_inv E; discriminate E].
  run_inv E. injection E as <-.
  apply modify_inv in E1, E3, E6. apply deref_inv in E4 as [-> _].
  apply (preserved same_ctl _ _ _ _ (ctl_setStyle _ _ _)) in E5.
  apply (preserved same_ctl _ _ _ _ ctl_bindEvents) in E7.
  unfold same_ctl in *. rewrite E7, E6. cbn [ctl set_ctl]. rewrite E5, E3.
  cbn [ctl set_ctl activeCards cards with_isLoaded with_activeCards].
  destruct (cardNodes (tree q)) as [|first rest] eqn:Hcards.
  - unfold ret in E2. injection E2 as _ <-. rewrite E1. cbn [tree set_ctl ctl cards with_cached].
    by rewrite Hcards.
  - pose proof (preserved same_ctl _ _ _ _ (ctl_classList_add _ _) E2) as Hc.
    pose proof (preserved same_tree _ _ _ _ (tree_classList_add _ _) E2) as Ht.
    pose proof (preserved same_setup _ _ _ _ (setup_classList_add _ _) E2) as (Ho & _).
    unfold same_ctl, same_tree in *. rewrite Hc, Ht, E1.
    cbn [tree set_ctl ctl cards with_cached]. rewrite Hcards.
    assert (Hactive : has_class q1 first (activeStatusClass (names (opts q1))) = true).
    { unfold classList_add in E2. destruct (check_tokens _); [discriminate E2|].
      apply modify_inv in E2. clear Hc Ht Ho. subst q1. unfold has_class.
      cbn [els emit set_els opts]. rewrite upd_same.
      cbn [classList with_classList foldl]. rewrite E1. cbn [opts set_ctl].
      apply bool_decide_eq_true, in_add_token. }
    rewrite filter_cons. by rewrite decide_True.
Qed.

(** * Further properties of the templating *)

Lemma strip_scan_sublist s : ∀ n, strip_scan n s `sublist_of` s.
Proof.
  induction s as [|c r IH]; intros n; [by destruct n|].
  destruct n as [|n]; cbn [strip_scan].
  - destruct (comment_at (c :: r)); [apply sublist_cons, IH | apply sublist_skip, IH].
  - apply sublist_cons, IH.
Qed.

(** X1.  [stripComments] only deletes: its output is a subsequence of
    its input, so it is never longer and contains no character the
    input does not contain. *)
Theorem stripComments_only_deletes html :
  stripComments html `sublist_of` html
  ∧ length (stripComments html) ≤ length html
  ∧ ∀ c, c ∈ stripComments html → c ∈ html.
Proof.
  pose proof (strip_scan_sublist html 0) as H. split_and!.
  - exact H.
  - by apply sublist_length.
  - intros c Hc. by eapply elem_of_sublist.
Qed.

Lemma find_sub_Some p s i :
  find_sub p s = Some i → ∃ a b, s = a ++ p ++ b.
Proof.
  revert i. induction s as [|c r IH]; intros i; cbn [find_sub].
  - destruct (starts_with p []) eqn:E; [|done]. intros _.
    apply starts_with_inv in E as [b ->]. by exists [], b.
  - destruct (starts_with p (c :: r)) eqn:E.
    + intros _. apply starts_with_inv in E as [b ->]. by exists [], b.
    + destruct (find_sub p r) as [j|]; [|done]. intros _.
      destruct (IH j eq_refl) as (a & b & ->). by exists (c :: a), b.
Qed.

Lemma find_sub_None p s :
  find_sub p s = None → ∀ a b, s ≠ a ++ p ++ b.
Proof.
  induction s as [|c r IH]; cbn [find_sub]; intros H a b E.
  - destruct (starts_with p []) eqn:Es; [done|].
    destruct a; [|done]. rewrite app_nil_l in E.
    rewrite E, starts_with_app in Es. done.
  - destruct (starts_with p (c :: r)) eqn:Es; [done|].
    destruct (find_sub p r) eqn:Ef; [done|].
    destruct a as [|x a].
    + rewrite app_nil_l in E. rewrite E, starts_with_app in Es. done.
    + injection E as -> E. by apply (IH eq_refl a b).
Qed.

(** X2.  A comment that is not closed stays: a text in which the
    closing marker does not occur is returned as it is, an opening
    marker included. *)
Theorem stripComments_without_closer html :
  (∀ a b, html ≠ a ++ cm_close ++ b) → stripComments html = html.
Proof.
  induction html as [|c r IH]; intros H; [done|].
  rewrite stripComments_copy.
  - rewrite IH; [done|]. intros a b E. apply (H (c :: a) b). by rewrite E.
  - unfold comment_at. destruct (starts_with cm_open (c :: r)); [|done].
    destruct (find_sub cm_close (drop 4 (c :: r))) as [i|] eqn:E; [|done].
    exfalso. apply find_sub_Some in E as (a & b & E).
    apply (H (take 4 (c :: r) ++ a) b).
    rewrite <- (take_drop 4 (c :: r)) at 1. rewrite E. by rewrite <- app_assoc.
Qed.

Lemma stripComments_without_closer_witness :
  stripComments (txt "a<!-- open -- >") = txt "a<!-- open -- >".
Proof.
  apply stripComments_without_closer. apply find_sub_None. vm_compute. reflexivity.
Defined.


Lemma replace_scan_same_keys (d1 d2 : marker) s :
  ∀ n,
    (∀ k, k ∈ keys_scan n s →
          own_or_empty d1 (string_of_list_ascii k) = own_or_empty d2 (string_of_list_ascii k)) →
    replace_scan d1 n s = replace_scan d2 n s.
Proof.
  induction s as [|c r IH]; intros n H; [done|].
  destruct n as [|n]; cbn [replace_scan keys_scan] in *.
  - destruct (Ascii.eqb c pct).
    + destruct (token_at r) as [key|].
      * rewrite (H key) by (by left). f_equal. apply IH. intros k Hk. apply H. by right.
      * f_equal. by apply IH.
    + f_equal. by apply IH.
  - by apply IH.
Qed.

(** X5.  The output of [replaceHtml] depends on the marker only through
    the placeholders the template uses: two markers that agree on them
    give the same string. *)
Theorem replaceHtml_only_reads_used_keys (d1 d2 : marker) template :
  (∀ k, k ∈ token_keys template → own_or_empty d1 k = own_or_empty d2 k) →
  replaceHtml template d1 = replaceHtml template d2.
Proof.
  intros H. apply replace_scan_same_keys. intros k Hk. apply H.
  unfold token_keys. apply list_elem_of_fmap. by exists k.
Qed.

Lemma replaceHtml_only_reads_used_keys_witness :
  replaceHtml (txt "<b>%title%</b>") (<["title" := txt "T"]> (<["link" := txt "/a"]> ∅))
  = replaceHtml (txt "<b>%title%</b>") (<["title" := txt "T"]> ∅).
Proof.
  apply replaceHtml_only_reads_used_keys. intros k Hk.
  assert (k = "title"%string) as ->.
  { revert Hk. vm_compute. intros Hk.
    apply list_elem_of_singleton in Hk. exact Hk. }
  reflexivity.
Defined.

Lemma replaceHtml_no_placeholder (d : marker) s : pct ∉ s → replaceHtml s d = s.
Proof.
  intros H. rewrite <- (app_nil_r s) at 1. rewrite replaceHtml_literal by done.
  by rewrite app_nil_r.
Qed.

Lemma no_bang_no_opener a :
  bang ∉ a → ∀ a1 a2, a ++ txt "<!-" ≠ a1 ++ cm_open ++ a2.
Proof.
  induction a as [|c a IH]; intros Ha a1 a2 E.
  - apply (f_equal length) in E. rewrite !length_app in E. simpl in E. lia.
  - apply not_elem_of_cons in Ha as [Hc Ha]. destruct a1 as [|x a1].
    + destruct a as [|d a]; [discriminate E|].
      injection E as _ -> _. apply Ha. by left.
    + injection E as _ E. by apply (IH Ha a1 a2).
Qed.

(** One conditional pair: with the two placeholders empty the region
    stays, with the comment markers it goes. *)
Lemma conditional_render (d : marker) ks ke pre body post (keep : bool) :
  ks ≠ [] → Forall (λ x, is_word x = true) ks →
  ke ≠ [] → Forall (λ x, is_word x = true) ke →
  own_or_empty d (string_of_list_ascii ks) = (if keep then [] else cm_open) →
  own_or_empty d (string_of_list_ascii ke) = (if keep then [] else cm_close) →
  pct ∉ pre → pct ∉ body → pct ∉ post →
  bang ∉ pre → bang ∉ body → bang ∉ post →
  (∀ b1 b2, body ++ txt "--" ≠ b1 ++ cm_close ++ b2) →
  stripComments (replaceHtml (pre ++ pct :: ks ++ pct :: body ++ pct :: ke ++ pct :: post) d)
  = if keep then pre ++ body ++ post else pre ++ post.
Proof.
  intros Hks Hws Hke Hwe Es Ee Hp1 Hp2 Hp3 Hb1 Hb2 Hb3 Hbody.
  rewrite replaceHtml_placeholder by done.
  rewrite replaceHtml_placeholder by done.
  rewrite (replaceHtml_no_placeholder d post) by done. rewrite Es, Ee.
  destruct keep.
  - rewrite !app_nil_l. apply stripComments_no_bang.
    rewrite !not_elem_of_app. by split_and!.
  - rewrite stripComments_region; [|by apply no_bang_no_opener | done].
    by rewrite stripComments_no_bang.
Qed.


(** X4.  Substitution followed by comment stripping implements the
    conditional regions of the templates: between
    [%ifHasChildrenStart%] and [%ifHasChildrenEnd%] the text stays for
    an item with [hasSubpages] and goes otherwise; the [ifHasNoChildren]
    pair is the opposite; the [ifIsLinked] and [ifIsNotLinked] pairs do
    the same on [isLinked].  The texts around hold no placeholder and
    no ["!"], and the region no closing marker. *)
Theorem conditional_regions cn item parentItem level pre body post :
  pct ∉ pre → pct ∉ body → pct ∉ post →
  bang ∉ pre → bang ∉ body → bang ∉ post →
  (∀ b1 b2, body ++ txt "--" ≠ b1 ++ cm_close ++ b2) →
  let render t := stripComments (replaceHtml t (getItemMarker cn item parentItem level)) in
  render (pre ++ txt "%ifHasChildrenStart%" ++ body ++ txt "%ifHasChildrenEnd%" ++ post)
  = (if hasSubpages item then pre ++ body ++ post else pre ++ post)
  ∧ render (pre ++ txt "%ifHasNoChildrenStart%" ++ body ++ txt "%ifHasNoChildrenEnd%" ++ post)
    = (if hasSubpages item then pre ++ post else pre ++ body ++ post)
  ∧ render (pre ++ txt "%ifIsLinkedStart%" ++ body ++ txt "%ifIsLinkedEnd%" ++ post)
    = (if isLinked item then pre ++ body ++ post else pre ++ post)
  ∧ render (pre ++ txt "%ifIsNotLinkedStart%" ++ body ++ txt "%ifIsNotLinkedEnd%" ++ post)
    = (if isLinked item then pre ++ post else pre ++ body ++ post).
Proof.
  intros Hp1 Hp2 Hp3 Hb1 Hb2 Hb3 Hbody. cbv zeta.
  destruct (marker_conditionals cn item parentItem level)
    as (E1 & E2 & E3 & E4 & E5 & E6 & E7 & E8).
  split_and!.
  - change (pre ++ txt "%ifHasChildrenStart%" ++ body ++ txt "%ifHasChildrenEnd%" ++ post)
      with (pre ++ pct :: txt "ifHasChildrenStart" ++ pct :: body
            ++ pct :: txt "ifHasChildrenEnd" ++ pct :: post).
    by apply conditional_render;
      [ | repeat constructor | | repeat constructor | exact E1 | exact E2 | .. ].
  - change (pre ++ txt "%ifHasNoChildrenStart%" ++ body ++ txt "%ifHasNoChildrenEnd%" ++ post)
      with (pre ++ pct :: txt "ifHasNoChildrenStart" ++ pct :: body
            ++ pct :: txt "ifHasNoChildrenEnd" ++ pct :: post).
    rewrite (conditional_render _ _ _ _ _ _ (negb (hasSubpages item)));
      [ by destruct (hasSubpages item)
      | done | repeat constructor | done | repeat constructor
      | exact E3 | exact E4 | done .. ].
  - change (pre ++ txt "%ifIsLinkedStart%" ++ body ++ txt "%ifIsLinkedEnd%" ++ post)
      with (pre ++ pct :: txt "ifIsLinkedStart" ++ pct :: body
            ++ pct :: txt "ifIsLinkedEnd" ++ pct :: post).
    by apply conditional_render;
      [ | repeat constructor | | repeat constructor | exact E5 | exact E6 | .. ].
  - change (pre ++ txt "%ifIsNotLinkedStart%" ++ body ++ txt "%ifIsNotLinkedEnd%" ++ post)
      with (pre ++ pct :: txt "ifIsNotLinkedStart" ++ pct :: body
            ++ pct :: txt "ifIsNotLinkedEnd" ++ pct :: post).
    rewrite (conditional_render _ _ _ _ _ _ (negb (isLinked item)));
      [ by destruct (isLinked item)
      | done | repeat constructor | done | repeat constructor
      | exact E7 | exact E8 | done .. ].
Qed.

Lemma conditional_regions_witness :
  stripComments (replaceHtml (txt "<li>%ifHasChildrenStart%<b>+</b>%ifHasChildrenEnd%</li>")
                   (getItemMarker defaultClassNames (sampleItem 2 1 "Main" false []) None 0))
  = txt "<li></li>".
Proof.
  refine (proj1 (conditional_regions defaultClassNames (sampleItem 2 1 "Main" false []) None 0
                   (txt "<li>") (txt "<b>+</b>") (txt "</li>") _ _ _ _ _ _ _));
    try compute_done.
  apply find_sub_None. vm_compute. reflexivity.
Defined.
(** * Further properties of the controller *)

#[local] Instance same_els_preorder : PreOrder same_els.
Proof. split; [by intros p | intros p q r; unfold same_els; congruence]. Qed.

Lemma els_addEventListener t ty h : preserves same_els (addEventListener t ty h).
Proof. intros p. unfold after, addEventListener, modify, same_els. cbn. by case_match. Qed.
#[local] Hint Resolve els_addEventListener : frames.

Lemma els_bindEvents : preserves same_els bindEvents.
Proof. unfold bindEvents. frame. Qed.


Lemma run_outcome {A} (m : M A) p a : outcome m p = Ok a → m p = (Ok a, after m p).
Proof. unfold outcome, after. destruct (m p) as [r q]. cbn. by intros ->. Qed.


Lemma renderMenu_state p :
  ∃ p', renderMenu p = (Ok tt, p')
        ∧ isLoaded (ctl p') = isLoaded (ctl p) ∧ listeners p' = listeners p
        ∧ opts p' = opts p.
Proof.
  unfold renderMenu. rewrite bind_get.
  destruct (is_empty (menuItemsJson (opts p))) eqn:Hitems; [by eexists|].
  rewrite bind_modify.
  destruct (_ && _); [|by eexists].
  destruct (menuItemsJson (opts p)) as [|first rest]; [discriminate Hitems|].
  destruct (buildHtml_root_ok (names (opts p))
              {| menuWrapTemplate := default [] (templateParts p "menuWrap");
                 menuItemTemplate := default [] (templateParts p "menuItem");
                 subMenuWrapTemplate := default [] (templateParts p "subMenuWrap") |}
              first rest 0) as [out Hout].
  rewrite Hout. unfold assignInnerHtml, modify. by eexists.
Qed.



(** ** Tab order and [aria-expanded] *)

Lemma setAttribute_run n name value p :
  setAttribute n name value p
  = (Ok tt, emit (AttributeSet n name value)
              (set_els (upd n (λ e, with_attributes (<[name := value]> (attributes e)) e)) p)).
Proof. reflexivity. Qed.

Lemma forEach_setAttribute_attrs name value l : ∀ p,
  ∃ p', forEach (λ el, setAttribute el name value) l p = (Ok tt, p')
        ∧ ∀ x, attributes (els p' x)
               = if bool_decide (x ∈ l) then <[name := value]> (attributes (els p x))
                 else attributes (els p x).
Proof.
  induction l as [|y r IH]; intros p.
  - exists p. split; [done|]. intros x. rewrite bool_decide_eq_false_2; [done|].
    apply not_elem_of_nil.
  - cbn [forEach]. rewrite (bind_run _ _ _ _ _ (setAttribute_run y name value p)).
    destruct (IH (emit (AttributeSet y name value)
                    (set_els (upd y (λ e, with_attributes (<[name := value]> (attributes e)) e)) p)))
      as (p' & E & H).
    exists p'. split; [exact E|]. intros x. rewrite H. cbn [els emit set_els].
    destruct (decide (x = y)) as [->|Hxy].
    + rewrite upd_same. cbn [attributes with_attributes].
      rewrite (bool_decide_eq_true_2 (y ∈ y :: r)) by apply list_elem_of_here.
      case_bool_decide; [apply insert_insert_eq | done].
    + rewrite upd_other by done.
      destruct (decide (x ∈ r)) as [Hx|Hx].
      * rewrite !bool_decide_eq_true_2; [done | by apply list_elem_of_further | done].
      * rewrite !bool_decide_eq_false_2; [done | | done].
        rewrite elem_of_cons. tauto.
Qed.

Lemma removeAttribute_run n name p :
  removeAttribute n name p
  = (Ok tt, emit (AttributeRemoved n name)
              (set_els (upd n (λ e,
                 with_style (if bool_decide (name = "style") then ∅ else style e)
                   (with_attributes (delete name (attributes e)) e))) p)).
Proof. reflexivity. Qed.

Lemma forEach_removeAttribute_if (c : node → bool) name l : ∀ p,
  ∃ p', forEach (λ el, if c el then removeAttribute el name else ret tt) l p = (Ok tt, p')
        ∧ ∀ x, attributes (els p' x)
               = if bool_decide (x ∈ l) && c x then delete name (attributes (els p x))
                 else attributes (els p x).
Proof.
  induction l as [|y r IH]; intros p.
  - exists p. split; [done|]. intros x. rewrite bool_decide_eq_false_2; [done|].
    apply not_elem_of_nil.
  - cbn [forEach]. destruct (c y) eqn:Hy.
    + rewrite (bind_run _ _ _ _ _ (removeAttribute_run y name p)).
      destruct (IH (emit (AttributeRemoved y name)
                      (set_els (upd y (λ e,
                         with_style (if bool_decide (name = "style") then ∅ else style e)
                           (with_attributes (delete name (attributes e)) e))) p)))
        as (p' & E & H).
      exists p'. split; [exact E|]. intros x. rewrite H. cbn [els emit set_els].
      destruct (decide (x = y)) as [->|Hxy].
      * rewrite upd_same. cbn [attributes with_attributes with_style].
        rewrite (bool_decide_eq_true_2 (y ∈ y :: r)) by apply list_elem_of_here.
        rewrite Hy. cbn [andb]. rewrite andb_true_r.
        destruct (bool_decide (y ∈ r)); [apply delete_delete_eq | done].
      * rewrite upd_other by done.
        destruct (decide (x ∈ r)) as [Hx|Hx].
        -- rewrite !bool_decide_eq_true_2; [done | by apply list_elem_of_further | done].
        -- rewrite !bool_decide_eq_false_2; [done | | done].
           rewrite elem_of_cons. tauto.
    + rewrite (bind_run _ _ _ tt p eq_refl).
      destruct (IH p) as (p' & E & H). exists p'. split; [exact E|].
      intros x. rewrite H. destruct (decide (x = y)) as [->|Hxy].
      * rewrite Hy, !andb_false_r. done.
      * destruct (decide (x ∈ r)) as [Hx|Hx].
        -- rewrite !bool_decide_eq_true_2; [done | by apply list_elem_of_further | done].
        -- rewrite !bool_decide_eq_false_2; [done | | done].
           rewrite elem_of_cons. tauto.
Qed.

Lemma disableTabIndexOnAllCards_attrs p m :
  menu p = Some m →
  ∃ p', disableTabIndexOnAllCards p = (Ok tt, p')
        ∧ ∀ x, attributes (els p' x)
               = if bool_decide (x ∈ focusables (tree p))
                 then <["tabindex" := "-1"]> (attributes (els p x))
                 else attributes (els p x).
Proof.
  intros Hm. unfold disableTabIndexOnAllCards. rewrite bind_get, Hm, bind_deref.
  apply forEach_setAttribute_attrs.
Qed.

(** X8.  The tab order [toggleTabIndexOnOpenCard] leaves behind.  While
    the toggle does not carry the open class, every focusable element
    of the menu has [tabindex="-1"].  While it does, the focusable
    elements of the open card whose left edge lies in
    [(0, innerWidth]] have no [tabindex], every other focusable element
    of the menu has [tabindex="-1"]; and without an open card the call
    throws a [TypeError]. *)
Theorem toggleTabIndexOnOpenCard_tab_order p m :
  menu p = Some m →
  let p' := after toggleTabIndexOnOpenCard p in
  let visible el :=
    (0 <? rectLeft (view p) el)%Z && (rectLeft (view p) el <=? innerWidth (view p))%Z in
  (has_class p (toggle p) (openStatusClass (opts p)) = false →
   outcome toggleTabIndexOnOpenCard p = Ok tt
   ∧ ∀ el, el ∈ focusables (tree p) → attribute_of p' el "tabindex" = Some "-1")
  ∧ (has_class p (toggle p) (openStatusClass (opts p)) = true →
     match openCard (ctl p) with
     | Some card =>
         outcome toggleTabIndexOnOpenCard p = Ok tt
         ∧ ∀ el,
             if bool_decide (el ∈ focusablesIn (tree p) card) && visible el
             then attribute_of p' el "tabindex" = None
             else el ∈ focusables (tree p) → attribute_of p' el "tabindex" = Some "-1"
     | None => outcome toggleTabIndexOnOpenCard p = Throw TypeError
     end).
Proof.
  intros Hm. cbv zeta.
  destruct (disableTabIndexOnAllCards_attrs p m Hm) as (q & Eq & Hq).
  pose proof (preserved same_setup _ _ _ _ setup_disableTabIndexOnAllCards Eq)
    as (Ho & Ht & _ & _ & _ & _ & _ & _ & _ & Hv).
  pose proof (preserved same_ctl _ _ _ _ ctl_disableTabIndexOnAllCards Eq) as Hc.
  pose proof (preserved same_tree _ _ _ _ tree_disableTabIndexOnAllCards Eq) as Htr.
  pose proof (preserved same_classes _ _ _ _ classes_disableTabIndexOnAllCards Eq) as Hcl.
  unfold same_ctl, same_tree in *.
  assert (Hopen : has_class q (toggle q) (openStatusClass (opts q))
                  = has_class p (toggle p) (openStatusClass (opts p))).
  { unfold has_class. by rewrite Ho, Ht, Hcl. }
  unfold outcome, after, attribute_of, toggleTabIndexOnOpenCard.
  rewrite (bind_run _ _ _ _ _ Eq), bind_get, Hopen, Hc, Htr, Hv.
  split.
  - intros Hclosed. rewrite Hclosed. cbn [negb ret fst snd]. split; [done|].
    intros el Hel. rewrite Hq, bool_decide_eq_true_2 by done. apply lookup_insert_eq.
  - intros Hopened. rewrite Hopened. cbn [negb].
    destruct (openCard (ctl p)) as [card|]; [|done].
    rewrite bind_deref.
    destruct (forEach_removeAttribute_if
                (λ el, (0 <? rectLeft (view p) el)%Z
                       && (rectLeft (view p) el <=? innerWidth (view p))%Z)
                "tabindex" (focusablesIn (tree p) card) q) as (q' & Eq' & Hq').
    rewrite Eq'. cbn [fst snd]. split; [done|]. intros el. rewrite Hq'.
    destruct (bool_decide (el ∈ focusablesIn (tree p) card) && _).
    + apply lookup_delete_eq.
    + intros Hel. rewrite Hq, bool_decide_eq_true_2 by done. apply lookup_insert_eq.
Qed.

Lemma toggleTabIndexOnOpenCard_tab_order_witness :
  attribute_of (after toggleTabIndexOnOpenCard (after loadMenu samplePage)) 22 "tabindex"
  = Some "-1".
Proof.
  refine (proj2 (proj1 (toggleTabIndexOnOpenCard_tab_order (after loadMenu samplePage) 1 _) _)
            22 _); [vm_compute; reflexivity .. | compute_done].
Defined.



(** ** The scroll lock *)

Lemma attributes_upd_keep n f (e : node → element) x :
  (∀ el, attributes (f el) = attributes el) → attributes (upd n f e x) = attributes (e x).
Proof. intros Hf. unfold upd. by destruct (decide (x = n)). Qed.

Lemma style_upd_keep n f (e : node → element) x :
  (∀ el, style (f el) = style el) → style (upd n f e x) = style (e x).
Proof. intros Hf. unfold upd. by destruct (decide (x = n)). Qed.

(** The locking branch of [toggleNoScroll], on a document taller than
    the window. *)
Lemma toggleNoScroll_lock p helper inner :
  scrollHelper (opts p) = true →
  has_class p (bodyNode p) (openStatusBodyClass (opts p)) = false →
  scrollHelperNode p = Some helper → scrollInnerNode p = Some inner →
  (innerHeight (view p) < scrollHeight (view p))%Z →
  check_token (openStatusBodyClassOverflow (opts p)) = None →
  ∃ p', toggleNoScroll p = (Ok tt, p')
        ∧ scrollTop p' = 0%Z
        ∧ (∀ n, classList (els p' n)
                = if decide (n = bodyNode p)
                  then add_token (classList (els p n)) (openStatusBodyClassOverflow (opts p))
                  else classList (els p n))
        ∧ attribute_of p' helper "data-scroll-top" = Some (string_of_Z (- scrollTop p))
        ∧ (helper ≠ inner → style (els p' helper) !! "overflow" = Some "hidden")
        ∧ style (els p' inner) !! "top" = Some (px (- scrollTop p))
        ∧ log p' = log p ++
            [ AttributeSet helper "data-scroll-top" (string_of_Z (- scrollTop p));
              StyleSet helper "position" "relative"; StyleSet helper "overflow" "hidden";
              StyleSet helper "height" "100vh"; StyleSet helper "width" "100%";
              StyleSet inner "position" "absolute"; StyleSet inner "top" (px (- scrollTop p));
              StyleSet inner "height" "100%"; StyleSet inner "width" "100%";
              ClassesAdded (bodyNode p) [openStatusBodyClassOverflow (opts p)];
              ScrolledTo 0 ].
Proof.
  intros Hs Hbody Hh Hi Hover Htoken.
  apply Z.ltb_lt in Hover.
  unfold toggleNoScroll. rewrite bind_get, Hs, Hbody, Hover. cbn [negb].
  rewrite Hh, Hi. unfold classList_add. rewrite (check_tokens_single _ Htoken).
  eexists. split; [reflexivity|]. cbv beta. cbn [fst snd].
  split_and!.
  - reflexivity.
  - intros n. cbn [els emit set_els set_scrollTop].
    unfold upd at 1. destruct (decide (n = bodyNode p)) as [->|Hn].
    + cbn [classList with_classList foldl]. by rewrite !classList_upd_keep.
    + by rewrite !classList_upd_keep.
  - unfold attribute_of. cbn [els emit set_els set_scrollTop].
    rewrite !attributes_upd_keep by done. rewrite upd_same.
    cbn [attributes with_attributes]. apply lookup_insert_eq.
  - intros Hne. cbn [els emit set_els set_scrollTop].
    rewrite style_upd_keep by done. rewrite !(upd_other inner) by done.
    rewrite upd_same. cbn [style with_style]. rewrite lookup_insert_ne by done.
    rewrite upd_same. cbn [style with_style]. rewrite lookup_insert_ne by done.
    rewrite upd_same. cbn [style with_style]. apply lookup_insert_eq.
  - cbn [els emit set_els set_scrollTop].
    rewrite style_upd_keep by done.
    rewrite upd_same. cbn [style with_style]. rewrite lookup_insert_ne by done.
    rewrite upd_same. cbn [style with_style]. rewrite lookup_insert_ne by done.
    rewrite upd_same. cbn [style with_style]. apply lookup_insert_eq.
  - cbn [log emit set_els set_scrollTop]. rewrite <- !app_assoc. reflexivity.
Qed.

(** The same branch on a document that is not taller than the window:
    the class to add is the empty string, which [classList.add]
    refuses. *)
Lemma toggleNoScroll_lock_throws p helper inner :
  scrollHelper (opts p) = true →
  has_class p (bodyNode p) (openStatusBodyClass (opts p)) = false →
  scrollHelperNode p = Some helper → scrollInnerNode p = Some inner →
  (scrollHeight (view p) ≤ innerHeight (view p))%Z →
  ∃ p', toggleNoScroll p = (Throw SyntaxError, p')
        ∧ scrollTop p' = scrollTop p
        ∧ (∀ n, classList (els p' n) = classList (els p n))
        ∧ attribute_of p' helper "data-scroll-top" = Some (string_of_Z (- scrollTop p))
        ∧ (helper ≠ inner → style (els p' helper) !! "overflow" = Some "hidden")
        ∧ style (els p' inner) !! "top" = Some (px (- scrollTop p))
        ∧ log p' = log p ++
            [ AttributeSet helper "data-scroll-top" (string_of_Z (- scrollTop p));
              StyleSet helper "position" "relative"; StyleSet helper "overflow" "hidden";
              StyleSet helper "height" "100vh"; StyleSet helper "width" "100%";
              StyleSet inner "position" "absolute"; StyleSet inner "top" (px (- scrollTop p));
              StyleSet inner "height" "100%"; StyleSet inner "width" "100%" ].
Proof.
  intros Hs Hbody Hh Hi Hover.
  apply Z.ltb_ge in Hover.
  unfold toggleNoScroll. rewrite bind_get, Hs, Hbody, Hover. cbn [negb].
  rewrite Hh, Hi. unfold classList_add. cbn [check_tokens check_token bool_decide].
  eexists. split; [reflexivity|]. cbv beta. cbn [fst snd].
  split_and!.
  - reflexivity.
  - intros n. cbn [els emit set_els set_scrollTop]. by rewrite !classList_upd_keep.
  - unfold attribute_of. cbn [els emit set_els set_scrollTop].
    rewrite !attributes_upd_keep by done. rewrite upd_same.
    cbn [attributes with_attributes]. apply lookup_insert_eq.
  - intros Hne. cbn [els emit set_els set_scrollTop].
    rewrite !(upd_other inner) by done.
    rewrite upd_same. cbn [style with_style]. rewrite lookup_insert_ne by done.
    rewrite upd_same. cbn [style with_style]. rewrite lookup_insert_ne by done.
    rewrite upd_same. cbn [style with_style]. apply lookup_insert_eq.
  - cbn [els emit set_els set_scrollTop].
    rewrite upd_same. cbn [style with_style]. rewrite lookup_insert_ne by done.
    rewrite upd_same. cbn [style with_style]. rewrite lookup_insert_ne by done.
    rewrite upd_same. cbn [style with_style]. apply lookup_insert_eq.
  - cbn [log emit set_els set_scrollTop]. rewrite <- !app_assoc. reflexivity.
Qed.

Lemma elem_of_add_token_inv l token x : x ∈ add_token l token → x ∈ l ∨ x = token.
Proof.
  unfold add_token. case_bool_decide; [by left|].
  rewrite elem_of_app, list_elem_of_singleton. tauto.
Qed.

(** X10.  [toggleNoScroll] does not toggle.  On a document taller than
    the window the first call locks the page: it stores the offset in
    [data-scroll-top], clips the helper, shifts the inner helper by the
    offset, adds the overflow class to the body and scrolls to the top.
    It never adds [openStatusBodyClass], the class it tests, so a second
    call (whatever the layout [v] is by then, as long as the document is
    taller than the window) locks again: the helper stays clipped, the
    overflow class stays, nothing is scrolled back, and the stored
    offset is overwritten by ["0"]. *)
Theorem toggleNoScroll_locks_again p helper inner v :
  scrollHelper (opts p) = true →
  has_class p (bodyNode p) (openStatusBodyClass (opts p)) = false →
  openStatusBodyClass (opts p) ≠ openStatusBodyClassOverflow (opts p) →
  scrollHelperNode p = Some helper → scrollInnerNode p = Some inner → helper ≠ inner →
  check_token (openStatusBodyClassOverflow (opts p)) = None →
  (innerHeight (view p) < scrollHeight (view p))%Z →
  (innerHeight v < scrollHeight v)%Z →
  let p1 := after toggleNoScroll p in
  let p2 := after toggleNoScroll (with_view v p1) in
  (outcome toggleNoScroll p = Ok tt
   ∧ scrollTop p1 = 0%Z
   ∧ attribute_of p1 helper "data-scroll-top" = Some (string_of_Z (- scrollTop p))
   ∧ style (els p1 helper) !! "overflow" = Some "hidden"
   ∧ style (els p1 inner) !! "top" = Some (px (- scrollTop p))
   ∧ has_class p1 (bodyNode p) (openStatusBodyClassOverflow (opts p)) = true
   ∧ has_class p1 (bodyNode p) (openStatusBodyClass (opts p)) = false)
  ∧ (outcome toggleNoScroll (with_view v p1) = Ok tt
     ∧ scrollTop p2 = 0%Z
     ∧ attribute_of p2 helper "data-scroll-top" = Some "0"
     ∧ style (els p2 helper) !! "overflow" = Some "hidden"
     ∧ has_class p2 (bodyNode p) (openStatusBodyClassOverflow (opts p)) = true
     ∧ has_class p2 (bodyNode p) (openStatusBodyClass (opts p)) = false
     ∧ ScrolledTo 0 ∈ effects_of toggleNoScroll (with_view v p1)
     ∧ ∀ z, ScrolledTo z ∈ effects_of toggleNoScroll (with_view v p1) → z = 0%Z).
Proof.
  intros Hs Hbody Hne Hh Hi Hhi Htoken Hover Hv. cbv zeta.
  destruct (toggleNoScroll_lock p helper inner Hs Hbody Hh Hi Hover Htoken)
    as (p1 & E1 & Htop1 & Hcl1 & Hattr1 & Hst1 & Hin1 & Hlog1).
  pose proof (preserved same_setup _ _ _ _ setup_toggleNoScroll E1)
    as (Ho & _ & _ & _ & Hb & Hsh & Hsi & _).
  assert (Hover1 : has_class p1 (bodyNode p) (openStatusBodyClassOverflow (opts p)) = true).
  { unfold has_class. rewrite Hcl1, decide_True by done.
    apply bool_decide_eq_true, in_add_token. }
  assert (Hbody1 : has_class p1 (bodyNode p) (openStatusBodyClass (opts p)) = false).
  { unfold has_class in *. rewrite Hcl1, decide_True by done.
    apply bool_decide_eq_false. intros [H| H]%elem_of_add_token_inv; [|done].
    by apply bool_decide_eq_false in Hbody. }
  destruct (toggleNoScroll_lock (with_view v p1) helper inner) as
    (p2 & E2 & Htop2 & Hcl2 & Hattr2 & Hst2 & Hin2 & Hlog2).
  { cbn [opts with_view]. by rewrite Ho. }
  { unfold has_class. cbn [opts with_view bodyNode els]. fold (has_class p1 (bodyNode p1)).
    by rewrite Hb, Ho. }
  { cbn [scrollHelperNode with_view]. by rewrite Hsh. }
  { cbn [scrollInnerNode with_view]. by rewrite Hsi. }
  { exact Hv. }
  { cbn [opts with_view]. by rewrite Ho. }
  cbn [opts with_view bodyNode els scrollTop log] in Hcl2, Hattr2, Hlog2.
  rewrite Hb, Ho in Hcl2. rewrite Htop1 in Hattr2.
  unfold effects_of, outcome, after. rewrite E1. cbn [fst snd]. rewrite E2. cbn [fst snd].
  cbn [log with_view].
  split; split_and!; try done.
  - by apply Hst1.
  - by apply Hst2.
  - unfold has_class. rewrite Hcl2, decide_True by done.
    apply bool_decide_eq_true, in_add_token.
  - unfold has_class in *. rewrite Hcl2, decide_True by done.
    apply bool_decide_eq_false. intros [H| H]%elem_of_add_token_inv; [|done].
    by apply bool_decide_eq_false in Hbody1.
  - rewrite Hlog2, drop_app_length. set_solver.
  - intros z. rewrite Hlog2, drop_app_length.
    rewrite !elem_of_cons, elem_of_nil.
    intros H. destruct_or!; try discriminate; try done. by injection H.
Qed.

Lemma toggleNoScroll_locks_again_witness :
  attribute_of (after toggleNoScroll (with_view sampleView (after toggleNoScroll samplePage)))
    3 "data-scroll-top" = Some "0".
Proof.
  refine (proj1 (proj2 (proj2 (proj2
            (toggleNoScroll_locks_again samplePage 3 4 sampleView _ _ _ _ _ _ _ _ _)))));
    first [ vm_compute; reflexivity | compute_done ].
Defined.

(** X11.  The close timer never releases the scroll lock.  Its call of
    [toggleNoScroll] finds the body without [openStatusBodyClass] and
    locks once more: when the timer has run the helper is still clipped,
    the stored offset is overwritten with the offset of that moment, and
    nothing was scrolled anywhere but to the top.  On a document taller
    than the window the callback completes, the closed event is its last
    effect and the body carries the overflow class. *)
Theorem close_timer_never_unlocks p m helper inner :
  menu p = Some m →
  scrollHelper (opts p) = true →
  scrollHelperNode p = Some helper → scrollInnerNode p = Some inner → helper ≠ inner →
  has_class p (bodyNode p) (openStatusBodyClass (opts p)) = false →
  openStatusBodyClass (opts p) ≠ openStatusBodyClassOverflow (opts p) →
  check_tokens [openStatusClass (opts p); animationCloseStatusClass (opts p)] = None →
  check_token (openStatusBodyClassOverflow (opts p)) = None →
  let p' := after (run_callback CloseDone) p in
  style (els p' helper) !! "overflow" = Some "hidden"
  ∧ attribute_of p' helper "data-scroll-top" = Some (string_of_Z (- scrollTop p))
  ∧ has_class p' (bodyNode p) (openStatusBodyClass (opts p)) = false
  ∧ (∀ z, ScrolledTo z ∈ effects_of (run_callback CloseDone) p → z = 0%Z)
  ∧ ((innerHeight (view p) < scrollHeight (view p))%Z →
     outcome (run_callback CloseDone) p = Ok tt
     ∧ last (effects_of (run_callback CloseDone) p)
       = Some (Dispatched "madj2k-slidemenu-closed")
     ∧ has_class p' (bodyNode p) (openStatusBodyClassOverflow (opts p)) = true
     ∧ scrollTop p' = 0%Z).
Proof.
  intros Hm Hs Hh Hi Hhi Hbody Hne Htok Htoken. cbv zeta.
  pose proof (check_tokens_pair _ _ Htok) as Htok2.
  set (q := emit (ClassesRemoved (toggle p) [animationCloseStatusClass (opts p)])
              (set_els (upd (toggle p) (λ e, with_classList
                  (remove_tokens [animationCloseStatusClass (opts p)] (classList e)) e))
              (emit (ClassesRemoved m [openStatusClass (opts p);
                                       animationCloseStatusClass (opts p)])
                (set_els (upd m (λ e, with_classList
                    (remove_tokens [openStatusClass (opts p);
                                    animationCloseStatusClass (opts p)] (classList e)) e))
                   p)))).
  assert (E : run_callback CloseDone p
              = (toggleNoScroll >> dispatchEvent "madj2k-slidemenu-closed") q).
  { unfold run_callback. rewrite bind_get, Hm, bind_deref.
    unfold classList_remove. rewrite Htok, bind_modify, Htok2, bind_modify. reflexivity. }
  assert (Hq : has_class q (bodyNode p) (openStatusBodyClass (opts p)) = false).
  { unfold has_class in *. subst q. cbn [els emit]. fold (has_class p).
    apply has_class_remove_false, has_class_remove_false, Hbody. }
  assert (Hlogq : log q = log p ++ [ClassesRemoved m [openStatusClass (opts p);
                                                     animationCloseStatusClass (opts p)];
                                    ClassesRemoved (toggle p)
                                      [animationCloseStatusClass (opts p)]]).
  { subst q. cbn [log emit set_els]. by rewrite <- app_assoc. }
  unfold effects_of, outcome, after. rewrite E.
  destruct (Z.lt_ge_cases (innerHeight (view p)) (scrollHeight (view p))) as [Hover|Hover].
  - destruct (toggleNoScroll_lock q helper inner Hs Hq Hh Hi Hover Htoken)
      as (q' & E' & Htop & Hcl & Hattr & Hst & _ & Hlog).
    rewrite (bind_run _ _ _ _ _ E'). unfold dispatchEvent, modify. cbn [fst snd].
    unfold has_class, attribute_of in *. cbn [els emit scrollTop log]. change (bodyNode q) with (bodyNode p) in Hcl.
    change (opts q) with (opts p) in Hcl, Hlog. change (scrollTop q) with (scrollTop p) in *.
    assert (Hb' : classList (els q' (bodyNode p))
                  = add_token (classList (els q (bodyNode p)))
                      (openStatusBodyClassOverflow (opts p))).
    { by rewrite Hcl, decide_True. }
    rewrite Hb'. rewrite Hlog, Hlogq, <- !app_assoc, drop_app_length.
    split_and!; try done.
    + by apply Hst.
    + apply bool_decide_eq_false. intros [H| H]%elem_of_add_token_inv; [|done].
      by apply bool_decide_eq_false in Hq.
    + intros z. rewrite !elem_of_app, !elem_of_cons, elem_of_nil.
      intros H. destruct_or!; try discriminate; try done. by injection H.
    + intros _. split_and!; try done.
      apply bool_decide_eq_true, in_add_token.
  - destruct (toggleNoScroll_lock_throws q helper inner Hs Hq Hh Hi Hover)
      as (q' & E' & Htop & Hcl & Hattr & Hst & _ & Hlog).
    rewrite (bind_throw _ _ _ _ _ E'). cbn [fst snd].
    change (opts q) with (opts p) in Hlog. change (scrollTop q) with (scrollTop p) in *.
    unfold has_class, attribute_of in *. rewrite Hcl. rewrite Hlog, Hlogq, <- !app_assoc, drop_app_length.
    split_and!; try done.
    + by apply Hst.
    + intros z. rewrite !elem_of_app, !elem_of_cons, elem_of_nil.
      intros H. destruct_or!; discriminate.
    + lia.
Qed.

Lemma close_timer_never_unlocks_witness :
  style (els (after (run_callback CloseDone) closingPage) 3) !! "overflow" = Some "hidden".
Proof.
  refine (proj1 (close_timer_never_unlocks closingPage 1 3 4 _ _ _ _ _ _ _ _ _));
    first [ vm_compute; reflexivity | compute_done ].
Defined.

(** ** Card positions *)

(** A loop whose body rewrites the element it visits, or skips it. *)
Lemma forEach_els (f : node → M unit) (g : element → element) (c : node → bool) l :
  (∀ n p, c n = true → ∃ p', f n p = (Ok tt, p') ∧ ∀ x, els p' x = upd n g (els p) x) →
  (∀ n p, c n = false → f n p = (Ok tt, p)) →
  (∀ e, g (g e) = g e) →
  ∀ p, ∃ p', forEach f l p = (Ok tt, p')
             ∧ ∀ x, els p' x = if bool_decide (x ∈ l) && c x then g (els p x) else els p x.
Proof.
  intros Hact Hskip Hidem. induction l as [|y r IH]; intros p.
  - exists p. split; [done|]. intros x. rewrite bool_decide_eq_false_2; [done|].
    apply not_elem_of_nil.
  - cbn [forEach]. destruct (c y) eqn:Hy.
    + destruct (Hact y p Hy) as (p1 & E1 & H1). rewrite (bind_run _ _ _ _ _ E1).
      destruct (IH p1) as (p' & E & H). exists p'. split; [exact E|].
      intros x. rewrite H, H1. destruct (decide (x = y)) as [->|Hxy].
      * rewrite upd_same, Hy, andb_true_r.
        rewrite (bool_decide_eq_true_2 (y ∈ y :: r)) by apply list_elem_of_here.
        by destruct (bool_decide (y ∈ r)).
      * rewrite upd_other by done.
        destruct (decide (x ∈ r)) as [Hx|Hx].
        -- rewrite !bool_decide_eq_true_2; [done | by apply list_elem_of_further | done].
        -- rewrite !bool_decide_eq_false_2; [done | | done].
           rewrite elem_of_cons. tauto.
    + rewrite (bind_run _ _ _ _ _ (Hskip y p Hy)).
      destruct (IH p) as (p' & E & H). exists p'. split; [exact E|].
      intros x. rewrite H. destruct (decide (x = y)) as [->|Hxy].
      * by rewrite Hy, !andb_false_r.
      * destruct (decide (x ∈ r)) as [Hx|Hx].
        -- rewrite !bool_decide_eq_true_2; [done | by apply list_elem_of_further | done].
        -- rewrite !bool_decide_eq_false_2; [done | | done].
           rewrite elem_of_cons. tauto.
Qed.

Lemma setStyle_run n k v p :
  setStyle n k v p
  = (Ok tt, emit (StyleSet n k v)
              (set_els (upd n (λ e, with_style (<[k := v]> (style e)) e)) p)).
Proof. reflexivity. Qed.

(** X12.  Where [repositionCards] leaves the cards.  With an open card,
    the open card and every ancestor of it that carries the card class
    are at [left: 0] and every other card is at [left: 100%].  Without
    an open card it throws a [TypeError] at [$openCard.parentElement],
    despite its guard two lines above, after it has moved every card
    to [left: 100%]. *)
Theorem repositionCards_positions p :
  let p' := after repositionCards p in
  match openCard (ctl p) with
  | Some card =>
      let shown x :=
        bool_decide (x = card)
        || bool_decide (x ∈ ancestorsOf (tree p) card)
           && has_class p x (menuCardClass (opts p)) in
      outcome repositionCards p = Ok tt
      ∧ (∀ x, shown x = true → style (els p' x) !! "left" = Some "0")
      ∧ (∀ x, x ∈ cards (ctl p) → shown x = false →
              style (els p' x) !! "left" = Some "100%")
  | None =>
      outcome repositionCards p = Throw TypeError
      ∧ ∀ x, x ∈ cards (ctl p) → style (els p' x) !! "left" = Some "100%"
  end.
Proof.
  cbv zeta.
  set (g1 := λ e, with_style (<["left" := "100%"]> (<["transition" := "none"]> (style e))) e).
  set (g0 := λ e, with_style (<["left" := "0"]> (style e)) e).
  destruct (forEach_els
              (λ card, setStyle card "transition" "none" >> setStyle card "left" "100%")
              g1 (λ _, true) (cards (ctl p))) with (p := p) as (q1 & E1 & H1).
  { intros n q _. eexists. split; [reflexivity|]. intros x. cbn [els emit set_els].
    unfold upd. by destruct (decide (x = n)). }
  { discriminate. }
  { intros e. unfold g1, with_style. cbn [classList attributes style]. f_equal.
    apply map_eq. intros i.
    destruct (decide (i = "left")) as [->|Hl].
    { rewrite !lookup_insert_eq. reflexivity. }
    destruct (decide (i = "transition")) as [->|Ht].
    { rewrite !(lookup_insert_ne _ "left"), !lookup_insert_eq by done. reflexivity. }
    rewrite !lookup_insert_ne by done. reflexivity. }
  assert (Hf : ∀ R `{!PreOrder R},
             (∀ n k v, preserves R (setStyle n k v)) →
             preserves R (forEach (λ card, setStyle card "transition" "none"
                                           >> setStyle card "left" "100%") (cards (ctl p)))).
  { intros R ? HR. apply preserves_forEach; [done|]. intros x.
    apply preserves_bind; [done | apply HR | intros _; apply HR]. }
  pose proof (preserved same_setup _ _ _ _ (Hf _ _ setup_setStyle) E1) as (Ho & _).
  pose proof (preserved same_ctl _ _ _ _ (Hf _ _ ctl_setStyle) E1) as Hc.
  pose proof (preserved same_tree _ _ _ _ (Hf _ _ tree_setStyle) E1) as Htr.
  pose proof (preserved same_classes _ _ _ _ (Hf _ _ classes_setStyle) E1) as Hcl.
  clear Hf. unfold same_ctl, same_tree in *.
  unfold outcome, after, repositionCards. rewrite bind_get, (bind_run _ _ _ _ _ E1).
  destruct (openCard (ctl p)) as [card|].
  - rewrite (bind_run _ _ _ _ _ (setStyle_run card "left" "0" q1)), bind_deref, bind_get.
    cbn [opts tree emit set_els].
    destruct (forEach_els
                (λ parent, if has_class (emit (StyleSet card "left" "0")
                                           (set_els (upd card g0) q1)) parent
                                (menuCardClass (opts q1))
                           then setStyle parent "left" "0" else ret tt)
                g0
                (λ parent, has_class p parent (menuCardClass (opts p)))
                (ancestorsOf (tree q1) card))
      with (p := emit (StyleSet card "left" "0") (set_els (upd card g0) q1))
      as (q2 & E2 & H2).
    { intros n q Hn. unfold has_class in *. cbn [els emit set_els].
      rewrite classList_upd_keep by done. rewrite Hcl, Ho, Hn.
      eexists. split; [reflexivity|]. done. }
    { intros n q Hn. unfold has_class in *. cbn [els emit set_els].
      rewrite classList_upd_keep by done. by rewrite Hcl, Ho, Hn. }
    { intros e. unfold g0, with_style. cbn [classList attributes style]. f_equal.
      apply insert_insert_eq. }
    fold g0. rewrite E2. cbn [fst snd]. rewrite Htr in H2. split; [done|].
    cbn [els emit set_els] in H2.
    assert (Hleft : ∀ x, style (g0 (els q1 x)) !! "left" = Some "0"
                         ∧ style (g0 (g0 (els q1 x))) !! "left" = Some "0").
    { intros x. unfold g0. cbn [style with_style]. by rewrite !lookup_insert_eq. }
    split.
    + intros x Hx. rewrite H2.
      destruct (bool_decide (x ∈ ancestorsOf (tree p) card)
                && has_class p x (menuCardClass (opts p))) eqn:Hanc.
      * unfold g0 at 1. cbn [style with_style]. apply lookup_insert_eq.
      * rewrite orb_false_r in Hx. apply bool_decide_eq_true in Hx as ->.
        rewrite upd_same. apply Hleft.
    + intros x Hcard Hx. apply orb_false_iff in Hx as [Hne Hanc].
      apply bool_decide_eq_false in Hne.
      rewrite H2, Hanc, upd_other by done. rewrite H1, andb_true_r.
      rewrite bool_decide_eq_true_2 by done. unfold g1. cbn [style with_style].
      apply lookup_insert_eq.
  - rewrite (bind_run _ _ _ tt q1 eq_refl). cbn [deref throw bind fst snd].
    split; [done|]. intros x Hx. rewrite H1, andb_true_r, bool_decide_eq_true_2 by done.
    unfold g1. cbn [style with_style]. apply lookup_insert_eq.
Qed.

(** ** Navigation between cards *)

#[local] Instance same_queues_preorder : PreOrder same_queues.
Proof.
  split; [by intros p|]. intros p q r [? ?] [? ?]. split; congruence.
Qed.

Lemma queues_setAttribute n k v : preserves same_queues (setAttribute n k v).
Proof. by intros p. Qed.
Lemma queues_removeAttribute n k : preserves same_queues (removeAttribute n k).
Proof. by intros p. Qed.
Lemma queues_setStyle n k v : preserves same_queues (setStyle n k v).
Proof. by intros p. Qed.
Lemma queues_classList_add n t : preserves same_queues (classList_add n t).
Proof. intros p. unfold after, classList_add. by destruct (check_tokens t). Qed.
Lemma queues_classList_remove n t : preserves same_queues (classList_remove n t).
Proof. intros p. unfold after, classList_remove. by destruct (check_tokens t). Qed.
Lemma queues_set_ctl f : preserves same_queues (modify (set_ctl f)).
Proof. by intros p. Qed.
Lemma queues_dispatchEvent e : preserves same_queues (dispatchEvent e).
Proof. by intros p. Qed.
#[local] Hint Resolve queues_setAttribute queues_removeAttribute queues_setStyle
  queues_classList_add queues_classList_remove queues_set_ctl queues_dispatchEvent : frames.

Lemma queues_disableTabIndexOnAllCards : preserves same_queues disableTabIndexOnAllCards.
Proof. unfold disableTabIndexOnAllCards. frame. Qed.

(** The common start of a slide: take the menu out of the tab order,
    mark the card, place it at [from] and let the next frame move it to
    [to]; what is left to do is deferred by [d] milliseconds. *)
Lemma slide_start p m c cls from to cb d :
  menu p = Some m → check_token cls = None →
  ∃ p', (disableTabIndexOnAllCards >> classList_add c [cls]
         >> animateElement (Some c) (Some from) None (Some to) None
         >> setTimeout cb d) p = (Ok tt, p')
        ∧ has_class p' c cls = true
        ∧ style (els p' c) !! "left" = Some from
        ∧ (∀ el, el ∈ focusables (tree p) → attribute_of p' el "tabindex" = Some "-1")
        ∧ timers p' = timers p ++ [(d, cb)]
        ∧ frames p' = frames p ++ [AnimateTo c (Some to) None]
        ∧ ctl p' = ctl p.
Proof.
  intros Hm Htoken.
  destruct (disableTabIndexOnAllCards_attrs p m Hm) as (q & Eq & Hq).
  pose proof (preserved same_ctl _ _ _ _ ctl_disableTabIndexOnAllCards Eq) as Hc.
  pose proof (preserved same_queues _ _ _ _ queues_disableTabIndexOnAllCards Eq) as [Ht Hf].
  rewrite (bind_run _ _ _ _ _ Eq), (bind_run _ _ _ _ _ (classList_add_run c cls q Htoken)).
  eexists. split; [reflexivity|]. cbv beta.
  unfold has_class, attribute_of. cbn [els ctl timers frames emit set_els set_timers set_frames].
  split_and!.
  - rewrite !classList_upd_keep by done. rewrite upd_same. cbn [classList with_classList].
    apply bool_decide_eq_true, in_add_token.
  - rewrite upd_same. cbn [style with_style]. rewrite lookup_insert_ne by done.
    rewrite upd_same. cbn [style with_style]. apply lookup_insert_eq.
  - intros el Hel. rewrite !attributes_upd_keep by done.
    rewrite Hq, bool_decide_eq_true_2 by done. apply lookup_insert_eq.
  - by rewrite Ht.
  - by rewrite Hf.
  - exact Hc.
Qed.

(** X13.  How a click on a next toggle or on a back button starts.  If
    the element named by [aria-controls] (and, for the back button, the
    one named by [data-parent-card]) does not exist, the handler only
    prevents the default action.  Otherwise it takes every focusable
    element of the menu out of the tab order, marks the controlled card
    with the animation class, places it at the start position, asks for
    one animation frame to move it, and defers the change of the open
    card by [animationDuration]; [$openCard] is not changed yet. *)
Theorem card_navigation_starts p m target :
  menu p = Some m →
  check_token (animationOpenStatusClass (opts p)) = None →
  check_token (animationCloseStatusClass (opts p)) = None →
  match elementByAttribute p target "aria-controls" with
  | Some c =>
      (let p' := after (nextCardEvent target) p in
       outcome (nextCardEvent target) p = Ok tt
       ∧ has_class p' c (animationOpenStatusClass (opts p)) = true
       ∧ style (els p' c) !! "left" = Some "100%"
       ∧ (∀ el, el ∈ focusables (tree p) → attribute_of p' el "tabindex" = Some "-1")
       ∧ timers p' = timers p ++ [(animationDuration (opts p), NextDone c)]
       ∧ frames p' = frames p ++ [AnimateTo c (Some "0") None]
       ∧ ctl p' = ctl p)
      ∧ match elementByParentCard p target with
        | Some parent =>
            let p' := after (previousCardEvent target) p in
            outcome (previousCardEvent target) p = Ok tt
            ∧ has_class p' c (animationCloseStatusClass (opts p)) = true
            ∧ style (els p' c) !! "left" = Some "0"
            ∧ (∀ el, el ∈ focusables (tree p) → attribute_of p' el "tabindex" = Some "-1")
            ∧ timers p' = timers p ++ [(animationDuration (opts p), PreviousDone parent c)]
            ∧ frames p' = frames p ++ [AnimateTo c (Some "100%") None]
            ∧ ctl p' = ctl p
        | None => previousCardEvent target p = (Ok tt, emit DefaultPrevented p)
        end
  | None =>
      nextCardEvent target p = (Ok tt, emit DefaultPrevented p)
      ∧ previousCardEvent target p = (Ok tt, emit DefaultPrevented p)
  end.
Proof.
  intros Hm Hopen Hclose.
  assert (Hby : ∀ name, elementByAttribute (emit DefaultPrevented p) target name
                        = elementByAttribute p target name) by done.
  assert (Hpar : elementByParentCard (emit DefaultPrevented p) target
                 = elementByParentCard p target) by done.
  unfold outcome, after, nextCardEvent, previousCardEvent, preventDefault.
  rewrite !bind_modify, !bind_get, !Hby, Hpar.
  destruct (elementByAttribute p target "aria-controls") as [c|]; [|done].
  split.
  - destruct (slide_start (emit DefaultPrevented p) m c (animationOpenStatusClass (opts p))
                "100%" "0" (NextDone c) (animationDuration (opts p)) Hm Hopen)
      as (p' & E & H).
    cbn [opts emit]. rewrite E. cbn [fst snd]. split; [done|]. exact H.
  - destruct (elementByParentCard p target) as [parent|]; [|done].
    destruct (slide_start (emit DefaultPrevented p) m c (animationCloseStatusClass (opts p))
                "0" "100%" (PreviousDone parent c) (animationDuration (opts p)) Hm Hclose)
      as (p' & E & H).
    cbn [opts emit]. rewrite E. cbn [fst snd]. split; [done|]. exact H.
Qed.

Lemma card_navigation_starts_witness :
  timers (after (nextCardEvent 20) (after loadMenu samplePage)) = [(500, NextDone 11)].
Proof.
  refine (proj1 (proj2 (proj2 (proj2 (proj2 (proj1
            (card_navigation_starts (after loadMenu samplePage) 1 20 _ _ _)))))));
    vm_compute; reflexivity.
Defined.

Lemma toggleTabIndexOnOpenCard_runs p m :
  menu p = Some m →
  (has_class p (toggle p) (openStatusClass (opts p)) = true → is_Some (openCard (ctl p))) →
  ∃ p', toggleTabIndexOnOpenCard p = (Ok tt, p').
Proof.
  intros Hm Hcard.
  destruct (disableTabIndexOnAllCards_attrs p m Hm) as (q & Eq & _).
  pose proof (preserved same_setup _ _ _ _ setup_disableTabIndexOnAllCards Eq) as (Ho & Ht & _).
  pose proof (preserved same_ctl _ _ _ _ ctl_disableTabIndexOnAllCards Eq) as Hc.
  pose proof (preserved same_classes _ _ _ _ classes_disableTabIndexOnAllCards Eq) as Hcl.
  unfold toggleTabIndexOnOpenCard. rewrite (bind_run _ _ _ _ _ Eq), bind_get.
  unfold has_class in *. rewrite Ho, Ht, Hcl, Hc.
  destruct (bool_decide _); [|by eexists]. cbn [negb].
  destruct (Hcard eq_refl) as [card ->]. rewrite bind_deref.
  destruct (forEach_removeAttribute_if
              (λ el, (0 <? rectLeft (view q) el)%Z
                     && (rectLeft (view q) el <=? innerWidth (view q))%Z)
              "tabindex" (focusablesIn (tree q) card) q) as (q' & Eq' & _).
  by exists q'.
Qed.

Lemma toggleWaiAriaForOpenCard_runs p m :
  menu p = Some m →
  (has_class p (toggle p) (openStatusClass (opts p)) = true → is_Some (openCard (ctl p))) →
  ∃ p', toggleWaiAriaForOpenCard p = (Ok tt, p').
Proof.
  intros Hm Hcard.
  destruct (forEach_setAttribute_attrs "aria-expanded" "false" (nextToggles (tree p)) p)
    as (q & Eq & _).
  assert (Hf : ∀ R `{!PreOrder R},
             (∀ n k v, preserves R (setAttribute n k v)) →
             preserves R (forEach (λ el, setAttribute el "aria-expanded" "false")
                            (nextToggles (tree p)))).
  { intros R ? HR. apply preserves_forEach; [done|]. intros x. apply HR. }
  pose proof (preserved same_setup _ _ _ _ (Hf _ _ setup_setAttribute) Eq) as (Ho & Ht & _).
  pose proof (preserved same_ctl _ _ _ _ (Hf _ _ ctl_setAttribute) Eq) as Hc.
  pose proof (preserved same_classes _ _ _ _ (Hf _ _ classes_setAttribute) Eq) as Hcl.
  clear Hf.
  unfold toggleWaiAriaForOpenCard.
  rewrite bind_get, Hm, bind_deref, (bind_run _ _ _ _ _ Eq), bind_get.
  unfold has_class in *. rewrite Ho, Ht, Hcl, Hc.
  destruct (bool_decide _); [|by eexists].
  destruct (Hcard eq_refl) as [card ->]. rewrite bind_deref.
  destruct (list_find _ _) as [[i el]|]; by eexists.
Qed.

Lemma focusFirstItemOfOpenCard_runs d p :
  ∃ p', focusFirstItemOfOpenCard d p = (Ok tt, p').
Proof.
  unfold focusFirstItemOfOpenCard. rewrite bind_get.
  destruct (openCard (ctl p)) as [card|]; [|by eexists].
  destruct (list_find _ _) as [[i el]|]; by eexists.
Qed.

(** [changeOpenCard] on a loaded menu completes, whatever the card. *)
Lemma changeOpenCard_runs p m c :
  menu p = Some m → check_token (openCardStatusClass (opts p)) = None →
  ∃ p', changeOpenCard (Some c) p = (Ok tt, p')
        ∧ openCard (ctl p') = Some c
        ∧ has_class p' c (openCardStatusClass (opts p)) = true
        ∧ same_setup p p'.
Proof.
  intros Hm Htoken.
  destruct (setOpenCard_run p c Htoken) as (p1 & E1 & Hc1 & Ho1 & _ & Hin1).
  pose proof (preserved same_setup _ _ _ _ (setup_setOpenCard _) E1) as Hs1.
  assert (Hm1 : menu p1 = Some m) by (destruct Hs1 as (_ & _ & -> & _); done).
  assert (Hopen1 : openCard (ctl p1) = Some c) by (by rewrite Hc1).
  destruct (toggleTabIndexOnOpenCard_runs p1 m Hm1) as (p2 & E2); [by rewrite Hopen1|].
  pose proof (preserved same_setup _ _ _ _ setup_toggleTabIndexOnOpenCard E2) as Hs2.
  pose proof (preserved same_ctl _ _ _ _ ctl_toggleTabIndexOnOpenCard E2) as Hc2.
  pose proof (preserved same_classes _ _ _ _ classes_toggleTabIndexOnOpenCard E2) as Hcl2.
  assert (Hm2 : menu p2 = Some m) by (destruct Hs2 as (_ & _ & -> & _); done).
  destruct (toggleWaiAriaForOpenCard_runs p2 m Hm2) as (p3 & E3).
  { unfold same_ctl in Hc2. by rewrite Hc2, Hopen1. }
  pose proof (preserved same_setup _ _ _ _ setup_toggleWaiAriaForOpenCard E3) as Hs3.
  pose proof (preserved same_ctl _ _ _ _ ctl_toggleWaiAriaForOpenCard E3) as Hc3.
  pose proof (preserved same_classes _ _ _ _ classes_toggleWaiAriaForOpenCard E3) as Hcl3.
  destruct (focusFirstItemOfOpenCard_runs 0 p3) as (p4 & E4).
  pose proof (preserved same_setup _ _ _ _ (setup_focusFirstItemOfOpenCard _) E4) as Hs4.
  pose proof (preserved same_ctl _ _ _ _ (ctl_focusFirstItemOfOpenCard _) E4) as Hc4.
  pose proof (preserved same_classes _ _ _ _ (classes_focusFirstItemOfOpenCard _) E4) as Hcl4.
  exists p4. unfold changeOpenCard.
  rewrite (bind_run _ _ _ _ _ E1), (bind_run _ _ _ _ _ E2), (bind_run _ _ _ _ _ E3), E4.
  unfold same_ctl in *. split_and!.
  - done.
  - by rewrite Hc4, Hc3, Hc2.
  - unfold has_class. rewrite Hcl4, Hcl3, Hcl2. by apply bool_decide_eq_true.
  - do 3 (etransitivity; [eassumption|]). done.
Qed.

(** What the deferred body of a card change does after
    [changeOpenCard]. *)
Lemma card_change_completes p m card other token event :
  menu p = Some m →
  check_token (openCardStatusClass (opts p)) = None →
  check_token token = None → token ≠ openCardStatusClass (opts p) →
  ∃ p', (changeOpenCard (Some card) >> classList_remove other [token]
         >> dispatchEvent event) p = (Ok tt, p')
        ∧ openCard (ctl p') = Some card
        ∧ has_class p' card (openCardStatusClass (opts p)) = true
        ∧ has_class p' other token = false
        ∧ last (log p') = Some (Dispatched event).
Proof.
  intros Hm Hshow Htoken Hne.
  destruct (changeOpenCard_runs p m card Hm Hshow) as (q & E & Hopen & Hclass & _).
  rewrite (bind_run _ _ _ _ _ E), (bind_run _ _ _ _ _ (classList_remove_run other token q Htoken)).
  eexists. split; [reflexivity|].
  unfold has_class in *. cbn [ctl els log emit set_els]. split_and!.
  - done.
  - apply bool_decide_eq_true. apply bool_decide_eq_true in Hclass.
    unfold upd. destruct (decide (card = other)) as [_|_]; [|done].
    cbn [classList with_classList]. apply elem_of_remove_tokens. split; [done|].
    rewrite list_elem_of_singleton. congruence.
  - apply bool_decide_eq_false. rewrite upd_same. cbn [classList with_classList].
    apply not_in_remove_tokens.
  - apply last_snoc.
Qed.



(** ** The synchronous part of [open] *)

#[local] Instance keeps_class_preorder n token : PreOrder (keeps_class n token).
Proof.
  split; [intros p H; exact H | intros p q r Hpq Hqr H; apply Hqr, Hpq, H].
Qed.

Lemma keeps_class_same_classes n token (m : M unit) :
  preserves same_classes m → preserves (keeps_class n token) m.
Proof. intros Hm p. specialize (Hm p). unfold keeps_class, has_class. by rewrite Hm. Qed.

Lemma elem_of_foldl_add_token tokens : ∀ l x, x ∈ l → x ∈ foldl add_token l tokens.
Proof.
  induction tokens as [|t r IH]; intros l x Hx; [done|].
  cbn [foldl]. by apply IH, elem_of_add_token.
Qed.

Lemma in_foldl_add_token tokens : ∀ l x, x ∈ tokens → x ∈ foldl add_token l tokens.
Proof.
  induction tokens as [|t r IH]; intros l x Hx; [by apply elem_of_nil in Hx|].
  cbn [foldl]. apply elem_of_cons in Hx as [->|Hx].
  - apply elem_of_foldl_add_token, in_add_token.
  - by apply IH.
Qed.

Lemma keeps_class_classList_add n token el tokens :
  preserves (keeps_class n token) (classList_add el tokens).
Proof.
  intros p. unfold keeps_class, has_class, after, classList_add.
  destruct (check_tokens tokens); [done|]. cbn [snd modify els emit set_els].
  intros H. apply bool_decide_eq_true in H. apply bool_decide_eq_true.
  unfold upd. destruct (decide (n = el)) as [->|]; [|done].
  cbn [classList with_classList]. by apply elem_of_foldl_add_token.
Qed.

Lemma keeps_class_classList_remove n token el tokens :
  token ∉ tokens → preserves (keeps_class n token) (classList_remove el tokens).
Proof.
  intros Hne p. unfold keeps_class, has_class, after, classList_remove.
  destruct (check_tokens tokens); [done|]. cbn [snd modify els emit set_els].
  intros H. apply bool_decide_eq_true in H. apply bool_decide_eq_true.
  unfold upd. destruct (decide (n = el)) as [->|]; [|done].
  cbn [classList with_classList]. by apply elem_of_remove_tokens.
Qed.

Lemma keeps_class_setAttribute n token el k v :
  preserves (keeps_class n token) (setAttribute el k v).
Proof. apply keeps_class_same_classes, classes_setAttribute. Qed.
Lemma keeps_class_setStyle n token el k v :
  preserves (keeps_class n token) (setStyle el k v).
Proof. apply keeps_class_same_classes, classes_setStyle. Qed.
Lemma keeps_class_set_ctl n token f : preserves (keeps_class n token) (modify (set_ctl f)).
Proof. apply keeps_class_same_classes, classes_set_ctl. Qed.

#[local] Hint Resolve keeps_class_classList_add keeps_class_setAttribute keeps_class_setStyle
  keeps_class_set_ctl : frames.
#[local] Hint Extern 1 (preserves (keeps_class _ _) (classList_remove _ _)) =>
  apply keeps_class_classList_remove;
  repeat (apply not_elem_of_cons; split; [congruence|]); apply not_elem_of_nil : frames.

Lemma keeps_class_setOpenCard n token card p :
  token ≠ openCardStatusClass (opts p) →
  keeps_class n token p (after (setOpenCard card) p).
Proof.
  intros Hne. unfold setOpenCard.
  assert (H : ∀ q, opts q = opts p →
                preserves (keeps_class n token)
                  (forEach (λ c, classList_remove c [openCardStatusClass (opts q)])
                     (cards (ctl q)) >>
                   let* c := deref card in
                   classList_add c [openCardStatusClass (opts q)])).
  { intros q Hq. rewrite Hq. frame. }
  unfold after. rewrite bind_modify, bind_get.
  specialize (H (set_ctl (with_openCard card) p) eq_refl (set_ctl (with_openCard card) p)).
  exact H.
Qed.

Lemma keeps_attribute_same_attributes n name value (m : M unit) :
  (∀ p x, attributes (els (after m p) x) = attributes (els p x)) →
  preserves (keeps_attribute n name value) m.
Proof. intros Hm p. unfold keeps_attribute, attribute_of. by rewrite Hm. Qed.

Lemma keeps_attribute_classList_add n name value el tokens :
  preserves (keeps_attribute n name value) (classList_add el tokens).
Proof.
  apply keeps_attribute_same_attributes. intros p x. unfold after, classList_add.
  destruct (check_tokens tokens); [done|]. cbn [snd modify els emit set_els].
  by rewrite attributes_upd_keep.
Qed.

Lemma keeps_attribute_classList_remove n name value el tokens :
  preserves (keeps_attribute n name value) (classList_remove el tokens).
Proof.
  apply keeps_attribute_same_attributes. intros p x. unfold after, classList_remove.
  destruct (check_tokens tokens); [done|]. cbn [snd modify els emit set_els].
  by rewrite attributes_upd_keep.
Qed.

Lemma keeps_attribute_set_ctl n name value f :
  preserves (keeps_attribute n name value) (modify (set_ctl f)).
Proof. by apply keeps_attribute_same_attributes. Qed.

#[local] Hint Resolve keeps_attribute_classList_add keeps_attribute_classList_remove
  keeps_attribute_set_ctl : frames.

Lemma keeps_attribute_open_tail n name value card wrap d :
  name = "tabindex" ∨ name = "aria-expanded" →
  preserves (keeps_attribute n name value)
    (setOpenCard card >> resizeCards >> repositionCards
     >> animateElement wrap None (Some "-100%") None (Some "0")
     >> setTimeout OpenDone d >> ret true).
Proof.
  intros [-> | ->]; unfold setOpenCard, resizeCards, repositionCards, animateElement,
    set_opt_style; frame.
Qed.

(** X15.  The synchronous part of a successful [open].  When [open]
    has returned [true], the menu element and the toggle carry the open
    class and the opening class, the toggle reads
    [aria-expanded="true"], every focusable element of the menu is out
    of the tab order until the timer runs, one animation frame is
    pending that moves the container to [top: 0], and the last effect
    is the timer for the deferred part, with the delay
    [animationDuration]. *)
Theorem open_synchronous p m :
  menu p = Some m → outcome open p = Ok true →
  openStatusClass (opts p) ≠ openCardStatusClass (opts p) →
  animationOpenStatusClass (opts p) ≠ openCardStatusClass (opts p) →
  let p' := after open p in
  has_class p' m (openStatusClass (opts p)) = true
  ∧ has_class p' m (animationOpenStatusClass (opts p)) = true
  ∧ has_class p' (toggle p) (openStatusClass (opts p)) = true
  ∧ has_class p' (toggle p) (animationOpenStatusClass (opts p)) = true
  ∧ attribute_of p' (toggle p) "aria-expanded" = Some "true"
  ∧ (∀ el, el ∈ focusables (tree p') → attribute_of p' el "tabindex" = Some "-1")
  ∧ (∃ w, menuWrap (ctl p') = Some w ∧ AnimateTo w None (Some "0") ∈ frames p')
  ∧ (animationDuration (opts p), OpenDone) ∈ timers p'
  ∧ last (log p') = Some (TimerSet (animationDuration (opts p)) OpenDone).
Proof.
  intros Hm Hout Hne1 Hne2. cbv zeta.
  apply run_outcome in Hout. revert Hout. generalize (after open p). intros p' E.
  unfold open in E. run_inv E.
  destruct a; cbn [negb] in E; [|discriminate E].
  run_inv E. apply deref_inv in E1 as [-> Hmq].
  pose proof (preserved same_setup _ _ _ _ setup_loadMenu E0) as (Hoq & Htq & Hmenu & _).
  rewrite Hmenu, Hm in Hmq. injection Hmq as <-.
  destruct (_ || _); [discriminate E|]. run_inv E. injection E as <-.
  rewrite Hoq, Htq in *. rename a into m.
  (* the fields no step writes *)
  assert (Hs7 : same_setup q q7).
  { pose proof (preserved same_setup _ _ _ _ (setup_dispatchEvent _) E1).
    pose proof (preserved same_setup _ _ _ _ (setup_dispatchEvent _) E2).
    pose proof (preserved same_setup _ _ _ _ setup_toggleNoScroll E3).
    pose proof (preserved same_setup _ _ _ _ setup_disableTabIndexOnAllCards E4).
    pose proof (preserved same_setup _ _ _ _ setup_positionMenu E5).
    pose proof (preserved same_setup _ _ _ _ (setup_classList_add _ _) E6).
    pose proof (preserved same_setup _ _ _ _ (setup_classList_add _ _) E7).
    pose proof (preserved same_setup _ _ _ _ (setup_setAttribute _ _ _) E8).
    by repeat (etransitivity; [eassumption|]). }
  assert (Ho7 : opts q7 = opts p) by (destruct Hs7 as (-> & _); done).
  rewrite Ho7 in *.
  (* the steps after the open card was chosen *)
  assert (Etail : (setOpenCard (initialCard q7) >> resizeCards >> repositionCards
                   >> animateElement (menuWrap (ctl q7)) None (Some "-100%") None (Some "0")
                   >> setTimeout OpenDone (animationDuration (opts p)) >> ret true) q7
                  = (Ok true, q12)).
  { by rewrite (bind_run _ _ _ _ _ E9), (bind_run _ _ _ _ _ E10), (bind_run _ _ _ _ _ E11),
      (bind_run _ _ _ _ _ E12), (bind_run _ _ _ _ _ E13). }
  assert (Hclass : ∀ n token, token ≠ openCardStatusClass (opts p) →
                              has_class q7 n token = true → has_class q12 n token = true).
  { intros n token Hne H.
    pose proof (keeps_class_setOpenCard n token (initialCard q7) q7) as H9.
    unfold after in H9. rewrite E9, Ho7 in H9. specialize (H9 Hne H). cbn [snd] in H9.
    pose proof (preserved same_classes _ _ _ _ classes_resizeCards E10) as H10.
    pose proof (preserved same_classes _ _ _ _ classes_repositionCards E11) as H11.
    pose proof (preserved same_classes _ _ _ _ (classes_animateElement _ _ _ _ _) E12) as H12.
    pose proof (preserved same_classes _ _ _ _ (classes_setTimeout _ _) E13) as H13.
    unfold has_class in *. by rewrite H13, H12, H11, H10. }
  assert (Hattr : ∀ n name value, name = "tabindex" ∨ name = "aria-expanded" →
                    attribute_of q7 n name = Some value →
                    attribute_of q12 n name = Some value).
  { intros n name value Hname.
    exact (preserved _ _ _ _ _ (keeps_attribute_open_tail n name value _ _ _ Hname) Etail). }
  (* the classes *)
  assert (Hm5 : ∀ token, token ∈ [openStatusClass (opts p); animationOpenStatusClass (opts p)] →
                         has_class q5 m token = true).
  { intros token Htoken. revert E6. unfold classList_add.
    destruct (check_tokens _); [discriminate|]. intros ->%modify_inv.
    unfold has_class. cbn [els emit set_els]. rewrite upd_same.
    cbn [classList with_classList]. by apply bool_decide_eq_true, in_foldl_add_token. }
  assert (Ht6 : ∀ token, token ∈ [openStatusClass (opts p); animationOpenStatusClass (opts p)] →
                         has_class q6 (toggle p) token = true
                         ∧ has_class q6 m token = true).
  { intros token Htoken. split.
    - revert E7. unfold classList_add.
      destruct (check_tokens _); [discriminate|]. intros ->%modify_inv.
      unfold has_class. cbn [els emit set_els]. rewrite upd_same.
      cbn [classList with_classList]. by apply bool_decide_eq_true, in_foldl_add_token.
    - exact (preserved _ _ _ _ _ (keeps_class_classList_add m token _ _) E7 (Hm5 _ Htoken)). }
  assert (H7 : ∀ token, token ∈ [openStatusClass (opts p); animationOpenStatusClass (opts p)] →
                        has_class q7 (toggle p) token = true ∧ has_class q7 m token = true).
  { intros token Htoken. destruct (Ht6 _ Htoken) as [Ha Hb].
    pose proof (preserved same_classes _ _ _ _ (classes_setAttribute _ _ _) E8) as H8.
    unfold has_class in *. by rewrite !H8. }
  assert (Hin1 : openStatusClass (opts p)
                 ∈ [openStatusClass (opts p); animationOpenStatusClass (opts p)])
    by apply list_elem_of_here.
  assert (Hin2 : animationOpenStatusClass (opts p)
                 ∈ [openStatusClass (opts p); animationOpenStatusClass (opts p)])
    by apply list_elem_of_further, list_elem_of_here.
  (* the trees *)
  assert (Htree : tree q12 = tree q2).
  { pose proof (preserved same_tree _ _ _ _ tree_disableTabIndexOnAllCards E4) as T4.
    pose proof (preserved same_tree _ _ _ _ tree_positionMenu E5) as T5.
    pose proof (preserved same_tree _ _ _ _ (tree_classList_add _ _) E6) as T6.
    pose proof (preserved same_tree _ _ _ _ (tree_classList_add _ _) E7) as T7.
    pose proof (preserved same_tree _ _ _ _ (tree_setAttribute _ _ _) E8) as T8.
    pose proof (preserved same_tree _ _ _ _ (tree_setOpenCard _) E9) as T9.
    pose proof (preserved same_tree _ _ _ _ tree_resizeCards E10) as T10.
    pose proof (preserved same_tree _ _ _ _ tree_repositionCards E11) as T11.
    pose proof (preserved same_tree _ _ _ _ (tree_animateElement _ _ _ _ _) E12) as T12.
    pose proof (preserved same_tree _ _ _ _ (tree_setTimeout _ _) E13) as T13.
    unfold same_tree in *. congruence. }
  split_and!.
  - apply Hclass; [done|]. by apply H7.
  - apply Hclass; [done|]. by apply H7.
  - apply Hclass; [done|]. by apply H7.
  - apply Hclass; [done|]. by apply H7.
  - apply Hattr; [by right|]. apply modify_inv in E8. rewrite E8.
    unfold attribute_of. cbn [els emit set_els]. rewrite upd_same.
    cbn [attributes with_attributes]. apply lookup_insert_eq.
  - intros el Hel. rewrite Htree in Hel. apply Hattr; [by left|].
    assert (Hm2 : menu q2 = Some m).
    { pose proof (preserved same_setup _ _ _ _ (setup_dispatchEvent _) E1) as (_ & _ & M1 & _).
      pose proof (preserved same_setup _ _ _ _ (setup_dispatchEvent _) E2) as (_ & _ & M2 & _).
      pose proof (preserved same_setup _ _ _ _ setup_toggleNoScroll E3) as (_ & _ & M3 & _).
      congruence. }
    destruct (disableTabIndexOnAllCards_attrs q2 m Hm2) as (q3' & E4' & H3).
    rewrite E4 in E4'. destruct a3. injection E4' as <-.
    assert (H3' : attribute_of q3 el "tabindex" = Some "-1").
    { unfold attribute_of. rewrite H3, bool_decide_eq_true_2 by done. apply lookup_insert_eq. }
    assert (Htail3 : preserves (keeps_attribute el "tabindex" "-1")
              (positionMenu >> classList_add m
                 [openStatusClass (opts p); animationOpenStatusClass (opts p)]
               >> classList_add (toggle p)
                    [openStatusClass (opts p); animationOpenStatusClass (opts p)]
               >> setAttribute (toggle p) "aria-expanded" "true")).
    { unfold positionMenu. frame. }
    apply (preserved _ _ q3 (Ok a7) q7 Htail3); [|exact H3'].
    by rewrite (bind_run _ _ _ _ _ E5), (bind_run _ _ _ _ _ E6), (bind_run _ _ _ _ _ E7).
  - unfold animateElement in E12. rewrite bind_get in E12.
    destruct (menuWrap (ctl q7)) as [w|] eqn:Hw; [|discriminate E12].
    exists w. split.
    + pose proof (preserved same_ctl _ _ _ _ ctl_resizeCards E10) as C10.
      pose proof (preserved same_ctl _ _ _ _ ctl_repositionCards E11) as C11.
      assert (C12 : ctl q11 = ctl q10).
      { apply (preserved same_ctl _ _ (Ok a11) _
                 (ctl_animateElement (Some w) None (Some "-100%") None (Some "0"))).
        unfold animateElement. by rewrite bind_get. }
      pose proof (preserved same_ctl _ _ _ _ (ctl_setTimeout _ _) E13) as C13.
      destruct (setOpenCard_ok _ _ _ _ E9) as (c & _ & C9).
      unfold same_ctl in *. rewrite C13, C12, C11, C10, C9. exact Hw.
    + apply modify_inv in E13. rewrite E13. cbn [frames emit set_timers].
      rewrite bind_deref in E12. cbn [set_opt_style] in E12.
      unfold setStyle, requestAnimationFrame in E12. rewrite !bind_modify in E12.
      apply modify_inv in E12. rewrite E12. cbn [frames emit set_frames].
      apply elem_of_app. right. apply list_elem_of_here.
  - apply modify_inv in E13. rewrite E13. cbn [timers emit set_timers].
    apply elem_of_app. right. apply list_elem_of_here.
  - apply modify_inv in E13. rewrite E13. cbn [log emit]. apply last_snoc.
Qed.

Lemma open_synchronous_witness :
  attribute_of (after open samplePage) 0 "aria-expanded" = Some "true".
Proof.
  refine (proj1 (proj2 (proj2 (proj2 (proj2 (open_synchronous samplePage 1 _ _ _ _))))));
    first [ vm_compute; reflexivity | compute_done ].
Defined.

(** ** The open timer *)

#[local] Instance same_attribute_preorder name : PreOrder (same_attribute name).
Proof.
  split; [by intros p n|]. intros p q r Hpq Hqr n. by rewrite Hqr, Hpq.
Qed.

Lemma same_attribute_setAttribute name el k v :
  k ≠ name → preserves (same_attribute name) (setAttribute el k v).
Proof.
  intros Hk p n. unfold after, setAttribute, modify. cbn [snd els emit set_els].
  unfold upd. destruct (decide (n = el)) as [->|]; [|done].
  cbn [attributes with_attributes]. by rewrite lookup_insert_ne.
Qed.

Lemma same_attribute_quiet name (m : M unit) :
  (∀ p x, attributes (els (after m p) x) = attributes (els p x)) →
  preserves (same_attribute name) m.
Proof. intros Hm p n. by rewrite Hm. Qed.

Lemma same_attribute_setTimeout name cb d : preserves (same_attribute name) (setTimeout cb d).
Proof. by apply same_attribute_quiet. Qed.
Lemma same_attribute_dispatchEvent name e : preserves (same_attribute name) (dispatchEvent e).
Proof. by apply same_attribute_quiet. Qed.

#[local] Hint Resolve same_attribute_setTimeout same_attribute_dispatchEvent : frames.
#[local] Hint Extern 1 (preserves (same_attribute _) (setAttribute _ _ _)) =>
  apply same_attribute_setAttribute; discriminate : frames.

Lemma same_attribute_open_rest :
  preserves (same_attribute "tabindex")
    (toggleWaiAriaForOpenCard >> focusFirstItemOfOpenCard 0
     >> dispatchEvent "madj2k-slidemenu-opened").
Proof. unfold toggleWaiAriaForOpenCard, focusFirstItemOfOpenCard. frame. Qed.

(** [toggleTabIndexOnOpenCard] while the toggle carries the open class. *)
Lemma toggleTabIndexOnOpenCard_open p m card :
  menu p = Some m →
  has_class p (toggle p) (openStatusClass (opts p)) = true →
  openCard (ctl p) = Some card →
  ∃ p', toggleTabIndexOnOpenCard p = (Ok tt, p')
        ∧ ∀ el, attributes (els p' el) !! "tabindex"
                = if bool_decide (el ∈ focusablesIn (tree p) card)
                     && ((0 <? rectLeft (view p) el)%Z
                         && (rectLeft (view p) el <=? innerWidth (view p))%Z)
                  then None
                  else if bool_decide (el ∈ focusables (tree p)) then Some "-1"
                       else attributes (els p el) !! "tabindex".
Proof.
  intros Hm Hopened Hcard.
  destruct (disableTabIndexOnAllCards_attrs p m Hm) as (q & Eq & Hq).
  pose proof (preserved same_setup _ _ _ _ setup_disableTabIndexOnAllCards Eq)
    as (Ho & Ht & _ & _ & _ & _ & _ & _ & _ & Hv).
  pose proof (preserved same_ctl _ _ _ _ ctl_disableTabIndexOnAllCards Eq) as Hc.
  pose proof (preserved same_tree _ _ _ _ tree_disableTabIndexOnAllCards Eq) as Htr.
  pose proof (preserved same_classes _ _ _ _ classes_disableTabIndexOnAllCards Eq) as Hcl.
  unfold same_ctl, same_tree in *.
  assert (Hopen : has_class q (toggle q) (openStatusClass (opts q)) = true).
  { unfold has_class in *. by rewrite Ho, Ht, Hcl. }
  unfold toggleTabIndexOnOpenCard.
  rewrite (bind_run _ _ _ _ _ Eq), bind_get, Hopen, Hc, Htr, Hv, Hcard. cbn [negb].
  rewrite bind_deref.
  destruct (forEach_removeAttribute_if
              (λ el, (0 <? rectLeft (view p) el)%Z
                     && (rectLeft (view p) el <=? innerWidth (view p))%Z)
              "tabindex" (focusablesIn (tree p) card) q) as (q' & Eq' & Hq').
  exists q'. split; [exact Eq'|]. intros el. rewrite Hq'.
  destruct (bool_decide (el ∈ focusablesIn (tree p) card) && _).
  - apply lookup_delete_eq.
  - rewrite Hq. case_bool_decide; [apply lookup_insert_eq | done].
Qed.

Lemma has_class_after_remove n el tokens token p :
  has_class (set_els (upd el (λ e, with_classList (remove_tokens tokens (classList e)) e)) p)
    n token
  = has_class p n token && negb (bool_decide (n = el ∧ token ∈ tokens)).
Proof.
  unfold has_class. cbn [els set_els]. unfold upd.
  rewrite <- bool_decide_not, <- bool_decide_and. apply bool_decide_ext.
  destruct (decide (n = el)) as [->|Hn]; cbn [classList with_classList].
  - rewrite elem_of_remove_tokens. tauto.
  - tauto.
Qed.

(** The deferred part of [open], with what it leaves untouched. *)
Lemma open_timer_run p m card :
  menu p = Some m →
  has_class p (toggle p) (openStatusClass (opts p)) = true →
  openCard (ctl p) = Some card →
  check_token (animationOpenStatusClass (opts p)) = None →
  animationOpenStatusClass (opts p) ≠ openStatusClass (opts p) →
  let p' := after (run_callback OpenDone) p in
  outcome (run_callback OpenDone) p = Ok tt
  ∧ has_class p' m (animationOpenStatusClass (opts p)) = false
  ∧ has_class p' (toggle p) (animationOpenStatusClass (opts p)) = false
  ∧ has_class p' (toggle p) (openStatusClass (opts p)) = true
  ∧ has_class p' m (openStatusClass (opts p)) = has_class p m (openStatusClass (opts p))
  ∧ (∀ el, attribute_of p' el "tabindex"
           = if bool_decide (el ∈ focusablesIn (tree p) card)
                && ((0 <? rectLeft (view p) el)%Z
                    && (rectLeft (view p) el <=? innerWidth (view p))%Z)
             then None
             else if bool_decide (el ∈ focusables (tree p)) then Some "-1"
                  else attribute_of p el "tabindex")
  ∧ last (log p') = Some (Dispatched "madj2k-slidemenu-opened")
  ∧ ctl p' = ctl p ∧ tree p' = tree p ∧ opts p' = opts p
  ∧ (∀ n token, token ≠ animationOpenStatusClass (opts p) →
                has_class p' n token = has_class p n token).
Proof.
  intros Hm Hopened Hcard Htoken Hne. cbv zeta.
  set (opening := animationOpenStatusClass (opts p)) in *.
  set (q := emit (ClassesRemoved (toggle p) [opening])
              (set_els (upd (toggle p) (λ e, with_classList
                  (remove_tokens [opening] (classList e)) e))
              (emit (ClassesRemoved m [opening])
                (set_els (upd m (λ e, with_classList
                    (remove_tokens [opening] (classList e)) e)) p)))).
  assert (E : run_callback OpenDone p
              = (toggleTabIndexOnOpenCard >> toggleWaiAriaForOpenCard
                 >> focusFirstItemOfOpenCard 0
                 >> dispatchEvent "madj2k-slidemenu-opened") q).
  { unfold run_callback. rewrite bind_get, Hm, bind_deref. fold opening.
    rewrite (bind_run _ _ _ _ _ (classList_remove_run m opening p Htoken)).
    by rewrite (bind_run _ _ _ _ _ (classList_remove_run (toggle p) opening _ Htoken)). }
  assert (Hclq : ∀ n token, has_class q n token
                 = has_class p n token
                   && negb (bool_decide (n = m ∧ token ∈ [opening]))
                   && negb (bool_decide (n = toggle p ∧ token ∈ [opening]))).
  { intros n token. subst q. unfold has_class at 1. cbn [els emit].
    fold (has_class (set_els (upd (toggle p) (λ e, with_classList
                       (remove_tokens [opening] (classList e)) e))
                    (emit (ClassesRemoved m [opening])
                       (set_els (upd m (λ e, with_classList
                          (remove_tokens [opening] (classList e)) e)) p))) n token).
    rewrite has_class_after_remove. f_equal.
    unfold has_class at 1. cbn [els emit].
    fold (has_class (set_els (upd m (λ e, with_classList
                       (remove_tokens [opening] (classList e)) e)) p) n token).
    apply has_class_after_remove. }
  assert (Hin : ∀ token, token ∈ [opening] ↔ token = opening).
  { intros token. apply list_elem_of_singleton. }
  assert (Hopq : has_class q (toggle q) (openStatusClass (opts q)) = true).
  { change (toggle q) with (toggle p). change (opts q) with (opts p).
    rewrite Hclq, Hopened.
    rewrite !bool_decide_eq_false_2; [done | |]; rewrite Hin; intros [_ H]; congruence. }
  destruct (toggleTabIndexOnOpenCard_open q m card Hm Hopq Hcard) as (q1 & E1 & H1).
  pose proof (preserved same_setup _ _ _ _ setup_toggleTabIndexOnOpenCard E1) as Hs1.
  pose proof (preserved same_ctl _ _ _ _ ctl_toggleTabIndexOnOpenCard E1) as Hc1.
  pose proof (preserved same_classes _ _ _ _ classes_toggleTabIndexOnOpenCard E1) as Hcl1.
  assert (Hm1 : menu q1 = Some m) by (destruct Hs1 as (_ & _ & -> & _); done).
  destruct (toggleWaiAriaForOpenCard_runs q1 m Hm1) as (q2 & E2).
  { intros _. unfold same_ctl in Hc1. rewrite Hc1. change (ctl q) with (ctl p).
    by rewrite Hcard. }
  pose proof (preserved same_classes _ _ _ _ classes_toggleWaiAriaForOpenCard E2) as Hcl2.
  destruct (focusFirstItemOfOpenCard_runs 0 q2) as (q3 & E3).
  pose proof (preserved same_classes _ _ _ _ (classes_focusFirstItemOfOpenCard _) E3) as Hcl3.
  assert (Erest : (toggleWaiAriaForOpenCard >> focusFirstItemOfOpenCard 0
                   >> dispatchEvent "madj2k-slidemenu-opened") q1
                  = (Ok tt, emit (Dispatched "madj2k-slidemenu-opened") q3)).
  { by rewrite (bind_run _ _ _ _ _ E2), (bind_run _ _ _ _ _ E3). }
  pose proof (preserved _ _ _ _ _ same_attribute_open_rest Erest) as Hattr.
  unfold outcome, after. rewrite E, (bind_run _ _ _ _ _ E1), Erest. cbn [fst snd].
  assert (Hcls : ∀ n token, has_class (emit (Dispatched "madj2k-slidemenu-opened") q3) n token
                            = has_class q n token).
  { intros n token. unfold has_class. cbn [els emit]. by rewrite Hcl3, Hcl2, Hcl1. }
  rewrite !Hcls, !Hclq, Hopened.
  rewrite (bool_decide_eq_true_2 (m = m ∧ _)) by (by rewrite Hin).
  rewrite (bool_decide_eq_true_2 (toggle p = toggle p ∧ _)) by (by rewrite Hin).
  rewrite !(bool_decide_eq_false_2 (_ ∧ openStatusClass (opts p) ∈ _))
    by (rewrite Hin; intros [_ H]; congruence).
  rewrite !andb_false_r, !andb_true_r. cbn [negb andb].
  pose proof (preserved same_ctl _ _ _ _ ctl_toggleWaiAriaForOpenCard E2) as Hc2.
  pose proof (preserved same_ctl _ _ _ _ (ctl_focusFirstItemOfOpenCard _) E3) as Hc3.
  pose proof (preserved same_tree _ _ _ _ tree_toggleTabIndexOnOpenCard E1) as Ht1.
  pose proof (preserved same_tree _ _ _ _ tree_toggleWaiAriaForOpenCard E2) as Ht2.
  pose proof (preserved same_tree _ _ _ _ (tree_focusFirstItemOfOpenCard _) E3) as Ht3.
  pose proof (preserved same_setup _ _ _ _ setup_toggleWaiAriaForOpenCard E2) as (Ho2 & _).
  pose proof (preserved same_setup _ _ _ _ (setup_focusFirstItemOfOpenCard _) E3) as (Ho3 & _).
  destruct Hs1 as (Ho1 & _).
  unfold same_ctl, same_tree in *.
  split_and!; try done.
  - intros el. unfold attribute_of. rewrite Hattr, H1.
    change (tree q) with (tree p). change (view q) with (view p).
    assert (Hq : attributes (els q el) = attributes (els p el)).
    { subst q. cbn [els emit set_els]. by rewrite !attributes_upd_keep. }
    by rewrite Hq.
  - cbn [log emit]. apply last_snoc.
  - cbn [ctl emit]. by rewrite Hc3, Hc2, Hc1.
  - cbn [tree emit]. by rewrite Ht3, Ht2, Ht1.
  - cbn [opts emit]. by rewrite Ho3, Ho2, Ho1.
  - intros n token Htok. rewrite Hcls, Hclq.
    rewrite !bool_decide_eq_false_2; [by rewrite !andb_true_r | |];
      rewrite Hin; intros [_ H]; congruence.
Qed.




(** ** The keyboard *)

Lemma List_last_default {A} (l : list A) d : List.last l d = default d (last l).
Proof.
  induction l as [|a [|b r] IH]; [done | done |].
  change (last (a :: b :: r)) with (last (b :: r)). exact IH.
Qed.

(** X17.  What [keyboardEvent] intercepts.  A key other than ArrowUp,
    ArrowDown, Escape and Tab, an arrow key on an element that is not
    the toggle, and Tab without an open card or without a tabbable
    element in it leave the page as it is and prevent nothing.  Tab
    with an open card is a focus trap that never throws: Tab on the
    last tabbable element moves the focus to the first, Shift+Tab on
    the first moves it to the last, both prevent the default action,
    and every other Tab is left to the browser. *)
Theorem keyboardEvent_focus_trap p key shift element active :
  (key ∉ ["ArrowUp"; "ArrowDown"; "Escape"; "Tab"] →
   keyboardEvent key shift element active p = (Ok tt, p))
  ∧ (element ≠ toggle p → key = "ArrowUp" ∨ key = "ArrowDown" →
     keyboardEvent key shift element active p = (Ok tt, p))
  ∧ (key = "Tab" →
     match openCard (ctl p) with
     | None => keyboardEvent key shift element active p = (Ok tt, p)
     | Some card =>
         let l := tabbables p card in
         ∃ moved, keyboardEvent key shift element active p
                  = (Ok tt, from_option (λ n, emit (Focused n) (emit DefaultPrevented p))
                              p moved)
                  ∧ (∀ n, moved = Some n → n ∈ l)
                  ∧ (shift = false → is_Some active → active = last l → moved = head l)
                  ∧ (shift = true → is_Some active → active = head l → moved = last l)
                  ∧ (shift = false → active ≠ last l → moved = None)
                  ∧ (shift = true → active ≠ head l → moved = None)
     end).
Proof.
  unfold keyboardEvent. rewrite bind_get. split_and!.
  - intros Hkey. rewrite !not_elem_of_cons in Hkey. destruct Hkey as (? & ? & ? & ? & _).
    by rewrite !decide_False.
  - intros Hel [-> | ->].
    + by rewrite decide_True, decide_False.
    + by rewrite decide_False, decide_True, decide_False.
  - intros ->. rewrite !decide_False by done. rewrite decide_True by done.
    destruct (openCard (ctl p)) as [card|]; [|done]. cbv zeta.
    destruct (tabbables p card) as [|first rest] eqn:Hl.
    { exists None. cbn. by split_and!. }
    assert (Hlast : last (first :: rest) = Some (List.last rest first)).
    { rewrite List_last_default. destruct rest as [|b r]; [done|].
      change (last (first :: b :: r)) with (last (b :: r)).
      destruct (last (b :: r)) eqn:Hb; [done|]. by apply last_None in Hb. }
    assert (Hinl : List.last rest first ∈ first :: rest).
    { apply list_elem_of_lookup. rewrite last_lookup in Hlast. eauto. }
    rewrite Hlast. cbn [head].
    destruct shift; cbn [negb andb].
    + case_bool_decide as Ha.
      * exists (Some (List.last rest first)). subst active.
        split_and!; [done | by intros n [= <-] | done | done | done | by intros _ []].
      * exists None. by split_and!.
    + case_bool_decide as Ha.
      * exists (Some first). subst active.
        split_and!; [done | intros n [= <-]; apply list_elem_of_here
                    | done | done | by intros _ [] | done].
      * exists None. by split_and!.
Qed.

Lemma list_filter_iff_on {A} (P Q : A → Prop) `{!∀ x, Decision (P x)}
    `{!∀ x, Decision (Q x)} (l : list A) :
  (∀ x, x ∈ l → (P x ↔ Q x)) → filter P l = filter Q l.
Proof.
  induction l as [|a l IH]; intros Hl; [done|].
  rewrite !filter_cons. rewrite IH by (intros x Hx; apply Hl; by right).
  destruct (decide (P a)) as [Hp|Hp], (decide (Q a)) as [Hq|Hq]; try done.
  - destruct Hq. apply Hl; [left | done].
  - destruct Hp. apply Hl; [left | done].
Qed.



(** ** Closing before the menu was loaded *)

Lemma queues_toggleTabIndexOnOpenCard : preserves same_queues toggleTabIndexOnOpenCard.
Proof. unfold toggleTabIndexOnOpenCard, disableTabIndexOnAllCards. frame. Qed.

Lemma queues_toggleWaiAriaForOpenCard : preserves same_queues toggleWaiAriaForOpenCard.
Proof. unfold toggleWaiAriaForOpenCard. frame. Qed.

Lemma has_class_frame p p' n token :
  same_classes p p' → has_class p' n token = has_class p n token.
Proof. intros H. unfold has_class. by rewrite H. Qed.

(** X19.  [close] before the menu was loaded.  If the menu element
    carries the open class while [$menuWrap] is still unset (the class
    is in the markup, and nothing has called [loadMenu] yet), [close]
    passes its guard, dispatches the closing event, marks menu and
    toggle as closing, sets [aria-expanded="false"], and then throws a
    [TypeError] in [animateElement(null)]: no timer is set that would
    take the closing class off again, so every later [close] is a
    no-op. *)
Theorem close_before_load_throws p m :
  menu p = Some m → menuWrap (ctl p) = None → toggle p ≠ m →
  has_class p m (openStatusClass (opts p)) = true →
  has_class p m (animationCloseStatusClass (opts p)) = false →
  check_token (openStatusClass (opts p)) = None →
  check_token (animationCloseStatusClass (opts p)) = None →
  let p' := after close p in
  outcome close p = Throw TypeError
  ∧ head (effects_of close p) = Some (Dispatched "madj2k-slidemenu-closing")
  ∧ has_class p' m (animationCloseStatusClass (opts p)) = true
  ∧ attribute_of p' (toggle p) "aria-expanded" = Some "false"
  ∧ timers p' = timers p ∧ frames p' = frames p
  ∧ close p' = (Ok false, p').
Proof.
  intros Hm Hwrap Hne Hopen Hclosing Htok1 Htok2. cbv zeta.
  pose proof (close_start p m Hm Hopen Hclosing Htok1 Htok2) as E.
  destruct (closeStarted_facts p m Hne Hopen)
    as (Hm4 & Htg4 & Ho4 & Ht4 & Ha4 & _ & Hc4 & Hlog4).
  set (q := closeStarted p m) in *.
  assert (Hq : timers q = timers p ∧ frames q = frames p) by done.
  rewrite <- Ho4, <- Htg4 in Ht4. rewrite Hm in Hm4.
  destruct (toggleTabIndexOnOpenCard_closed q m Hm4 Ht4) as (s5 & E5).
  pose proof (preserved same_classes _ _ _ _ classes_toggleTabIndexOnOpenCard E5) as Hcl5.
  pose proof (preserved same_setup _ _ _ _ setup_toggleTabIndexOnOpenCard E5)
    as (Ho5 & Htg5 & Hm5 & _).
  pose proof (preserved _ _ _ _ _ (keeps_toggleTabIndexOnOpenCard (toggle q) "false") E5)
    as Hk5.
  pose proof (preserved same_queues _ _ _ _ queues_toggleTabIndexOnOpenCard E5) as [Hti5 Hfr5].
  pose proof (preserved log_grows _ _ _ _ log_toggleTabIndexOnOpenCard E5) as Hlog5.
  assert (Ht5 : has_class s5 (toggle s5) (openStatusClass (opts s5)) = false)
    by (by rewrite Ho5, Htg5, (has_class_frame _ _ _ _ Hcl5)).
  destruct (toggleWaiAriaForOpenCard_closed s5 m) as (s6 & E6 & Hk6);
    [congruence | exact Ht5 |].
  pose proof (preserved same_classes _ _ _ _ classes_toggleWaiAriaForOpenCard E6) as Hcl6.
  pose proof (preserved same_setup _ _ _ _ setup_toggleWaiAriaForOpenCard E6)
    as (Ho6 & Htg6 & Hm6 & _).
  pose proof (preserved same_queues _ _ _ _ queues_toggleWaiAriaForOpenCard E6) as [Hti6 Hfr6].
  pose proof (preserved log_grows _ _ _ _ log_toggleWaiAriaForOpenCard E6) as Hlog6.
  assert (E' : close p = (Throw TypeError, s6)).
  { rewrite E, (bind_run _ _ _ _ _ E5), (bind_run _ _ _ _ _ E6), Hwrap. reflexivity. }
  assert (Hcl : has_class s6 m (animationCloseStatusClass (opts p)) = true).
  { by rewrite (has_class_frame _ _ _ _ Hcl6), (has_class_frame _ _ _ _ Hcl5). }
  unfold effects_of, outcome, after. rewrite E'. cbn [fst snd]. split_and!.
  - done.
  - assert (Hg : log_grows q s6) by (etransitivity; eassumption).
    destruct Hg as [l Hl]. rewrite Hl, Hlog4, <- app_assoc, drop_app_length. done.
  - exact Hcl.
  - rewrite Htg5 in Hk6. rewrite <- Htg4. apply Hk6, Hk5. by rewrite Htg4.
  - rewrite Hti6, Hti5. apply Hq.
  - rewrite Hfr6, Hfr5. apply Hq.
  - unfold close. rewrite bind_get, Hm6, Hm5, Hm4, bind_deref, Ho6, Ho5, Ho4, Hcl.
    by rewrite orb_true_r.
Qed.

Lemma close_before_load_throws_witness :
  outcome close preopenedPage = Throw TypeError.
Proof.
  refine (proj1 (close_before_load_throws preopenedPage 1 _ _ _ _ _ _ _));
    first [ vm_compute; reflexivity | compute_done ].
Defined.

(** X20.  The Escape key.  [keyboardEvent] prevents the default action,
    calls [close] and then asks for the focus to go back to the toggle.
    Without a menu element [close] throws its [TypeError] and the focus
    is not moved.  On a menu that is not open, or is closing already,
    [close] does nothing, so the only effects are the prevented default
    and the timer that focuses the toggle.  Whenever [close] returns,
    that timer is the last effect. *)
Theorem keyboardEvent_escape p shift element active :
  let p0 := emit DefaultPrevented p in
  let p' := after (keyboardEvent "Escape" shift element active) p in
  match menu p with
  | None =>
      keyboardEvent "Escape" shift element active p = (Throw TypeError, p0)
  | Some m =>
      (has_class p m (openStatusClass (opts p)) = false
       ∨ has_class p m (animationCloseStatusClass (opts p)) = true →
       outcome (keyboardEvent "Escape" shift element active) p = Ok tt
       ∧ effects_of (keyboardEvent "Escape" shift element active) p
         = [DefaultPrevented; TimerSet 0 (FocusNode (toggle p))]
       ∧ timers p' = timers p ++ [(0, FocusNode (toggle p))]
       ∧ els p' = els p ∧ ctl p' = ctl p)
      ∧ (∀ b, outcome close p0 = Ok b →
              outcome (keyboardEvent "Escape" shift element active) p = Ok tt
              ∧ last (log p') = Some (TimerSet 0 (FocusNode (toggle p)))
              ∧ timers p' = timers (after close p0) ++ [(0, FocusNode (toggle p))])
  end.
Proof.
  cbv zeta.
  assert (E0 : keyboardEvent "Escape" shift element active p
               = (close >> focusToggle 0) (emit DefaultPrevented p)).
  { unfold keyboardEvent. rewrite bind_get.
    rewrite !decide_False by done. rewrite decide_True by done.
    unfold preventDefault. by rewrite bind_modify. }
  unfold effects_of, outcome, after. rewrite E0.
  destruct (menu p) as [m|] eqn:Hm.
  - split.
    + intros Hguard.
      assert (E : close (emit DefaultPrevented p) = (Ok false, emit DefaultPrevented p)).
      { unfold close. rewrite bind_get. cbn [menu emit]. rewrite Hm, bind_deref.
        unfold has_class in *. cbn [els emit opts].
        destruct Hguard as [-> | ->]; [done | by rewrite orb_true_r]. }
      rewrite (bind_run _ _ _ _ _ E). unfold focusToggle, setTimeout.
      rewrite bind_get. cbn [fst snd modify log timers els ctl toggle emit set_timers].
      rewrite <- app_assoc, drop_app_length. done.
    + intros b Hb. apply run_outcome in Hb.
      pose proof (preserved same_setup _ _ _ _ setup_close Hb) as (_ & Ht & _).
      rewrite (bind_run _ _ _ _ _ Hb). unfold focusToggle, setTimeout.
      rewrite bind_get. cbn [fst snd modify log timers emit set_timers].
      rewrite Ht. cbn [toggle emit]. split_and!; [done | apply last_snoc | done].
  - apply bind_throw. unfold close. rewrite bind_get. cbn [menu emit]. by rewrite Hm.
Qed.
